(** * usePhaseLooper: the phase-looper controller

    A shallow embedding of [src/hooks/usePhaseLooper.ts], and of the logic
    of the page that uses it ([src/App.jsx]: the click handler of the
    primary button, the conditions of its icons, the status text).  The
    hook keeps a
    React state snapshot ([PhaseLooperState]), nine mutable ref cells and a
    number of platform objects (audio contexts, capture streams, recorders,
    audio nodes) that it reaches through those cells.  The platform objects
    live in per-kind stores and are named by their index there, so that two
    cells holding the same handle share the object, and so that the length of
    a store counts the objects ever constructed.

    Every callback of the hook is a computation in a small state-and-exception
    monad over the whole machine.  An [await] splits a callback: the part
    before it registers a pending task, the part after it runs when the
    platform completes that task.

    Conventions.
    - A JavaScript [number] (rates, pans, gain, times) is only stored and
      passed on by this code, never computed with; it is a rational, NaN or
      an infinity.  The platform's setters take a 32-bit float and throw a
      TypeError on a number that is not finite as one.
    - The presentation layer calls the callbacks of the latest render; the
      [state] that [enable] tests is the snapshot of that render, which
      lags behind the state until React renders again.
    - The cleanup that runs on unmount is given ([cleanup]) but is not an
      event of the machine; what it does is stated on its own. *)

From Stdlib Require Import String QArith Lia.
From stdpp Require Import base option list.

Local Open Scope string_scope.
Local Open Scope list_scope.

(** ** Platform capabilities, as probed by [getInitialState] *)

Record Window := {
  window_defined : bool;          (* typeof window !== "undefined" *)
  window_AudioContext : bool;     (* !!window.AudioContext *)
  navigator_defined : bool;       (* typeof navigator !== "undefined" *)
  navigator_getUserMedia : bool;  (* !!navigator.mediaDevices?.getUserMedia *)
  window_MediaRecorder : bool     (* typeof window.MediaRecorder !== "undefined" *)
}.

(** ** Numbers *)

Inductive number :=
| Num (q : Q)
| NaN
| PosInfinity
| NegInfinity.

(** The least magnitude that Web IDL's conversion to [float] no longer
    rounds to a finite 32-bit float: 2^128 - 2^103, half a unit in the last
    place above the largest one. *)
Definition float32_bound : Q := 340282356779733661637539395458142568448 # 1.

(** Whether the conversion of [x] to a Web IDL [float] succeeds; the
    setters of an [AudioParam] value and the options of a node's constructor
    throw a TypeError when it does not. *)
Definition finite_float32 (x : number) : bool :=
  match x with
  | Num q =>
      negb (Qle_bool float32_bound q) && negb (Qle_bool q (- float32_bound))
  | _ => false
  end.

(** A reading of [audioCtx.currentTime]: seconds as a fraction, never
    negative and never NaN or infinite. *)
Record Time := {
  time_num : N;
  time_den : positive
}.

Definition seconds (t : Time) : number :=
  Num (Z.of_N (time_num t) # time_den t).

(** Neither NaN nor an infinity. *)
Definition is_finite (x : number) : bool :=
  match x with Num _ => true | _ => false end.

Definition is_negative (x : number) : bool :=
  match x with
  | Num q => negb (Qle_bool 0 q)
  | NegInfinity => true
  | _ => false
  end.

(** A reading in milliseconds. *)
Definition at_ms (n : N) : Time := {| time_num := n; time_den := 1000 |}.

(** ** Options and their defaults *)

Record UsePhaseLooperOptions := {
  opt_basePlaybackRate : option number;
  opt_fastPlaybackRate : option number;
  opt_gain : option number;
  opt_panLeft : option number;
  opt_panRight : option number
}.

Definition basePlaybackRate (o : UsePhaseLooperOptions) : number :=
  default (Num (1 # 1)) (opt_basePlaybackRate o).
Definition fastPlaybackRate (o : UsePhaseLooperOptions) : number :=
  default (Num (1003 # 1000)) (opt_fastPlaybackRate o).
Definition gain (o : UsePhaseLooperOptions) : number :=
  default (Num (8 # 10)) (opt_gain o).
Definition panLeft (o : UsePhaseLooperOptions) : number :=
  default (Num (- 8 # 10)) (opt_panLeft o).
Definition panRight (o : UsePhaseLooperOptions) : number :=
  default (Num (8 # 10)) (opt_panRight o).

Definition noOptions : UsePhaseLooperOptions :=
  {| opt_basePlaybackRate := None; opt_fastPlaybackRate := None;
     opt_gain := None; opt_panLeft := None; opt_panRight := None |}.

(** The options the page passes ([App.jsx]). *)
Definition pageOptions : UsePhaseLooperOptions :=
  {| opt_basePlaybackRate := Some (Num (1 # 1));
     opt_fastPlaybackRate := Some (Num (1003 # 1000));
     opt_gain := Some (Num (8 # 10));
     opt_panLeft := Some (Num (- 8 # 10));
     opt_panRight := Some (Num (8 # 10)) |}.

(** Every option is finite as a 32-bit float, so that the platform accepts
    each of them. *)
Definition options_finite (o : UsePhaseLooperOptions) : bool :=
  finite_float32 (basePlaybackRate o) && finite_float32 (fastPlaybackRate o)
  && finite_float32 (panLeft o) && finite_float32 (panRight o)
  && finite_float32 (gain o).

(** ** The observable snapshot *)

Record PhaseLooperState := {
  isSupported : bool;
  isEnabling : bool;
  isEnabled : bool;
  isRecording : bool;
  hasPhrase : bool;
  isPhasePlaying : bool;
  status : string
}.

Definition getInitialState (w : Window) : PhaseLooperState :=
  {| isSupported :=
       window_defined w && window_AudioContext w && navigator_defined w
       && navigator_getUserMedia w && window_MediaRecorder w;
     isEnabling := false;
     isEnabled := false;
     isRecording := false;
     hasPhrase := false;
     isPhasePlaying := false;
     status := "" |}.

Definition with_isEnabling (b : bool) (s : PhaseLooperState) : PhaseLooperState :=
  {| isSupported := isSupported s; isEnabling := b; isEnabled := isEnabled s;
     isRecording := isRecording s; hasPhrase := hasPhrase s;
     isPhasePlaying := isPhasePlaying s; status := status s |}.
Definition with_isEnabled (b : bool) (s : PhaseLooperState) : PhaseLooperState :=
  {| isSupported := isSupported s; isEnabling := isEnabling s; isEnabled := b;
     isRecording := isRecording s; hasPhrase := hasPhrase s;
     isPhasePlaying := isPhasePlaying s; status := status s |}.
Definition with_isRecording (b : bool) (s : PhaseLooperState) : PhaseLooperState :=
  {| isSupported := isSupported s; isEnabling := isEnabling s;
     isEnabled := isEnabled s; isRecording := b; hasPhrase := hasPhrase s;
     isPhasePlaying := isPhasePlaying s; status := status s |}.
Definition with_hasPhrase (b : bool) (s : PhaseLooperState) : PhaseLooperState :=
  {| isSupported := isSupported s; isEnabling := isEnabling s;
     isEnabled := isEnabled s; isRecording := isRecording s; hasPhrase := b;
     isPhasePlaying := isPhasePlaying s; status := status s |}.
Definition with_isPhasePlaying (b : bool) (s : PhaseLooperState) : PhaseLooperState :=
  {| isSupported := isSupported s; isEnabling := isEnabling s;
     isEnabled := isEnabled s; isRecording := isRecording s;
     hasPhrase := hasPhrase s; isPhasePlaying := b; status := status s |}.
Definition with_status (m : string) (s : PhaseLooperState) : PhaseLooperState :=
  {| isSupported := isSupported s; isEnabling := isEnabling s;
     isEnabled := isEnabled s; isRecording := isRecording s;
     hasPhrase := hasPhrase s; isPhasePlaying := isPhasePlaying s; status := m |}.

(** ** Platform objects *)

Inductive AudioContextState := suspended | running | closed.

Record AudioContext := {
  ac_state : AudioContextState;
  ac_currentTime_reads : nat      (* how often [currentTime] was read *)
}.

Record MediaStream := {
  ms_tracks_stopped : bool
}.

Inductive RecordingState := inactive | recording | paused.

Record MediaRecorder := {
  mr_stream : nat;
  mr_state : RecordingState
}.

(** A recorded chunk is known by its byte size. *)
Definition Blob := N.

(** A decoded buffer; [ab_duration_toFixed2] is the text of
    [buffer.duration.toFixed(2)]. *)
Record AudioBuffer := {
  ab_id : nat;
  ab_duration_toFixed2 : string
}.

Inductive AudioNodeRef :=
| StereoPanner (i : nat)
| Gain (i : nat)
| Destination (ctx : nat).

Record AudioBufferSourceNode := {
  sn_context : nat;
  sn_buffer : option AudioBuffer;
  sn_loop : bool;
  sn_playbackRate : number;       (* the value last assigned to the rate *)
  sn_started : option number;     (* the [when] of start(), once called *)
  sn_stopped : bool;
  sn_outputs : list AudioNodeRef
}.

Record StereoPannerNode := {
  pn_context : nat;
  pn_pan : number;                (* the pan option the node was made with *)
  pn_outputs : list AudioNodeRef
}.

Record GainNode := {
  gn_context : nat;
  gn_gain : number;               (* the value last assigned to the gain *)
  gn_outputs : list AudioNodeRef
}.

(** ** Pending asynchronous work

    What the platform still owes the hook: a promise an [async] callback is
    suspended on, or a recorder event that has been queued. *)

Inductive Task :=
| AwaitResume (ctx : nat)             (* enable: await audioCtx.resume() *)
| AwaitGetUserMedia                   (* enable: await getUserMedia(...) *)
| EventStart (r : nat)                (* recorder r will fire "start" *)
| EventDataAvailable (r : nat)        (* recorder r will fire "dataavailable" *)
| EventStop (r : nat)                 (* recorder r will fire "stop" *)
| AwaitArrayBuffer (chunks : list Blob)  (* onstop: await blob.arrayBuffer() *)
| AwaitDecodeAudioData (ctx : nat).   (* onstop: await decodeAudioData(...) *)

#[global] Instance AudioContextState_eq_dec : EqDecision AudioContextState.
Proof. solve_decision. Defined.
#[global] Instance RecordingState_eq_dec : EqDecision RecordingState.
Proof. solve_decision. Defined.
#[global] Instance AudioNodeRef_eq_dec : EqDecision AudioNodeRef.
Proof. solve_decision. Defined.
#[global] Instance Task_eq_dec : EqDecision Task.
Proof. solve_decision. Defined.

Record World := {
  contexts : list AudioContext;
  streams : list MediaStream;
  recorders : list MediaRecorder;
  sources : list AudioBufferSourceNode;
  panners : list StereoPannerNode;
  gains : list GainNode;
  pending : list Task
}.

Definition emptyWorld : World :=
  {| contexts := []; streams := []; recorders := []; sources := [];
     panners := []; gains := []; pending := [] |}.

Definition with_contexts (x : list AudioContext) (w : World) : World :=
  {| contexts := x; streams := streams w; recorders := recorders w;
     sources := sources w; panners := panners w; gains := gains w;
     pending := pending w |}.
Definition with_streams (x : list MediaStream) (w : World) : World :=
  {| contexts := contexts w; streams := x; recorders := recorders w;
     sources := sources w; panners := panners w; gains := gains w;
     pending := pending w |}.
Definition with_recorders (x : list MediaRecorder) (w : World) : World :=
  {| contexts := contexts w; streams := streams w; recorders := x;
     sources := sources w; panners := panners w; gains := gains w;
     pending := pending w |}.
Definition with_sources (x : list AudioBufferSourceNode) (w : World) : World :=
  {| contexts := contexts w; streams := streams w; recorders := recorders w;
     sources := x; panners := panners w; gains := gains w;
     pending := pending w |}.
Definition with_panners (x : list StereoPannerNode) (w : World) : World :=
  {| contexts := contexts w; streams := streams w; recorders := recorders w;
     sources := sources w; panners := x; gains := gains w;
     pending := pending w |}.
Definition with_gains (x : list GainNode) (w : World) : World :=
  {| contexts := contexts w; streams := streams w; recorders := recorders w;
     sources := sources w; panners := panners w; gains := x;
     pending := pending w |}.
Definition with_pending (x : list Task) (w : World) : World :=
  {| contexts := contexts w; streams := streams w; recorders := recorders w;
     sources := sources w; panners := panners w; gains := gains w;
     pending := x |}.

(** ** The hook's ref cells *)

Record Refs := {
  audioCtxRef : option nat;
  streamRef : option nat;
  recorderRef : option nat;
  chunksRef : list Blob;
  phraseBufferRef : option AudioBuffer;
  source1Ref : option nat;
  source2Ref : option nat;
  gainRef : option nat;
  ignoreNextOnStopRef : bool
}.

Definition initialRefs : Refs :=
  {| audioCtxRef := None; streamRef := None; recorderRef := None;
     chunksRef := []; phraseBufferRef := None; source1Ref := None;
     source2Ref := None; gainRef := None; ignoreNextOnStopRef := false |}.

Definition with_audioCtxRef (x : option nat) (r : Refs) : Refs :=
  {| audioCtxRef := x; streamRef := streamRef r; recorderRef := recorderRef r;
     chunksRef := chunksRef r; phraseBufferRef := phraseBufferRef r;
     source1Ref := source1Ref r; source2Ref := source2Ref r;
     gainRef := gainRef r; ignoreNextOnStopRef := ignoreNextOnStopRef r |}.
Definition with_streamRef (x : option nat) (r : Refs) : Refs :=
  {| audioCtxRef := audioCtxRef r; streamRef := x; recorderRef := recorderRef r;
     chunksRef := chunksRef r; phraseBufferRef := phraseBufferRef r;
     source1Ref := source1Ref r; source2Ref := source2Ref r;
     gainRef := gainRef r; ignoreNextOnStopRef := ignoreNextOnStopRef r |}.
Definition with_recorderRef (x : option nat) (r : Refs) : Refs :=
  {| audioCtxRef := audioCtxRef r; streamRef := streamRef r; recorderRef := x;
     chunksRef := chunksRef r; phraseBufferRef := phraseBufferRef r;
     source1Ref := source1Ref r; source2Ref := source2Ref r;
     gainRef := gainRef r; ignoreNextOnStopRef := ignoreNextOnStopRef r |}.
Definition with_chunksRef (x : list Blob) (r : Refs) : Refs :=
  {| audioCtxRef := audioCtxRef r; streamRef := streamRef r;
     recorderRef := recorderRef r; chunksRef := x;
     phraseBufferRef := phraseBufferRef r; source1Ref := source1Ref r;
     source2Ref := source2Ref r; gainRef := gainRef r;
     ignoreNextOnStopRef := ignoreNextOnStopRef r |}.
Definition with_phraseBufferRef (x : option AudioBuffer) (r : Refs) : Refs :=
  {| audioCtxRef := audioCtxRef r; streamRef := streamRef r;
     recorderRef := recorderRef r; chunksRef := chunksRef r;
     phraseBufferRef := x; source1Ref := source1Ref r;
     source2Ref := source2Ref r; gainRef := gainRef r;
     ignoreNextOnStopRef := ignoreNextOnStopRef r |}.
Definition with_source1Ref (x : option nat) (r : Refs) : Refs :=
  {| audioCtxRef := audioCtxRef r; streamRef := streamRef r;
     recorderRef := recorderRef r; chunksRef := chunksRef r;
     phraseBufferRef := phraseBufferRef r; source1Ref := x;
     source2Ref := source2Ref r; gainRef := gainRef r;
     ignoreNextOnStopRef := ignoreNextOnStopRef r |}.
Definition with_source2Ref (x : option nat) (r : Refs) : Refs :=
  {| audioCtxRef := audioCtxRef r; streamRef := streamRef r;
     recorderRef := recorderRef r; chunksRef := chunksRef r;
     phraseBufferRef := phraseBufferRef r; source1Ref := source1Ref r;
     source2Ref := x; gainRef := gainRef r;
     ignoreNextOnStopRef := ignoreNextOnStopRef r |}.
Definition with_gainRef (x : option nat) (r : Refs) : Refs :=
  {| audioCtxRef := audioCtxRef r; streamRef := streamRef r;
     recorderRef := recorderRef r; chunksRef := chunksRef r;
     phraseBufferRef := phraseBufferRef r; source1Ref := source1Ref r;
     source2Ref := source2Ref r; gainRef := x;
     ignoreNextOnStopRef := ignoreNextOnStopRef r |}.
Definition with_ignoreNextOnStopRef (x : bool) (r : Refs) : Refs :=
  {| audioCtxRef := audioCtxRef r; streamRef := streamRef r;
     recorderRef := recorderRef r; chunksRef := chunksRef r;
     phraseBufferRef := phraseBufferRef r; source1Ref := source1Ref r;
     source2Ref := source2Ref r; gainRef := gainRef r;
     ignoreNextOnStopRef := x |}.

(** ** The whole machine *)

(** [state] is the value React holds for [useState]: what the updaters
    passed to [setState] are applied to.  [rendered] is the value the last
    render saw: the snapshot the hook returned to the presentation layer,
    and the [state] that the [enable] of that render closes over. *)
Record Hook := {
  window : Window;
  options : UsePhaseLooperOptions;
  state : PhaseLooperState;
  rendered : PhaseLooperState;
  refs : Refs;
  world : World
}.

(** The hook as [usePhaseLooper(options)] leaves it on first render. *)
Definition usePhaseLooper (w : Window) (o : UsePhaseLooperOptions) : Hook :=
  {| window := w; options := o; state := getInitialState w;
     rendered := getInitialState w;
     refs := initialRefs; world := emptyWorld |}.

Definition on_state (f : PhaseLooperState -> PhaseLooperState) (h : Hook) : Hook :=
  {| window := window h; options := options h; state := f (state h);
     rendered := rendered h; refs := refs h; world := world h |}.
Definition on_refs (f : Refs -> Refs) (h : Hook) : Hook :=
  {| window := window h; options := options h; state := state h;
     rendered := rendered h; refs := f (refs h); world := world h |}.
Definition on_world (f : World -> World) (h : Hook) : Hook :=
  {| window := window h; options := options h; state := state h;
     rendered := rendered h; refs := refs h; world := f (world h) |}.
(** A render: the hook body runs again and picks up the current state. *)
Definition rerendered (h : Hook) : Hook :=
  {| window := window h; options := options h; state := state h;
     rendered := state h; refs := refs h; world := world h |}.

(** ** Computations: state plus JavaScript exceptions

    A thrown exception keeps every mutation made before the throw. *)

Inductive DOMException :=
| InvalidStateError | NotSupportedError | NotAllowedError | TypeError
| RangeError | EncodingError.

Inductive Outcome (A : Type) :=
| Returns (a : A)
| Throws (e : DOMException).
Arguments Returns {A} a.
Arguments Throws {A} e.

Definition M (A : Type) : Type := Hook -> Outcome A * Hook.

Definition ret {A} (a : A) : M A := fun h => (Returns a, h).
Definition throw {A} (e : DOMException) : M A := fun h => (Throws e, h).
Definition bind {A B} (m : M A) (k : A -> M B) : M B :=
  fun h => match m h with
           | (Returns a, h') => k a h'
           | (Throws e, h') => (Throws e, h')
           end.
(** [try { m } catch { handler }] *)
Definition try_catch {A} (m : M A) (handler : M A) : M A :=
  fun h => match m h with
           | (Returns a, h') => (Returns a, h')
           | (Throws _, h') => handler h'
           end.

Declare Scope js_scope.
Delimit Scope js_scope with js.
Notation "'let*' x := m 'in' k" := (bind m (fun x => k))
  (at level 10, x name, m at level 100, k at level 200) : js_scope.
Notation "m >> k" := (bind m (fun _ => k))
  (at level 65, right associativity) : js_scope.
Local Open Scope js_scope.

(** The final machine of a computation, whether it returned or threw. *)
Definition exec {A} (m : M A) (h : Hook) : Hook := snd (m h).

Definition get {A} (p : Hook -> A) : M A := fun h => (Returns (p h), h).
Definition modify (f : Hook -> Hook) : M unit := fun h => (Returns tt, f h).

(** [if (x) { body }] on a nullable handle *)
Definition when_some {A} (x : option A) (body : A -> M unit) : M unit :=
  match x with Some a => body a | None => ret tt end.

Definition setState (f : PhaseLooperState -> PhaseLooperState) : M unit :=
  modify (on_state f).
Definition setStatus (s : string) : M unit :=
  setState (with_status s).

(** Registers work the platform will complete later. *)
Definition enqueue (t : Task) : M unit :=
  modify (on_world (fun w => with_pending (pending w ++ [t]) w)).

(** ** Platform calls *)

(** What [new AudioContext()] does when enable has to construct one. *)
Inductive NewContext := ContextThrows | ContextStarts (s : AudioContextState).

Definition new_AudioContext (o : NewContext) : M nat :=
  match o with
  | ContextThrows => throw NotSupportedError
  | ContextStarts s =>
      let* i := get (fun h => length (contexts (world h))) in
      modify (on_world (fun w =>
        with_contexts (contexts w ++ [{| ac_state := s; ac_currentTime_reads := 0 |}]) w)) >>
      ret i
  end.

Definition AudioContext_state (c : nat) : M AudioContextState :=
  get (fun h => from_option ac_state closed (contexts (world h) !! c)).

Definition set_ac_state (s : AudioContextState) (a : AudioContext) : AudioContext :=
  {| ac_state := s; ac_currentTime_reads := ac_currentTime_reads a |}.

(** [audioCtx.close()]: the call itself returns a promise the hook drops. *)
Definition AudioContext_close (c : nat) : M unit :=
  modify (on_world (fun w => with_contexts (alter (set_ac_state closed) c (contexts w)) w)).

(** [audioCtx.currentTime]; [now] is the value the platform reports. *)
Definition AudioContext_currentTime (now : Time) (c : nat) : M number :=
  modify (on_world (fun w => with_contexts
    (alter (fun a => {| ac_state := ac_state a;
                        ac_currentTime_reads := S (ac_currentTime_reads a) |})
           c (contexts w)) w)) >>
  ret (seconds now).

Definition new_MediaStream : M nat :=
  let* i := get (fun h => length (streams (world h))) in
  modify (on_world (fun w =>
    with_streams (streams w ++ [{| ms_tracks_stopped := false |}]) w)) >>
  ret i.

(** [stream.getTracks().forEach((t) => t.stop())] *)
Definition MediaStream_stopTracks (s : nat) : M unit :=
  modify (on_world (fun w =>
    with_streams (alter (fun _ => {| ms_tracks_stopped := true |}) s (streams w)) w)).

(** [new MediaRecorder(stream)]; [ok] tells whether the platform accepts. *)
Definition new_MediaRecorder (ok : bool) (stream : nat) : M nat :=
  if ok then
    let* i := get (fun h => length (recorders (world h))) in
    modify (on_world (fun w =>
      with_recorders (recorders w ++ [{| mr_stream := stream; mr_state := inactive |}]) w)) >>
    ret i
  else throw NotSupportedError.

Definition MediaRecorder_state (r : nat) : M RecordingState :=
  get (fun h => from_option mr_state inactive (recorders (world h) !! r)).

Definition set_mr_state (s : RecordingState) (m : MediaRecorder) : MediaRecorder :=
  {| mr_stream := mr_stream m; mr_state := s |}.

(** The stream recorder [r] records from is inactive: it has no live track
    left. *)
Definition stream_ended (r : nat) (h : Hook) : bool :=
  match recorders (world h) !! r with
  | Some m => from_option ms_tracks_stopped false (streams (world h) !! mr_stream m)
  | None => false
  end.

(** [recorder.start()]: only an inactive recorder may start, and only on a
    stream that still has a live track; the "start" event is fired later.
    (The third error of [start()], on a stream isolated to a peer identity,
    cannot arise for the stream of [getUserMedia({ audio: true })].) *)
Definition MediaRecorder_start (r : nat) : M unit :=
  let* s := MediaRecorder_state r in
  match s with
  | inactive =>
      let* ended := get (stream_ended r) in
      if ended then throw NotSupportedError
      else
        modify (on_world (fun w =>
          with_recorders (alter (set_mr_state recording) r (recorders w)) w)) >>
        enqueue (EventStart r)
  | _ => throw InvalidStateError
  end.

(** [recorder.stop()]: the recorder turns inactive at once; the last chunk
    and the "stop" event are delivered later. *)
Definition MediaRecorder_stop (r : nat) : M unit :=
  let* s := MediaRecorder_state r in
  match s with
  | inactive => ret tt
  | _ =>
      modify (on_world (fun w =>
        with_recorders (alter (set_mr_state inactive) r (recorders w)) w)) >>
      enqueue (EventDataAvailable r) >>
      enqueue (EventStop r)
  end.

Definition createBufferSource (ctx : nat) : M nat :=
  let* i := get (fun h => length (sources (world h))) in
  modify (on_world (fun w => with_sources
    (sources w ++ [{| sn_context := ctx; sn_buffer := None; sn_loop := false;
                      sn_playbackRate := Num (1 # 1); sn_started := None;
                      sn_stopped := false; sn_outputs := [] |}]) w)) >>
  ret i.

Definition createGain (ctx : nat) : M nat :=
  let* i := get (fun h => length (gains (world h))) in
  modify (on_world (fun w => with_gains
    (gains w ++ [{| gn_context := ctx; gn_gain := Num (1 # 1); gn_outputs := [] |}]) w)) >>
  ret i.

(** [new StereoPannerNode(audioCtx, { pan })]: the option is a [float], and
    no node is made when its conversion fails. *)
Definition new_StereoPannerNode (ctx : nat) (pan : number) : M nat :=
  if finite_float32 pan then
    let* i := get (fun h => length (panners (world h))) in
    modify (on_world (fun w => with_panners
      (panners w ++ [{| pn_context := ctx; pn_pan := pan; pn_outputs := [] |}]) w)) >>
    ret i
  else throw TypeError.

Definition on_source (f : AudioBufferSourceNode -> AudioBufferSourceNode) (s : nat) : M unit :=
  modify (on_world (fun w => with_sources (alter f s (sources w)) w)).
Definition on_panner (f : StereoPannerNode -> StereoPannerNode) (p : nat) : M unit :=
  modify (on_world (fun w => with_panners (alter f p (panners w)) w)).
Definition on_gain (f : GainNode -> GainNode) (g : nat) : M unit :=
  modify (on_world (fun w => with_gains (alter f g (gains w)) w)).

Definition set_buffer (b : AudioBuffer) (s : nat) : M unit :=
  on_source (fun n =>
    {| sn_context := sn_context n; sn_buffer := Some b; sn_loop := sn_loop n;
       sn_playbackRate := sn_playbackRate n; sn_started := sn_started n;
       sn_stopped := sn_stopped n; sn_outputs := sn_outputs n |}) s.
Definition set_loop (l : bool) (s : nat) : M unit :=
  on_source (fun n =>
    {| sn_context := sn_context n; sn_buffer := sn_buffer n; sn_loop := l;
       sn_playbackRate := sn_playbackRate n; sn_started := sn_started n;
       sn_stopped := sn_stopped n; sn_outputs := sn_outputs n |}) s.
(** [source.playbackRate.value = r]: the setter of an [AudioParam] value
    takes a [float]. *)
Definition set_playbackRate (r : number) (s : nat) : M unit :=
  if finite_float32 r then
    on_source (fun n =>
      {| sn_context := sn_context n; sn_buffer := sn_buffer n; sn_loop := sn_loop n;
         sn_playbackRate := r; sn_started := sn_started n;
         sn_stopped := sn_stopped n; sn_outputs := sn_outputs n |}) s
  else throw TypeError.
(** [gainNode.gain.value = v], likewise. *)
Definition set_gain_value (v : number) (g : nat) : M unit :=
  if finite_float32 v then
    on_gain (fun n =>
      {| gn_context := gn_context n; gn_gain := v; gn_outputs := gn_outputs n |}) g
  else throw TypeError.

(** [connect] adds an output once and hands back its destination, which is
    what lets the source chain the calls. *)
Definition add_output (t : AudioNodeRef) (outs : list AudioNodeRef) : list AudioNodeRef :=
  if decide (t ∈ outs) then outs else outs ++ [t].

Definition source_connect (s : nat) (t : AudioNodeRef) : M AudioNodeRef :=
  on_source (fun n =>
    {| sn_context := sn_context n; sn_buffer := sn_buffer n; sn_loop := sn_loop n;
       sn_playbackRate := sn_playbackRate n; sn_started := sn_started n;
       sn_stopped := sn_stopped n; sn_outputs := add_output t (sn_outputs n) |}) s >>
  ret t.
Definition node_connect (from t : AudioNodeRef) : M AudioNodeRef :=
  match from with
  | StereoPanner p =>
      on_panner (fun n =>
        {| pn_context := pn_context n; pn_pan := pn_pan n;
           pn_outputs := add_output t (pn_outputs n) |}) p
  | Gain g =>
      on_gain (fun n =>
        {| gn_context := gn_context n; gn_gain := gn_gain n;
           gn_outputs := add_output t (gn_outputs n) |}) g
  | Destination _ => throw InvalidStateError
  end >>
  ret t.

(** [source.start(when)]: [when] is a [double], which has to be finite; a
    unit starts once; a negative [when] is out of range. *)
Definition source_start (s : nat) (when : number) : M unit :=
  if is_finite when then
    let* n := get (fun h => sources (world h) !! s) in
    match n with
    | Some n =>
        match sn_started n with
        | Some _ => throw InvalidStateError
        | None =>
            if is_negative when then throw RangeError
            else
              on_source (fun n =>
                {| sn_context := sn_context n; sn_buffer := sn_buffer n;
                   sn_loop := sn_loop n; sn_playbackRate := sn_playbackRate n;
                   sn_started := Some when; sn_stopped := sn_stopped n;
                   sn_outputs := sn_outputs n |}) s
        end
    | None => throw TypeError
    end
  else throw TypeError.

(** [source.stop()]: an error on a unit that was never started. *)
Definition source_stop (s : nat) : M unit :=
  let* n := get (fun h => sources (world h) !! s) in
  match n with
  | Some n =>
      match sn_started n with
      | None => throw InvalidStateError
      | Some _ =>
          on_source (fun n =>
            {| sn_context := sn_context n; sn_buffer := sn_buffer n;
               sn_loop := sn_loop n; sn_playbackRate := sn_playbackRate n;
               sn_started := sn_started n; sn_stopped := true;
               sn_outputs := sn_outputs n |}) s
      end
  | None => throw TypeError
  end.

Definition source_disconnect (s : nat) : M unit :=
  on_source (fun n =>
    {| sn_context := sn_context n; sn_buffer := sn_buffer n; sn_loop := sn_loop n;
       sn_playbackRate := sn_playbackRate n; sn_started := sn_started n;
       sn_stopped := sn_stopped n; sn_outputs := [] |}) s.
Definition gain_disconnect (g : nat) : M unit :=
  on_gain (fun n =>
    {| gn_context := gn_context n; gn_gain := gn_gain n; gn_outputs := [] |}) g.

(** ** The hook's callbacks *)

Definition audioCtxRef_current : M (option nat) := get (fun h => audioCtxRef (refs h)).
Definition streamRef_current : M (option nat) := get (fun h => streamRef (refs h)).
Definition recorderRef_current : M (option nat) := get (fun h => recorderRef (refs h)).
Definition chunksRef_current : M (list Blob) := get (fun h => chunksRef (refs h)).
Definition phraseBufferRef_current : M (option AudioBuffer) :=
  get (fun h => phraseBufferRef (refs h)).
Definition source1Ref_current : M (option nat) := get (fun h => source1Ref (refs h)).
Definition source2Ref_current : M (option nat) := get (fun h => source2Ref (refs h)).
Definition gainRef_current : M (option nat) := get (fun h => gainRef (refs h)).
Definition ignoreNextOnStopRef_current : M bool :=
  get (fun h => ignoreNextOnStopRef (refs h)).

(** *** The recorder's event handlers, registered by [enable] *)

Definition ondataavailable (size : N) : M unit :=
  if (0 <? size)%N
  then modify (on_refs (fun r => with_chunksRef (chunksRef r ++ [size]) r))
  else ret tt.

Definition onstart : M unit :=
  modify (on_refs (with_chunksRef [])) >>
  setState (with_isRecording true) >>
  setStatus "Recording your phrase…".

(** The [catch] of [onstop] (after [console.error]). *)
Definition onstop_catch : M unit :=
  setStatus "Error decoding audio buffer.".

(** [onstop] up to [await blob.arrayBuffer()] *)
Definition onstop : M unit :=
  let* ignore := ignoreNextOnStopRef_current in
  if ignore then
    modify (on_refs (with_ignoreNextOnStopRef false))
  else
    setState (with_isRecording false) >>
    setStatus "Processing recording…" >>
    let* ctx := audioCtxRef_current in
    match ctx with
    | None => ret tt
    | Some _ =>
        try_catch
          (let* chunks := chunksRef_current in
           enqueue (AwaitArrayBuffer chunks))
          onstop_catch
    end.

(** [onstop] from the array buffer to [await decodeAudioData(...)]; the
    context is read from its cell again, and reading a property of [null]
    throws. *)
Definition onstop_arrayBuffer (ok : bool) : M unit :=
  try_catch
    (if ok then
       let* ctx := audioCtxRef_current in
       match ctx with
       | None => throw TypeError
       | Some c => enqueue (AwaitDecodeAudioData c)
       end
     else throw NotSupportedError)
    onstop_catch.

(** [onstop] after the decode settled. *)
Definition onstop_decoded (result : option AudioBuffer) : M unit :=
  try_catch
    (match result with
     | Some buffer =>
         modify (on_refs (with_phraseBufferRef (Some buffer))) >>
         setState (with_hasPhrase true) >>
         setStatus ("Captured phrase: " ++ ab_duration_toFixed2 buffer
                    ++ "s. Ready to start phase loop.")
     | None => throw EncodingError
     end)
    onstop_catch.

(** *** enable *)

(** The [catch] of [enable] (after [console.error]). *)
Definition enable_catch : M unit :=
  setState (with_isEnabling false) >>
  setStatus "Error accessing microphone. Check permissions.".

(** [enable] up to its first [await].  Its [state] is the one of the
    render that created the callback. *)
Definition enable (o : NewContext) : M unit :=
  let* state := get rendered in
  if negb (isSupported state) then
    setStatus "Web Audio or MediaRecorder not supported in this browser."
  else if isEnabled state || isEnabling state then
    ret tt
  else
    setState (with_isEnabling true) >>
    try_catch
      (let* current := audioCtxRef_current in
       let* audioCtx :=
         match current with
         | None =>
             let* c := new_AudioContext o in
             modify (on_refs (with_audioCtxRef (Some c))) >>
             ret c
         | Some c => ret c
         end in
       let* s := AudioContext_state audioCtx in
       if decide (s = suspended)
       then enqueue (AwaitResume audioCtx)
       else enqueue AwaitGetUserMedia)
      enable_catch.

(** [enable] after [await audioCtx.resume()]: a resumed context runs. *)
Definition enable_resumed (audioCtx : nat) (ok : bool) : M unit :=
  try_catch
    (if ok then
       modify (on_world (fun w => with_contexts
         (alter (fun a => if decide (ac_state a = suspended)
                          then set_ac_state running a else a)
                audioCtx (contexts w)) w)) >>
       enqueue AwaitGetUserMedia
     else throw InvalidStateError)
    enable_catch.

(** [enable] after [await getUserMedia(...)]; [recorder_ok] is whether
    [new MediaRecorder(stream)] succeeds. *)
Definition enable_gotUserMedia (granted recorder_ok : bool) : M unit :=
  try_catch
    (if granted then
       let* stream := new_MediaStream in
       modify (on_refs (with_streamRef (Some stream))) >>
       let* recorder := new_MediaRecorder recorder_ok stream in
       modify (on_refs (with_recorderRef (Some recorder))) >>
       setState (fun prev => with_isEnabling false (with_isEnabled true prev)) >>
       setStatus "Mic enabled. Click Record and speak your phrase."
     else throw NotAllowedError)
    enable_catch.

(** *** Recording intents *)

Definition startRecording : M unit :=
  let* recorder := recorderRef_current in
  match recorder with
  | None => ret tt
  | Some r =>
      let* s := MediaRecorder_state r in
      if decide (s = recording) then ret tt else MediaRecorder_start r
  end.

Definition stopRecording : M unit :=
  let* recorder := recorderRef_current in
  match recorder with
  | None => ret tt
  | Some r =>
      let* s := MediaRecorder_state r in
      if decide (s <> recording) then ret tt else MediaRecorder_stop r
  end.

(** *** The phase graph *)

Definition stopPhase : M unit :=
  let* s1 := source1Ref_current in
  let* s2 := source2Ref_current in
  let* g := gainRef_current in
  when_some s1 (fun s1 =>
    try_catch (source_stop s1) (ret tt) >>
    source_disconnect s1 >>
    modify (on_refs (with_source1Ref None))) >>
  when_some s2 (fun s2 =>
    try_catch (source_stop s2) (ret tt) >>
    source_disconnect s2 >>
    modify (on_refs (with_source2Ref None))) >>
  when_some g (fun g =>
    gain_disconnect g >>
    modify (on_refs (with_gainRef None))) >>
  setState (with_isPhasePlaying false).

(** [now] is what the platform reports for [audioCtx.currentTime]. *)
Definition startPhase (now : Time) : M unit :=
  let* audioCtx := audioCtxRef_current in
  let* buffer := phraseBufferRef_current in
  match audioCtx, buffer with
  | Some audioCtx, Some buffer =>
      stopPhase >>
      let* source1 := createBufferSource audioCtx in
      let* source2 := createBufferSource audioCtx in
      let* gainNode := createGain audioCtx in
      set_buffer buffer source1 >>
      set_buffer buffer source2 >>
      set_loop true source1 >>
      set_loop true source2 >>
      let* o := get options in
      set_playbackRate (basePlaybackRate o) source1 >>
      set_playbackRate (fastPlaybackRate o) source2 >>
      let* panner1 := new_StereoPannerNode audioCtx (panLeft o) in
      let* panner2 := new_StereoPannerNode audioCtx (panRight o) in
      set_gain_value (gain o) gainNode >>
      (let* p := source_connect source1 (StereoPanner panner1) in
       let* g := node_connect p (Gain gainNode) in
       node_connect g (Destination audioCtx)) >>
      (let* p := source_connect source2 (StereoPanner panner2) in
       let* g := node_connect p (Gain gainNode) in
       node_connect g (Destination audioCtx)) >>
      let* now := AudioContext_currentTime now audioCtx in
      source_start source1 now >>
      source_start source2 now >>
      modify (on_refs (with_source1Ref (Some source1))) >>
      modify (on_refs (with_source2Ref (Some source2))) >>
      modify (on_refs (with_gainRef (Some gainNode))) >>
      setState (with_isPhasePlaying true) >>
      setStatus "Phase loop playing. One channel is slightly faster, so they’ll drift over time."
  | _, _ => ret tt
  end.

(** *** reset *)

Definition reset : M unit :=
  (* 1. Stop phase playback and disconnect nodes *)
  try_catch stopPhase (ret tt) >>
  (* 2. Stop recording if in progress; mark the stop to be ignored *)
  let* recorder := recorderRef_current in
  when_some recorder (fun r =>
    let* s := MediaRecorder_state r in
    if decide (s = recording) then
      modify (on_refs (with_ignoreNextOnStopRef true)) >>
      try_catch (MediaRecorder_stop r) (ret tt)
    else ret tt) >>
  (* 3. Stop mic stream *)
  let* stream := streamRef_current in
  when_some stream (fun s =>
    MediaStream_stopTracks s >>
    modify (on_refs (with_streamRef None))) >>
  (* 4. Close AudioContext *)
  let* ctx := audioCtxRef_current in
  when_some ctx (fun c =>
    try_catch (AudioContext_close c) (ret tt) >>
    modify (on_refs (with_audioCtxRef None))) >>
  (* 5. Clear all audio/recording refs *)
  modify (on_refs (with_recorderRef None)) >>
  modify (on_refs (with_chunksRef [])) >>
  modify (on_refs (with_phraseBufferRef None)) >>
  modify (on_refs (with_source1Ref None)) >>
  modify (on_refs (with_source2Ref None)) >>
  modify (on_refs (with_gainRef None)) >>
  (* 6. Reset state to initial *)
  let* w := get window in
  setState (fun _ => getInitialState w).

(** *** Cleanup on unmount

    The effect's cleanup function.  It runs when the component goes away,
    so it is not among the machine's events below. *)

Definition cleanup : M unit :=
  try_catch stopPhase (ret tt) >>
  let* recorder := recorderRef_current in
  when_some recorder (fun r =>
    let* s := MediaRecorder_state r in
    if decide (s = recording) then MediaRecorder_stop r else ret tt) >>
  let* stream := streamRef_current in
  when_some stream (fun s =>
    MediaStream_stopTracks s >>
    modify (on_refs (with_streamRef None))) >>
  let* ctx := audioCtxRef_current in
  when_some ctx (fun c =>
    AudioContext_close c >>
    modify (on_refs (with_audioCtxRef None))).

(** ** The machine's steps

    An intent is a call from the presentation layer, made through the
    callbacks of the last render; [Render] is React rendering the component
    again, which it does some time after a state update; the other events
    are the platform completing a pending task, with the outcome it
    chose. *)

Inductive Event :=
| Render
| CallEnable (o : NewContext)
| CallStartRecording
| CallStopRecording
| CallStartPhase (now : Time)
| CallStopPhase
| CallReset
| ResumeSettled (ctx : nat) (ok : bool)
| GetUserMediaSettled (granted recorder_ok : bool)
| FireStart (r : nat)
| FireDataAvailable (r : nat) (size : N)
| FireStop (r : nat)
| ArrayBufferSettled (chunks : list Blob) (ok : bool)
| DecodeSettled (ctx : nat) (result : option AudioBuffer).

Definition is_intent (e : Event) : bool :=
  match e with
  | CallEnable _ | CallStartRecording | CallStopRecording
  | CallStartPhase _ | CallStopPhase | CallReset => true
  | _ => false
  end.

(** Removes the first occurrence of a task, if it is pending. *)
Fixpoint take (t : Task) (l : list Task) : option (list Task) :=
  match l with
  | [] => None
  | x :: l' =>
      if decide (x = t) then Some l'
      else match take t l' with
           | Some r => Some (x :: r)
           | None => None
           end
  end.

(** The platform completes task [t] and the hook continues with [k]. *)
Definition settle (t : Task) (k : M unit) (h : Hook) : option Hook :=
  match take t (pending (world h)) with
  | Some rest => Some (exec k (on_world (with_pending rest) h))
  | None => None
  end.

(** The part of the hook an event runs. *)
Definition callback (e : Event) : M unit :=
  match e with
  | Render => modify rerendered
  | CallEnable o => enable o
  | CallStartRecording => startRecording
  | CallStopRecording => stopRecording
  | CallStartPhase now => startPhase now
  | CallStopPhase => stopPhase
  | CallReset => reset
  | ResumeSettled c ok => enable_resumed c ok
  | GetUserMediaSettled granted recorder_ok => enable_gotUserMedia granted recorder_ok
  | FireStart _ => onstart
  | FireDataAvailable _ size => ondataavailable size
  | FireStop _ => onstop
  | ArrayBufferSettled _ ok => onstop_arrayBuffer ok
  | DecodeSettled _ result => onstop_decoded result
  end.

(** The pending task an event completes; an intent completes none. *)
Definition awaited (e : Event) : option Task :=
  match e with
  | ResumeSettled c _ => Some (AwaitResume c)
  | GetUserMediaSettled _ _ => Some AwaitGetUserMedia
  | FireStart r => Some (EventStart r)
  | FireDataAvailable r _ => Some (EventDataAvailable r)
  | FireStop r => Some (EventStop r)
  | ArrayBufferSettled chunks _ => Some (AwaitArrayBuffer chunks)
  | DecodeSettled c _ => Some (AwaitDecodeAudioData c)
  | _ => None
  end.

Definition step (e : Event) (h : Hook) : option Hook :=
  match awaited e with
  | None => Some (exec (callback e) h)
  | Some t => settle t (callback e) h
  end.

Fixpoint run (es : list Event) (h : Hook) : option Hook :=
  match es with
  | [] => Some h
  | e :: es' =>
      match step e h with
      | Some h' => run es' h'
      | None => None
      end
  end.

(** The states the hook can be in, started on platform [w] with options [o]. *)
Definition reachable (w : Window) (o : UsePhaseLooperOptions) (h : Hook) : Prop :=
  exists es, run es (usePhaseLooper w o) = Some h.

(** ** Notions used to state the properties *)

(** One playback unit once [stopPhase] is through with it: stopped if it
    had been started, and disconnected. *)
Definition torn_down_source (n : AudioBufferSourceNode) : AudioBufferSourceNode :=
  {| sn_context := sn_context n; sn_buffer := sn_buffer n; sn_loop := sn_loop n;
     sn_playbackRate := sn_playbackRate n; sn_started := sn_started n;
     sn_stopped := match sn_started n with Some _ => true | None => sn_stopped n end;
     sn_outputs := [] |}.

Definition torn_down_gain (n : GainNode) : GainNode :=
  {| gn_context := gn_context n; gn_gain := gn_gain n; gn_outputs := [] |}.

(** The platform once the graph held by cells [r] is torn down. *)
Definition torn_down_world (r : Refs) (w : World) : World :=
  with_gains
    (from_option (fun g => alter torn_down_gain g) id (gainRef r) (gains w))
    (with_sources
       (from_option (fun s => alter torn_down_source s) id (source2Ref r)
          (from_option (fun s => alter torn_down_source s) id (source1Ref r)
             (sources w)))
       w).

Definition torn_down (h : Hook) : Hook :=
  {| window := window h; options := options h;
     state := with_isPhasePlaying false (state h);
     rendered := rendered h;
     refs := with_gainRef None (with_source2Ref None (with_source1Ref None (refs h)));
     world := torn_down_world (refs h) (world h) |}.

(** The two playback units and the gain stage [startPhase] sets up on
    context [ctx] for phrase [b], with pan stages [p1], [p2] and gain
    stage [g], started at [now]. *)
Definition unitA (o : UsePhaseLooperOptions) (ctx : nat) (b : AudioBuffer)
    (now : Time) (p1 : nat) : AudioBufferSourceNode :=
  {| sn_context := ctx; sn_buffer := Some b; sn_loop := true;
     sn_playbackRate := basePlaybackRate o; sn_started := Some (seconds now);
     sn_stopped := false; sn_outputs := [StereoPanner p1] |}.
Definition unitB (o : UsePhaseLooperOptions) (ctx : nat) (b : AudioBuffer)
    (now : Time) (p2 : nat) : AudioBufferSourceNode :=
  {| sn_context := ctx; sn_buffer := Some b; sn_loop := true;
     sn_playbackRate := fastPlaybackRate o; sn_started := Some (seconds now);
     sn_stopped := false; sn_outputs := [StereoPanner p2] |}.
Definition panStage (ctx : nat) (pan : number) (g : nat) : StereoPannerNode :=
  {| pn_context := ctx; pn_pan := pan; pn_outputs := [Gain g] |}.
Definition gainStage (o : UsePhaseLooperOptions) (ctx : nat) : GainNode :=
  {| gn_context := ctx; gn_gain := gain o; gn_outputs := [Destination ctx] |}.
Definition time_read (a : AudioContext) : AudioContext :=
  {| ac_state := ac_state a; ac_currentTime_reads := S (ac_currentTime_reads a) |}.

(** The machine once [startPhase] has built its graph on a torn-down
    machine [h0]. *)
Definition phase_started (now : Time) (ctx : nat) (b : AudioBuffer) (h0 : Hook) : Hook :=
  let a := length (sources (world h0)) in
  let p := length (panners (world h0)) in
  let g := length (gains (world h0)) in
  let o := options h0 in
  {| window := window h0; options := o;
     state :=
       with_status
         "Phase loop playing. One channel is slightly faster, so they’ll drift over time."
         (with_isPhasePlaying true (state h0));
     rendered := rendered h0;
     refs := with_gainRef (Some g)
               (with_source2Ref (Some (S a)) (with_source1Ref (Some a) (refs h0)));
     world :=
       with_contexts (alter time_read ctx (contexts (world h0)))
         (with_gains (gains (world h0) ++ [gainStage o ctx])
            (with_panners
               (panners (world h0)
                ++ [panStage ctx (panLeft o) g; panStage ctx (panRight o) g])
               (with_sources
                  (sources (world h0)
                   ++ [unitA o ctx b now p; unitB o ctx b now (S p)])
                  (world h0)))) |}.

(** What [startPhase] leaves behind on a torn-down machine [h0] when the
    platform rejects an option: the two units and the gain stage exist, and
    the pan stages made so far, none of them connected or started; no cell
    holds them and the state is the one after the teardown. *)
Definition idle_unit (ctx : nat) (b : AudioBuffer) (rate : number) : AudioBufferSourceNode :=
  {| sn_context := ctx; sn_buffer := Some b; sn_loop := true;
     sn_playbackRate := rate; sn_started := None;
     sn_stopped := false; sn_outputs := [] |}.
Definition idle_pan (ctx : nat) (pan : number) : StereoPannerNode :=
  {| pn_context := ctx; pn_pan := pan; pn_outputs := [] |}.
Definition idle_gain (ctx : nat) : GainNode :=
  {| gn_context := ctx; gn_gain := Num (1 # 1); gn_outputs := [] |}.

Definition phase_aborted (ctx : nat) (b : AudioBuffer) (h0 : Hook) : Hook :=
  let o := options h0 in
  let base_ok := finite_float32 (basePlaybackRate o) in
  let rates_ok := base_ok && finite_float32 (fastPlaybackRate o) in
  {| window := window h0; options := o; state := state h0;
     rendered := rendered h0; refs := refs h0;
     world :=
       with_gains (gains (world h0) ++ [idle_gain ctx])
         (with_panners
            (panners (world h0)
             ++ (if rates_ok && finite_float32 (panLeft o)
                 then idle_pan ctx (panLeft o)
                      :: (if finite_float32 (panRight o)
                          then [idle_pan ctx (panRight o)] else [])
                 else []))
            (with_sources
               (sources (world h0)
                ++ [idle_unit ctx b
                      (if base_ok then basePlaybackRate o else Num (1 # 1));
                    idle_unit ctx b
                      (if rates_ok then fastPlaybackRate o else Num (1 # 1))])
               (world h0))) |}.

(** The recorder [reset] has to stop: the stored one, if it is recording. *)
Definition recording_recorder (h : Hook) : option nat :=
  match recorderRef (refs h) with
  | Some r =>
      match from_option mr_state inactive (recorders (world h) !! r) with
      | recording => Some r
      | _ => None
      end
  | None => None
  end.

(** The machine [reset] leaves behind. *)
Definition after_reset (h : Hook) : Hook :=
  let rec := recording_recorder h in
  let w1 := torn_down_world (refs h) (world h) in
  let w2 :=
    match rec with
    | Some r =>
        with_pending (pending w1 ++ [EventDataAvailable r; EventStop r])
          (with_recorders (alter (set_mr_state inactive) r (recorders w1)) w1)
    | None => w1
    end in
  let w3 :=
    match streamRef (refs h) with
    | Some s =>
        with_streams (alter (fun _ => {| ms_tracks_stopped := true |}) s (streams w2)) w2
    | None => w2
    end in
  let w4 :=
    match audioCtxRef (refs h) with
    | Some c => with_contexts (alter (set_ac_state closed) c (contexts w3)) w3
    | None => w3
    end in
  {| window := window h; options := options h;
     state := getInitialState (window h);
     rendered := rendered h;
     refs :=
       with_ignoreNextOnStopRef
         (match rec with
          | Some _ => true
          | None => ignoreNextOnStopRef (refs h)
          end)
         initialRefs;
     world := w4 |}.

(** The hook holds nothing and has not come past the capability check. *)
Definition idle_unsupported (h : Hook) : Prop :=
  refs h = initialRefs /\ world h = emptyWorld
  /\ isSupported (state h) = false /\ isEnabling (state h) = false
  /\ isEnabled (state h) = false
  /\ isSupported (rendered h) = false /\ isEnabling (rendered h) = false
  /\ isEnabled (rendered h) = false.

(** A platform that lacks [MediaRecorder], and one that has everything. *)
Definition noRecorderWindow : Window :=
  {| window_defined := true; window_AudioContext := true;
     navigator_defined := true; navigator_getUserMedia := true;
     window_MediaRecorder := false |}.
Definition fullWindow : Window :=
  {| window_defined := true; window_AudioContext := true;
     navigator_defined := true; navigator_getUserMedia := true;
     window_MediaRecorder := true |}.

Definition phrase0 : AudioBuffer :=
  {| ab_id := 0; ab_duration_toFixed2 := "1.50" |}.

(** Enable on a suspended context and record one take, up to the point
    where its decode is in flight. *)
Definition record_take : list Event :=
  [CallEnable (ContextStarts suspended); ResumeSettled 0 true;
   GetUserMediaSettled true true;
   CallStartRecording; FireStart 0;
   CallStopRecording; FireDataAvailable 0 4096; FireStop 0;
   ArrayBufferSettled [4096%N] true].

(** The same, with the decode succeeding. *)
Definition capture_phrase : list Event :=
  record_take ++ [DecodeSettled 0 (Some phrase0)].

(** The machine a run leaves on the full platform with default options. *)
Definition after (es : list Event) : Hook :=
  default (usePhaseLooper fullWindow noOptions)
    (run es (usePhaseLooper fullWindow noOptions)).

(** The same on the full platform with options [o]. *)
Definition after_with (o : UsePhaseLooperOptions) (es : list Event) : Hook :=
  default (usePhaseLooper fullWindow o) (run es (usePhaseLooper fullWindow o)).

(** Options the platform rejects: a rate of 10^40, beyond every 32-bit
    float, and a rate that is not a number. *)
Definition steepOptions : UsePhaseLooperOptions :=
  {| opt_basePlaybackRate := None;
     opt_fastPlaybackRate :=
       Some (Num (10000000000000000000000000000000000000000 # 1));
     opt_gain := None; opt_panLeft := None; opt_panRight := None |}.
Definition nanOptions : UsePhaseLooperOptions :=
  {| opt_basePlaybackRate := Some NaN; opt_fastPlaybackRate := None;
     opt_gain := None; opt_panLeft := None; opt_panRight := None |}.

(** The completions that make [enable] fail: the resume is rejected, the
    microphone is refused, or the recorder cannot be constructed. *)
Definition enable_failure (e : Event) : bool :=
  match e with
  | ResumeSettled _ false => true
  | GetUserMediaSettled false _ => true
  | GetUserMediaSettled true false => true
  | _ => false
  end.

(** A phrase is stored. *)
Definition holds_phrase (h : Hook) : bool :=
  match phraseBufferRef (refs h) with Some _ => true | None => false end.

(** Some pending task satisfies [p]. *)
Definition has_task (p : Task -> bool) (h : Hook) : bool :=
  existsb p (pending (world h)).

(** A capture session is a recorder together with the stream it is bound
    to; it is live while the tracks of that stream have not been stopped. *)
Definition live_session (w : World) (r : MediaRecorder) : bool :=
  match streams w !! mr_stream r with
  | Some s => negb (ms_tracks_stopped s)
  | None => false
  end.
Definition live_capture_sessions (h : Hook) : nat :=
  length (filter (fun r => live_session (world h) r = true) (recorders (world h))).

(** Enable, reset while the microphone request is pending, enable again,
    and then both requests are granted. *)
Definition enable_reset_enable : list Event :=
  [CallEnable (ContextStarts running); Render; CallReset; Render;
   CallEnable (ContextStarts running);
   GetUserMediaSettled true true; GetUserMediaSettled true true].

(** The microphone is granted and the recorder cannot be constructed, then
    [enable()] is retried and succeeds. *)
Definition enable_fails_on_recorder : list Event :=
  [CallEnable (ContextStarts running); GetUserMediaSettled true false].
Definition enable_retried : list Event :=
  enable_fails_on_recorder
  ++ [Render; CallEnable (ContextStarts running); GetUserMediaSettled true true].

(** The state of the recorder the hook holds, if it holds one. *)
Definition stored_recorder_state (h : Hook) : option RecordingState :=
  match recorderRef (refs h) with
  | Some r => Some (from_option mr_state inactive (recorders (world h) !! r))
  | None => None
  end.

(** The machine after recorder [r] has been told to start, respectively
    to stop: only the recorder and the queue of pending events differ. *)
Definition start_requested (r : nat) (h : Hook) : Hook :=
  on_world (fun w =>
    with_pending (pending w ++ [EventStart r])
      (with_recorders (alter (set_mr_state recording) r (recorders w)) w)) h.
Definition stop_requested (r : nat) (h : Hook) : Hook :=
  on_world (fun w =>
    with_pending (pending w ++ [EventDataAvailable r; EventStop r])
      (with_recorders (alter (set_mr_state inactive) r (recorders w)) w)) h.

(** No completion or recorder event is outstanding. *)
Definition settled (h : Hook) : bool :=
  match pending (world h) with [] => true | _ :: _ => false end.

Definition is_enable_task (t : Task) : bool :=
  match t with AwaitResume _ | AwaitGetUserMedia => true | _ => false end.
Definition is_start_task (t : Task) : bool :=
  match t with EventStart _ => true | _ => false end.
Definition is_settling_task (t : Task) : bool :=
  match t with
  | EventStop _ | AwaitArrayBuffer _ | AwaitDecodeAudioData _ => true
  | _ => false
  end.
Definition is_decoding_task (t : Task) : bool :=
  match t with
  | AwaitArrayBuffer _ | AwaitDecodeAudioData _ => true
  | _ => false
  end.

(** Normal use of the controller, as far as recording and phase playback
    are concerned: [startRecording()] is issued only while [hasPhrase] is
    false and no decode of an earlier take is in flight, and a "stop" event
    (other than the one [reset()] told the handler to ignore) is handled
    only once no "start" event is outstanding.  Everything else is free. *)
Definition normal_use (e : Event) (h : Hook) : bool :=
  match e with
  | CallStartRecording =>
      negb (hasPhrase (state h)) && negb (has_task is_decoding_task h)
  | FireStop _ =>
      ignoreNextOnStopRef (refs h) || negb (has_task is_start_task h)
  | _ => true
  end.

Fixpoint run_normal (es : list Event) (h : Hook) : option Hook :=
  match es with
  | [] => Some h
  | e :: es' =>
      if normal_use e h then
        match step e h with
        | Some h' => run_normal es' h'
        | None => None
        end
      else None
  end.

(** What keeps recording and phase playback apart in normal use: playback
    needs a stored phrase; while a recording is on or about to start no
    phrase is stored; while a take is being decoded nothing records or is
    about to. *)
Definition apart_inv (h : Hook) : Prop :=
  (isPhasePlaying (state h) = true -> holds_phrase h = true)
  /\ (hasPhrase (state h) = false -> holds_phrase h = false)
  /\ (isRecording (state h) = true \/ has_task is_start_task h = true ->
      holds_phrase h = false)
  /\ (has_task is_decoding_task h = true ->
      isRecording (state h) = false /\ has_task is_start_task h = false).

(** Unhurried use, which is how the page's buttons use the hook: every
    intent is issued once the previous one has settled, and recording is
    started only while no phrase is held. *)
Definition unhurried (e : Event) (h : Hook) : bool :=
  match e with
  | CallStartRecording => settled h && negb (hasPhrase (state h))
  | CallEnable _ | CallStopRecording | CallStartPhase _ | CallStopPhase
  | CallReset => settled h
  | _ => true
  end.

(** What keeps them apart in unhurried use: in addition, while a recording
    is about to start no earlier take is still being settled. *)
Definition exclusive_inv (h : Hook) : Prop :=
  (isPhasePlaying (state h) = true -> holds_phrase h = true)
  /\ (hasPhrase (state h) = false -> holds_phrase h = false)
  /\ (isRecording (state h) = true \/ has_task is_start_task h = true ->
      holds_phrase h = false)
  /\ (has_task is_start_task h = true -> has_task is_settling_task h = false)
  /\ (has_task is_decoding_task h = true -> isRecording (state h) = false).

(** A computation keeps a property of the machine, however it ends. *)
Definition preserves {A} (P : Hook -> Prop) (m : M A) : Prop :=
  forall h, P h -> P (snd (m h)).

(** ** Further notions: disposal, takes, the graph, the page *)

(** The platform once everything the cells hold has been released: the
    graph torn down, a recording recorder stopped, the stream's tracks
    stopped, the context closed. *)
Definition released_world (h : Hook) : World :=
  let w1 := torn_down_world (refs h) (world h) in
  let w2 :=
    match recording_recorder h with
    | Some r =>
        with_pending (pending w1 ++ [EventDataAvailable r; EventStop r])
          (with_recorders (alter (set_mr_state inactive) r (recorders w1)) w1)
    | None => w1
    end in
  let w3 :=
    match streamRef (refs h) with
    | Some s =>
        with_streams (alter (fun _ => {| ms_tracks_stopped := true |}) s (streams w2)) w2
    | None => w2
    end in
  match audioCtxRef (refs h) with
  | Some c => with_contexts (alter (set_ac_state closed) c (contexts w3)) w3
  | None => w3
  end.

(** The machine the unmount cleanup leaves behind. *)
Definition after_cleanup (h : Hook) : Hook :=
  {| window := window h; options := options h;
     state := with_isPhasePlaying false (state h);
     rendered := rendered h;
     refs := with_audioCtxRef None
               (with_streamRef None
                  (with_gainRef None
                     (with_source2Ref None (with_source1Ref None (refs h)))));
     world := released_world h |}.

(** The recorder hands over chunks of the given sizes, one event each. *)
Fixpoint deliver (sizes : list N) : M unit :=
  match sizes with
  | [] => ret tt
  | size :: rest => ondataavailable size >> deliver rest
  end.

(** How many platform objects of each kind have been constructed. *)
Definition constructed (h : Hook) : list nat :=
  [length (contexts (world h)); length (streams (world h));
   length (recorders (world h)); length (sources (world h));
   length (panners (world h)); length (gains (world h))].

(** The events that construct platform objects. *)
Definition constructs (e : Event) : bool :=
  match e with
  | CallEnable _ | GetUserMediaSettled _ _ | CallStartPhase _ => true
  | _ => false
  end.


(** A playback unit that makes no sound: it feeds nothing, and it has been
    stopped unless it was never started (which is how [startPhase] leaves
    its units behind when the platform rejects an option).  A gain stage
    that feeds nothing, a closed context. *)
Definition silent (n : AudioBufferSourceNode) : Prop :=
  sn_outputs n = [] /\ (sn_started n = None \/ sn_stopped n = true).
Definition started (n : AudioBufferSourceNode) : Prop := sn_started n <> None.
Definition unplugged (n : GainNode) : Prop := gn_outputs n = [].
Definition is_closed (c : AudioContext) : Prop := ac_state c = closed.

(** A unit of the running graph: looping the phrase [b] at [rate], started,
    not stopped, and wired to a pan stage. *)
Definition plays (b : AudioBuffer) (rate : number) (n : AudioBufferSourceNode) : Prop :=
  sn_buffer n = Some b /\ sn_loop n = true /\ sn_playbackRate n = rate
  /\ sn_started n <> None /\ sn_stopped n = false
  /\ exists p, sn_outputs n = [StereoPanner p].

(** The shape of the graph stores: either no graph is held, nothing plays
    and every unit and gain stage ever made is out of use; or the cells
    hold the two units and the gain stage made last, those play, and all
    earlier ones are out of use. *)
Definition graph_inv (h : Hook) : Prop :=
  match source1Ref (refs h), source2Ref (refs h), gainRef (refs h) with
  | None, None, None =>
      isPhasePlaying (state h) = false
      /\ Forall silent (sources (world h))
      /\ Forall unplugged (gains (world h))
  | Some a, Some a', Some g =>
      isPhasePlaying (state h) = true
      /\ exists U G na nb ng b,
           sources (world h) = U ++ [na; nb]
           /\ gains (world h) = G ++ [ng]
           /\ a = length U /\ a' = S (length U) /\ g = length G
           /\ Forall silent U /\ Forall unplugged G
           /\ plays b (basePlaybackRate (options h)) na
           /\ plays b (fastPlaybackRate (options h)) nb
           /\ gn_gain ng = gain (options h)
           /\ gn_outputs ng = [Destination (gn_context ng)]
  | _, _, _ => False
  end.

(** The shape of the context store: the context in the cell is the one
    made last; every other one is closed. *)
Definition context_inv (h : Hook) : Prop :=
  match audioCtxRef (refs h) with
  | None => Forall is_closed (contexts (world h))
  | Some c =>
      exists C x,
        contexts (world h) = C ++ [x] /\ c = length C /\ Forall is_closed C
  end.

(** With an empty status, the snapshot is that of a hook that is not
    enabled and holds nothing. *)
Definition plain (s : PhaseLooperState) : Prop :=
  status s = "" ->
  isEnabled s = false /\ isRecording s = false /\ hasPhrase s = false
  /\ isPhasePlaying s = false.

(** The shape of the capture session: [isEnabled] tells whether a recorder
    is stored; a stored recorder is the one made last, comes with a stored
    stream, and records from a stream whose tracks are live; a stored
    stream is the one acquired last, its tracks live. *)
Definition capture_inv (h : Hook) : Prop :=
  isEnabled (state h)
  = match recorderRef (refs h) with Some _ => true | None => false end
  /\ match recorderRef (refs h) with
     | Some r =>
         streamRef (refs h) <> None
         /\ exists R m,
              recorders (world h) = R ++ [m] /\ r = length R
              /\ streams (world h) !! mr_stream m
                 = Some {| ms_tracks_stopped := false |}
     | None => True
     end
  /\ match streamRef (refs h) with
     | Some s =>
         exists Ss, streams (world h) = Ss ++ [{| ms_tracks_stopped := false |}]
                    /\ s = length Ss
     | None => True
     end.

(** No recorder is paused. *)
Definition never_paused (h : Hook) : Prop :=
  Forall (fun r => mr_state r <> paused) (recorders (world h)).

(** *** The page ([App.jsx]) *)

(** What the primary button can show. *)
Inductive Icon := EnableText | HollowCircle | RedCircle | Triangle | Square.

(** The condition under which the page renders each of them. *)
Definition shown (s : PhaseLooperState) (i : Icon) : bool :=
  match i with
  | EnableText => negb (isEnabled s)
  | HollowCircle => isEnabled s && negb (isRecording s) && negb (hasPhrase s)
  | RedCircle => isRecording s
  | Triangle => negb (isRecording s) && hasPhrase s && negb (isPhasePlaying s)
  | Square => isPhasePlaying s
  end.

(** [const disabled = !isSupported || isEnabling] *)
Definition disabled (s : PhaseLooperState) : bool :=
  negb (isSupported s) || isEnabling s.

(** The icon that stands for the operation a click performs (the tests of
    [handlePrimaryClick], in their order), and the call each icon stands
    for. *)
Definition clicked (s : PhaseLooperState) : Icon :=
  if negb (isEnabled s) then EnableText
  else if negb (isRecording s) && negb (hasPhrase s) then HollowCircle
  else if isRecording s then RedCircle
  else if negb (isPhasePlaying s) then Triangle
  else Square.

Definition icon_event (nc : NewContext) (now : Time) (i : Icon) : Event :=
  match i with
  | EnableText => CallEnable nc
  | HollowCircle => CallStartRecording
  | RedCircle => CallStopRecording
  | Triangle => CallStartPhase now
  | Square => CallStopPhase
  end.

(** [handlePrimaryClick], with the flags and callbacks of the render the
    handler belongs to. *)
Definition handlePrimaryClick (nc : NewContext) (now : Time) : M unit :=
  let* s := get rendered in
  if negb (isEnabled s) then enable nc
  else if negb (isRecording s) && negb (hasPhrase s) then startRecording
  else if isRecording s then stopRecording
  else if negb (isPhasePlaying s) then startPhase now
  else stopPhase.

(** The text of the status block: [status || (isRecording ? ... )]. *)
Definition statusText (s : PhaseLooperState) : string :=
  match status s with
  | EmptyString =>
      if isRecording s then "STATE: RECORDING"
      else if isPhasePlaying s then "STATE: PLAYING (OUT OF PHASE)"
      else if hasPhrase s then "STATE: PHRASE CAPTURED"
      else "STATE: IDLE / WAITING"
  | _ => status s
  end.

(** What can happen to the page: a click on the primary button (which does
    nothing while the button is disabled), a click on RESET, or anything
    that is not a call from the page. *)
Inductive PageEvent :=
| ClickPrimary (nc : NewContext) (now : Time)
| ClickReset
| Behind (e : Event).

Definition page_step (p : PageEvent) (h : Hook) : option Hook :=
  match p with
  | ClickPrimary nc now =>
      if disabled (rendered h) then Some h
      else Some (exec (handlePrimaryClick nc now) h)
  | ClickReset => Some (exec reset h)
  | Behind e => if is_intent e then None else step e h
  end.

(** The flags the page looks at are those of the current state. *)
Definition up_to_date (h : Hook) : bool :=
  Bool.eqb (isEnabled (rendered h)) (isEnabled (state h))
  && Bool.eqb (isRecording (rendered h)) (isRecording (state h))
  && Bool.eqb (hasPhrase (rendered h)) (hasPhrase (state h))
  && Bool.eqb (isPhasePlaying (rendered h)) (isPhasePlaying (state h)).

(** A user who clicks only when the page has caught up: nothing pending and
    the last render up to date. *)
Definition patient (p : PageEvent) (h : Hook) : bool :=
  match p with
  | ClickPrimary _ _ | ClickReset => settled h && up_to_date h
  | Behind _ => true
  end.

Fixpoint run_page (ps : list PageEvent) (h : Hook) : option Hook :=
  match ps with
  | [] => Some h
  | p :: ps' =>
      if patient p h then
        match page_step p h with
        | Some h' => run_page ps' h'
        | None => None
        end
      else None
  end.

(** The number of "stop" events outstanding. *)
Definition is_stop_task (t : Task) : bool :=
  match t with EventStop _ => true | _ => false end.
Definition stops (h : Hook) : nat :=
  length (List.filter is_stop_task (pending (world h))).

(** What keeps the page to one icon when the user is patient: while the
    hook is not enabled nothing records, no phrase is held and no recorder
    or decode callback is outstanding, except the "stop" event of a
    recorder that [reset] stopped, which the raised flag makes the handler
    ignore; at most one "stop" event is outstanding. *)
Definition one_icon_inv (h : Hook) : Prop :=
  (isEnabled (state h) = false ->
   isRecording (state h) = false /\ hasPhrase (state h) = false
   /\ has_task is_start_task h = false /\ has_task is_decoding_task h = false
   /\ (ignoreNextOnStopRef (refs h) = false -> stops h = 0))
  /\ (ignoreNextOnStopRef (refs h) = true ->
      isEnabled (state h) = false /\ has_task is_enable_task h = false
      /\ stops h = 1)
  /\ stops h <= 1.





(** A snapshot for which the page shows exactly one icon. *)
Definition coherent (s : PhaseLooperState) : Prop :=
  (isRecording s = true -> isEnabled s = true)
  /\ (hasPhrase s = true -> isEnabled s = true)
  /\ (isPhasePlaying s = true -> hasPhrase s = true)
  /\ (isRecording s = true -> isPhasePlaying s = false).

(** Sample runs: the hook enabled; a take being recorded; a session on
    the page from Enable through a take and the phase loop to RESET (a
    click that does not call [enable] constructs no context). *)
Definition enabled_run : list Event :=
  [CallEnable (ContextStarts running); GetUserMediaSettled true true].
Definition recording_run : list Event :=
  enabled_run ++ [CallStartRecording; FireStart 0].

Definition page_session : list PageEvent :=
  [ClickPrimary (ContextStarts running) (at_ms 0);
   Behind (GetUserMediaSettled true true); Behind Render;
   ClickPrimary ContextThrows (at_ms 0); Behind (FireStart 0); Behind Render;
   ClickPrimary ContextThrows (at_ms 0);
   Behind (FireDataAvailable 0 4096); Behind (FireStop 0);
   Behind (ArrayBufferSettled [4096%N] true);
   Behind (DecodeSettled 0 (Some phrase0)); Behind Render;
   ClickPrimary ContextThrows (at_ms 2500); Behind Render;
   ClickPrimary ContextThrows (at_ms 3500); Behind Render;
   ClickReset; Behind Render].

(** The machine a page session leaves on the full platform. *)
Definition after_page (ps : list PageEvent) : Hook :=
  default (usePhaseLooper fullWindow noOptions)
    (run_page ps (usePhaseLooper fullWindow noOptions)).

(** ** Proof tools *)

Ltac head t := lazymatch t with ?f _ => head f | _ => t end.

(** Case analysis on an innermost scrutinee of the goal. *)
Ltac case_inner :=
  match goal with
  | |- context [match ?x with _ => _ end] =>
      lazymatch x with
      | context [match _ with _ => _ end] => fail
      | _ => destruct x eqn:?
      end
  end.

(** Unfolds the monad and the platform calls, leaving list operations. *)
Ltac js :=
  cbv [exec bind ret throw try_catch get modify when_some setState setStatus
       enqueue audioCtxRef_current streamRef_current recorderRef_current
       chunksRef_current phraseBufferRef_current source1Ref_current
       source2Ref_current gainRef_current ignoreNextOnStopRef_current
       new_AudioContext AudioContext_state AudioContext_close
       AudioContext_currentTime new_MediaStream MediaStream_stopTracks
       new_MediaRecorder MediaRecorder_state stream_ended MediaRecorder_start
       MediaRecorder_stop createBufferSource createGain new_StereoPannerNode
       on_source on_panner on_gain set_buffer set_loop set_playbackRate
       set_gain_value source_connect node_connect source_start source_stop
       source_disconnect gain_disconnect
       on_state on_refs on_world
       with_isEnabling with_isEnabled with_isRecording with_hasPhrase
       with_isPhasePlaying with_status
       with_contexts with_streams with_recorders with_sources with_panners
       with_gains with_pending
       with_audioCtxRef with_streamRef with_recorderRef with_chunksRef
       with_phraseBufferRef with_source1Ref with_source2Ref with_gainRef
       with_ignoreNextOnStopRef
       rerendered window options state rendered refs world
       isSupported isEnabling isEnabled isRecording hasPhrase isPhasePlaying
       status
       contexts streams recorders sources panners gains pending
       audioCtxRef streamRef recorderRef chunksRef phraseBufferRef source1Ref
       source2Ref gainRef ignoreNextOnStopRef
       fst snd].

(** Case analysis all the way down a computed machine. *)
Ltac crunch :=
  repeat first
    [ progress cbn in *
    | case_decide
    | case_inner ].

(** Unfolds the callbacks that have no equation of their own. *)
Ltac unfold_callbacks :=
  unfold enable, startRecording, stopRecording, enable_resumed,
    enable_gotUserMedia, onstart, ondataavailable, onstop, onstop_arrayBuffer,
    onstop_decoded, enable_catch, onstop_catch.

(** Closes a goal about flags and counts, by cases on the flags. *)
Ltac nsolve :=
  solve [intuition (congruence || lia)]
  || (match goal with b : bool |- _ => destruct b end; nsolve).

(** The same, once the tests on the queue of pending tasks and the counts
    of tasks are made into flags and numbers. *)
Ltac counts :=
  repeat match goal with
         | H : context [existsb ?p ?l] |- _ =>
             let b := fresh "b" in
             remember (existsb p l) as b eqn:?E; clear E
         | |- context [existsb ?p ?l] =>
             let b := fresh "b" in
             remember (existsb p l) as b eqn:?E; clear E
         | H : context [length (List.filter ?p ?l)] |- _ =>
             let n := fresh "n" in
             remember (length (List.filter p l)) as n eqn:?E; clear E
         | |- context [length (List.filter ?p ?l)] =>
             let n := fresh "n" in
             remember (length (List.filter p l)) as n eqn:?E; clear E
         end;
  repeat match goal with
         | x : option _ |- _ => clear x
         | x : list _ |- _ => clear x
         end;
  cbn in *; repeat split; intros; nsolve.


(** ** Rules for [preserves] *)

Section Preserves.
Context (P : Hook -> Prop).

Lemma preserves_ret {A} (a : A) : preserves P (ret a).
Proof. intros h H; exact H. Qed.

Lemma preserves_throw {A} (e : DOMException) : preserves P (@throw A e).
Proof. intros h H; exact H. Qed.

Lemma preserves_get {A} (p : Hook -> A) : preserves P (get p).
Proof. intros h H; exact H. Qed.

Lemma preserves_modify (f : Hook -> Hook) :
  (forall h, P h -> P (f h)) -> preserves P (modify f).
Proof. intros Hf h H; apply Hf, H. Qed.

Lemma preserves_bind {A B} (m : M A) (k : A -> M B) :
  preserves P m -> (forall a, preserves P (k a)) -> preserves P (bind m k).
Proof.
  intros Hm Hk h H. unfold bind. specialize (Hm h H).
  destruct (m h) as [[a|e] h']; cbn in *; [apply Hk, Hm | exact Hm].
Qed.

Lemma preserves_try_catch {A} (m handler : M A) :
  preserves P m -> preserves P handler -> preserves P (try_catch m handler).
Proof.
  intros Hm Hh h H. unfold try_catch. specialize (Hm h H).
  destruct (m h) as [[a|e] h']; cbn in *; [exact Hm | apply Hh, Hm].
Qed.

Lemma preserves_exec {A} (m : M A) (h : Hook) :
  preserves P m -> P h -> P (exec m h).
Proof. intros Hm H; apply Hm, H. Qed.
End Preserves.

(** Walks through a callback; [leaf] has to show that each single update
    keeps the property. *)
Ltac preserves_with leaf :=
  repeat
    lazymatch goal with
    | |- preserves _ (bind _ _) => apply preserves_bind; [| intros ?]
    | |- preserves _ (try_catch _ _) => apply preserves_try_catch
    | |- preserves _ (ret _) => apply preserves_ret
    | |- preserves _ (throw _) => apply preserves_throw
    | |- preserves _ (get _) => apply preserves_get
    | |- preserves _ (modify _) => apply preserves_modify; leaf
    | |- preserves _ (match ?x with _ => _ end) => destruct x
    | |- preserves _ ?m => let f := head m in unfold f
    end.

(** ** Monad laws, pointwise *)

Lemma bind_assoc {A B C} (m : M A) (f : A -> M B) (k : B -> M C) (h : Hook) :
  bind (bind m f) k h = bind m (fun a => bind (f a) k) h.
Proof. unfold bind. destruct (m h) as [[a|e] h']; reflexivity. Qed.

Lemma bind_ret {A B} (a : A) (k : A -> M B) (h : Hook) :
  bind (ret a) k h = k a h.
Proof. reflexivity. Qed.

Lemma bind_get {A B} (p : Hook -> A) (k : A -> M B) (h : Hook) :
  bind (get p) k h = k (p h) h.
Proof. reflexivity. Qed.

Lemma bind_modify {B} (f : Hook -> Hook) (k : unit -> M B) (h : Hook) :
  bind (modify f) k h = k tt (f h).
Proof. reflexivity. Qed.

Lemma bind_throw {A B} (e : DOMException) (k : A -> M B) (h : Hook) :
  bind (throw e) k h = (Throws e, h).
Proof. reflexivity. Qed.

(** ** stopPhase *)

Lemma teardown_unit (s : nat) (k : M unit) (h : Hook) :
  (try_catch (source_stop s) (ret tt) >> source_disconnect s >> k) h
  = k (on_world (fun w => with_sources (alter torn_down_source s (sources w)) w) h).
Proof.
  destruct h as [w o st rd rf [cs ss rs so ps gs pd]]. js.
  destruct (so !! s) as [n|] eqn:E; [destruct (sn_started n) eqn:E'|];
    do 3 f_equal.
  - rewrite list_alter_alter_eq. apply list_alter_ext; [|reflexivity].
    intros x Hx. assert (x = n) as -> by congruence.
    unfold torn_down_source, compose. cbn. now rewrite E'.
  - apply list_alter_ext; [|reflexivity].
    intros x Hx. assert (x = n) as -> by congruence.
    unfold torn_down_source. now rewrite E'.
  - apply list_alter_ext; [|reflexivity]. intros x Hx. congruence.
Qed.

Lemma teardown_unit_then {B} (s : nat) (k : M unit) (K : unit -> M B) (h : Hook) :
  bind (try_catch (source_stop s) (ret tt) >> source_disconnect s >> k) K h
  = bind k K
      (on_world (fun w => with_sources (alter torn_down_source s (sources w)) w) h).
Proof. unfold bind at 1. rewrite teardown_unit. reflexivity. Qed.

Lemma teardown_gain (g : nat) (k : M unit) (h : Hook) :
  (gain_disconnect g >> k) h
  = k (on_world (fun w => with_gains (alter torn_down_gain g (gains w)) w) h).
Proof. reflexivity. Qed.

Lemma stopPhase_spec (h : Hook) : stopPhase h = (Returns tt, torn_down h).
Proof.
  unfold stopPhase, source1Ref_current, source2Ref_current, gainRef_current.
  rewrite !bind_get.
  destruct h as [w o st rd [a s r c p s1 s2 g i] [cs ss rs so ps gs pd]].
  cbn [refs source1Ref source2Ref gainRef].
  destruct s1 as [s1|], s2 as [s2|], g as [g|]; cbn [when_some];
    rewrite ?teardown_unit_then, ?bind_modify, ?bind_ret;
    rewrite ?teardown_unit_then, ?bind_modify, ?bind_ret;
    rewrite ?bind_assoc; cbn beta; rewrite ?teardown_gain, ?bind_modify, ?bind_ret;
    reflexivity.
Qed.

Lemma startPhase_noop (now : Time) (h : Hook) :
  audioCtxRef (refs h) = None \/ phraseBufferRef (refs h) = None ->
  startPhase now h = (Returns tt, h).
Proof.
  intros H. unfold startPhase, audioCtxRef_current, phraseBufferRef_current.
  rewrite !bind_get.
  destruct H as [-> | ->]; [|destruct (audioCtxRef (refs h))]; reflexivity.
Qed.

Lemma alter_app_len {A} (f : A -> A) (l1 l2 : list A) :
  alter f (length l1) (l1 ++ l2) = l1 ++ alter f 0 l2.
Proof.
  replace (length l1) with (length l1 + 0) at 1 by lia. apply alter_app_r.
Qed.

Lemma lookup_app_len {A} (l1 l2 : list A) (i : nat) :
  (l1 ++ l2) !! (length l1 + i) = l2 !! i.
Proof.
  rewrite lookup_app_r by lia. f_equal. lia.
Qed.

Lemma lookup_app_len0 {A} (l1 l2 : list A) :
  (l1 ++ l2) !! length l1 = l2 !! 0.
Proof.
  replace (length l1) with (length l1 + 0) at 1 by lia. apply lookup_app_len.
Qed.

Lemma add_output_nil (t : AudioNodeRef) : add_output t [] = [t].
Proof.
  unfold add_output. destruct (decide (t ∈ [])) as [H|H]; [|reflexivity].
  now apply elem_of_nil in H.
Qed.

Lemma add_output_same (t : AudioNodeRef) : add_output t [t] = [t].
Proof.
  unfold add_output. destruct (decide (t ∈ [t])) as [H|H]; [reflexivity|].
  exfalso. apply H. now left.
Qed.

#[local] Arguments add_output : simpl never.
#[local] Arguments finite_float32 : simpl never.
#[local] Arguments is_finite : simpl never.
#[local] Arguments is_negative : simpl never.
#[local] Arguments seconds : simpl never.

Lemma seconds_finite (now : Time) : is_finite (seconds now) = true.
Proof. reflexivity. Qed.

Lemma seconds_not_negative (now : Time) : is_negative (seconds now) = false.
Proof.
  unfold is_negative, seconds, Qle_bool. cbn [Qnum Qden].
  apply negb_false_iff, Z.leb_le. lia.
Qed.

(** The defaults and the options the page passes are accepted. *)
Lemma page_options_finite :
  options_finite noOptions = true /\ options_finite pageOptions = true.
Proof. split; vm_compute; reflexivity. Qed.

Lemma options_finite_true (o : UsePhaseLooperOptions) :
  options_finite o = true ->
  finite_float32 (basePlaybackRate o) = true
  /\ finite_float32 (fastPlaybackRate o) = true
  /\ finite_float32 (panLeft o) = true
  /\ finite_float32 (panRight o) = true
  /\ finite_float32 (gain o) = true.
Proof.
  unfold options_finite. rewrite !andb_true_iff. tauto.
Qed.

Lemma startPhase_spec (now : Time) (ctx : nat) (b : AudioBuffer) (h : Hook) :
  audioCtxRef (refs h) = Some ctx -> phraseBufferRef (refs h) = Some b ->
  options_finite (options h) = true ->
  startPhase now h = (Returns tt, phase_started now ctx b (torn_down h)).
Proof.
  intros Hctx Hbuf Hfin.
  unfold startPhase, audioCtxRef_current, phraseBufferRef_current.
  rewrite !bind_get, Hctx, Hbuf. unfold bind at 1. rewrite stopPhase_spec.
  change (options h) with (options (torn_down h)) in Hfin.
  revert Hfin. generalize (torn_down h). clear. intros h0 Hfin.
  destruct h0 as [w o st rd rf [cs ss rs so ps gs pd]].
  apply options_finite_true in Hfin. cbn [options] in Hfin.
  destruct Hfin as (H1 & H2 & H3 & H4 & H5).
  js. rewrite H1, H2, H3, H4, H5, seconds_finite, seconds_not_negative.
  rewrite <- !app_assoc. cbn [app].
  rewrite !length_app. cbn [length].
  repeat (progress (rewrite ?alter_app_r, ?alter_app_len, ?lookup_app_len,
                      ?lookup_app_len0, ?add_output_nil, ?add_output_same,
                      ?seconds_finite, ?seconds_not_negative;
                    cbn)).
  unfold phase_started, unitA, unitB, panStage, gainStage. js. cbn.
  rewrite !Nat.add_1_r. reflexivity.
Qed.

Lemma startPhase_throws (now : Time) (ctx : nat) (b : AudioBuffer) (h : Hook) :
  audioCtxRef (refs h) = Some ctx -> phraseBufferRef (refs h) = Some b ->
  options_finite (options h) = false ->
  startPhase now h = (Throws TypeError, phase_aborted ctx b (torn_down h)).
Proof.
  intros Hctx Hbuf Hfin.
  unfold startPhase, audioCtxRef_current, phraseBufferRef_current.
  rewrite !bind_get, Hctx, Hbuf. unfold bind at 1. rewrite stopPhase_spec.
  change (options h) with (options (torn_down h)) in Hfin.
  revert Hfin. generalize (torn_down h). clear. intros h0 Hfin.
  destruct h0 as [w o st rd rf [cs ss rs so ps gs pd]].
  unfold options_finite in Hfin. cbn [options] in Hfin.
  unfold phase_aborted, idle_unit, idle_pan, idle_gain.
  js.
  destruct (finite_float32 (basePlaybackRate o)) eqn:H1;
    [destruct (finite_float32 (fastPlaybackRate o)) eqn:H2;
     [destruct (finite_float32 (panLeft o)) eqn:H3;
      [destruct (finite_float32 (panRight o)) eqn:H4;
       [destruct (finite_float32 (gain o)) eqn:H5; [discriminate|]|]|]|]|];
    cbn [andb];
    rewrite <- ?app_assoc; cbn [app];
    rewrite ?length_app; cbn [length];
    repeat (progress (rewrite ?alter_app_r, ?alter_app_len, ?lookup_app_len,
                        ?lookup_app_len0; cbn));
    rewrite ?app_nil_r; reflexivity.
Qed.

(** The three ways [startPhase] can go. *)
Lemma startPhase_cases (now : Time) (h : Hook) :
  startPhase now h = (Returns tt, h)
  \/ (exists ctx b,
        audioCtxRef (refs h) = Some ctx /\ phraseBufferRef (refs h) = Some b
        /\ options_finite (options h) = true
        /\ startPhase now h = (Returns tt, phase_started now ctx b (torn_down h)))
  \/ (exists ctx b,
        audioCtxRef (refs h) = Some ctx /\ phraseBufferRef (refs h) = Some b
        /\ options_finite (options h) = false
        /\ startPhase now h = (Throws TypeError, phase_aborted ctx b (torn_down h))).
Proof.
  destruct (audioCtxRef (refs h)) as [ctx|] eqn:Hc;
    [destruct (phraseBufferRef (refs h)) as [b|] eqn:Hb|].
  - destruct (options_finite (options h)) eqn:Hf.
    + right; left. exists ctx, b.
      now rewrite (startPhase_spec now ctx b h Hc Hb Hf).
    + right; right. exists ctx, b.
      now rewrite (startPhase_throws now ctx b h Hc Hb Hf).
  - left. apply startPhase_noop. now right.
  - left. apply startPhase_noop. now left.
Qed.

Lemma torn_down_idem (h : Hook) : torn_down (torn_down h) = torn_down h.
Proof. reflexivity. Qed.

(** ** Recording intents *)

Lemma startRecording_spec (h : Hook) :
  startRecording h = (Returns tt, h)
  \/ (exists r e, recorderRef (refs h) = Some r
        /\ startRecording h = (Throws e, h))
  \/ (exists r, recorderRef (refs h) = Some r
        /\ startRecording h =
            (Returns tt,
             on_world (fun w =>
               with_pending (pending w ++ [EventStart r])
                 (with_recorders (alter (set_mr_state recording) r (recorders w)) w))
               h)).
Proof.
  destruct h as [w o st rd [a s r c p s1 s2 g i] [cs ss rs so ps gs pd]].
  unfold startRecording. js. destruct r as [r|]; [|now left].
  destruct (rs !! r) as [[sm [| |]]|] eqn:E; cbn; case_decide; try congruence;
    rewrite ?E; cbn; rewrite ?E; cbn.
  - destruct (ss !! sm) as [[[|]]|]; cbn.
    + right; left. exists r, NotSupportedError. split; reflexivity.
    + right; right. exists r. split; reflexivity.
    + right; right. exists r. split; reflexivity.
  - now left.
  - right; left. exists r, InvalidStateError. split; reflexivity.
  - right; right. exists r. split; reflexivity.
Qed.

Lemma stopRecording_spec (h : Hook) :
  stopRecording h = (Returns tt, h)
  \/ (exists r, recorderRef (refs h) = Some r
        /\ stopRecording h =
            (Returns tt,
             on_world (fun w =>
               with_pending (pending w ++ [EventDataAvailable r; EventStop r])
                 (with_recorders (alter (set_mr_state inactive) r (recorders w)) w))
               h)).
Proof.
  destruct h as [w o st rd [a s r c p s1 s2 g i] [cs ss rs so ps gs pd]].
  unfold stopRecording. js. destruct r as [r|]; [|now left].
  destruct (rs !! r) as [[sm [| |]]|] eqn:E; cbn; case_decide; try congruence;
    rewrite ?E; cbn; try now left.
  right. exists r. split; [reflexivity|]. now rewrite <- app_assoc.
Qed.

Lemma startRecording_by_state (h : Hook) :
  startRecording h =
  match recorderRef (refs h), stored_recorder_state h with
  | Some r, Some inactive =>
      if stream_ended r h then (Throws NotSupportedError, h)
      else (Returns tt, start_requested r h)
  | _, Some paused => (Throws InvalidStateError, h)
  | _, _ => (Returns tt, h)
  end.
Proof.
  destruct h as [hw ho st rd [ha hs hr hc hp0 hs1 hs2 hg hi] [cs ss rs so ps gs pd]].
  unfold startRecording, stored_recorder_state, start_requested. js.
  destruct hr as [r|]; [|reflexivity].
  destruct (rs !! r) as [[sm [| |]]|] eqn:E; cbn; case_decide; try congruence;
    rewrite ?E; cbn; rewrite ?E; cbn; try reflexivity.
  destruct (ss !! sm) as [[[|]]|]; reflexivity.
Qed.


(** ** reset *)

Lemma try_catch_returns {A} (m handler : M A) (a : A) (h h' : Hook) :
  m h = (Returns a, h') -> try_catch m handler h = (Returns a, h').
Proof. unfold try_catch. now intros ->. Qed.

Lemma reset_spec (h : Hook) : reset h = (Returns tt, after_reset h).
Proof.
  unfold reset. unfold bind at 1.
  rewrite (try_catch_returns _ _ _ _ _ (stopPhase_spec h)).
  destruct h as [w o st rd [a s r c p s1 s2 g i] [cs ss rs so ps gs pd]].
  unfold after_reset, recording_recorder, torn_down, torn_down_world, initialRefs.
  js.
  destruct r as [r|]; cbn.
  - destruct (rs !! r) as [[sm [| |]]|] eqn:E; cbn; case_decide; try congruence;
      rewrite ?E; cbn; destruct s, a; cbn; rewrite <- ?app_assoc; reflexivity.
  - destruct s, a; reflexivity.
Qed.

(** ** What no callback touches *)

Ltac frame_leaf := intros [? ? ? ? [] []] ?; cbn in *; intuition congruence.

Lemma callback_keeps_platform (w : Window) (o : UsePhaseLooperOptions) (e : Event) :
  preserves (fun h => window h = w /\ options h = o) (callback e).
Proof.
  destruct e; cbn [callback]; preserves_with frame_leaf.
Qed.

(** ** Steps and runs *)

Lemma step_cases (e : Event) (h h' : Hook) :
  step e h = Some h' ->
  (awaited e = None /\ h' = exec (callback e) h)
  \/ (exists t rest, awaited e = Some t
        /\ take t (pending (world h)) = Some rest
        /\ h' = exec (callback e) (on_world (with_pending rest) h)).
Proof.
  unfold step, settle. destruct (awaited e) as [t|].
  - destruct (take t (pending (world h))) as [rest|] eqn:E; [|discriminate].
    intros [= <-]. right. now exists t, rest.
  - intros [= <-]. now left.
Qed.

Lemma step_preserves (P : Hook -> Prop) :
  (forall h rest, P h -> P (on_world (with_pending rest) h)) ->
  (forall e, preserves P (callback e)) ->
  forall e h h', P h -> step e h = Some h' -> P h'.
Proof.
  intros Hp Hc e h h' H Hs.
  destruct (step_cases _ _ _ Hs) as [[_ ->] | (t & rest & _ & _ & ->)];
    apply preserves_exec; auto.
Qed.

Lemma run_invariant (P : Hook -> Prop) :
  (forall e h h', P h -> step e h = Some h' -> P h') ->
  forall es h h', P h -> run es h = Some h' -> P h'.
Proof.
  intros Hstep es. induction es as [|e es IH]; intros h h' H; cbn.
  - now intros [= <-].
  - destruct (step e h) as [h1|] eqn:E; [|discriminate].
    apply IH. eapply Hstep; eauto.
Qed.

Lemma run_normal_invariant (P : Hook -> Prop) :
  (forall e h h', P h -> normal_use e h = true -> step e h = Some h' -> P h') ->
  forall es h h', P h -> run_normal es h = Some h' -> P h'.
Proof.
  intros Hstep es. induction es as [|e es IH]; intros h h' H; cbn.
  - now intros [= <-].
  - destruct (normal_use e h) eqn:N; [|discriminate].
    destruct (step e h) as [h1|] eqn:E; [|discriminate].
    apply IH. eapply Hstep; eauto.
Qed.

Lemma run_app (es1 es2 : list Event) (h : Hook) :
  run (es1 ++ es2) h =
  match run es1 h with Some h1 => run es2 h1 | None => None end.
Proof.
  revert h. induction es1 as [|e es1 IH]; intros h; cbn; [reflexivity|].
  destruct (step e h); [apply IH | reflexivity].
Qed.

Lemma reachable_step (w : Window) (o : UsePhaseLooperOptions) (e : Event) (h h' : Hook) :
  reachable w o h -> step e h = Some h' -> reachable w o h'.
Proof.
  intros [es Hes] Hs. exists (es ++ [e]). rewrite run_app, Hes. cbn. now rewrite Hs.
Qed.

Lemma reachable_platform (w : Window) (o : UsePhaseLooperOptions) (h : Hook) :
  reachable w o h -> window h = w /\ options h = o.
Proof.
  intros [es Hes]. revert Hes.
  apply (run_invariant (fun h => window h = w /\ options h = o)); [|now split].
  apply step_preserves.
  - now intros [? ? ? ? ? ?] rest.
  - apply callback_keeps_platform.
Qed.

(** The capability flag only ever holds what the probe says. *)
Lemma callback_keeps_isSupported (w : Window) (e : Event) :
  preserves (fun h => window h = w
                      /\ isSupported (state h) = isSupported (getInitialState w)
                      /\ isSupported (rendered h) = isSupported (getInitialState w))
    (callback e).
Proof.
  destruct e; cbn [callback];
    lazymatch goal with
    | |- preserves _ reset =>
        intros h (Hw & Hs & Hr); rewrite reset_spec; cbn; now rewrite Hw
    | _ => preserves_with ltac:(intros [? ? [] [] [] []] ?; cbn in *; intuition congruence)
    end.
Qed.

Lemma reachable_isSupported (w : Window) (o : UsePhaseLooperOptions) (h : Hook) :
  reachable w o h ->
  isSupported (state h) = isSupported (getInitialState w)
  /\ isSupported (rendered h) = isSupported (getInitialState w).
Proof.
  intros [es Hes].
  enough (window h = w
          /\ isSupported (state h) = isSupported (getInitialState w)
          /\ isSupported (rendered h) = isSupported (getInitialState w))
    by tauto.
  revert Hes.
  apply (run_invariant (fun h => window h = w
           /\ isSupported (state h) = isSupported (getInitialState w)
           /\ isSupported (rendered h) = isSupported (getInitialState w)));
    [|now repeat split].
  apply step_preserves.
  - now intros [? ? ? ? ? ?] rest.
  - apply callback_keeps_isSupported.
Qed.

(** ** reset restores the initial snapshot *)

(** C1. In every reachable state, [reset()] returns and leaves the state,
    which is the snapshot the next render hands out, equal to the one
    computed at construction: [isSupported] recomputed by the same
    capability check, all other flags false and the status empty. *)
Theorem reset_restores_initial_snapshot
    (w : Window) (o : UsePhaseLooperOptions) (h : Hook) :
  reachable w o h ->
  exists h', reset h = (Returns tt, h')
    /\ state h' = state (usePhaseLooper w o)
    /\ rendered (rerendered h') = rendered (usePhaseLooper w o)
    /\ isSupported (state h') =
         window_defined w && window_AudioContext w && navigator_defined w
         && navigator_getUserMedia w && window_MediaRecorder w
    /\ isEnabling (state h') = false /\ isEnabled (state h') = false
    /\ isRecording (state h') = false /\ hasPhrase (state h') = false
    /\ isPhasePlaying (state h') = false /\ status (state h') = "".
Proof.
  intros Hr. destruct (reachable_platform _ _ _ Hr) as [Hw _].
  exists (after_reset h). split; [apply reset_spec|].
  cbn. rewrite Hw. repeat split; reflexivity.
Qed.

Lemma reset_restores_initial_snapshot_witness :
  exists h', reset (exec (startPhase (at_ms 0)) (after capture_phrase))
             = (Returns tt, h')
    /\ state h' = state (usePhaseLooper fullWindow noOptions).
Proof.
  destruct (reset_restores_initial_snapshot fullWindow noOptions
              (exec (startPhase (at_ms 0)) (after capture_phrase)))
    as (h' & H1 & H2 & _).
  - exists (capture_phrase ++ [CallStartPhase (at_ms 0)]). vm_compute. reflexivity.
  - exists h'. split; assumption.
Defined.

(** ** Without platform support *)

Lemma idle_unsupported_step (w : Window) (e : Event) (h h' : Hook) :
  isSupported (getInitialState w) = false ->
  window h = w /\ idle_unsupported h ->
  step e h = Some h' ->
  window h' = w /\ idle_unsupported h'.
Proof.
  intros Hw [<- (Hr & Hwd & Hs & Hg & He & Hs' & Hg' & He')] Hstep.
  destruct h as [w o [sup eng en rec hp pl stt] [sup' eng' en' rec' hp' pl' stt']
                 rf wd].
  cbn in *. subst.
  destruct e; cbn in Hstep; try discriminate;
    injection Hstep as <-; unfold idle_unsupported;
    cbn; tauto.
Qed.

Lemma reachable_idle_unsupported (w : Window) (o : UsePhaseLooperOptions) (h : Hook) :
  isSupported (getInitialState w) = false ->
  reachable w o h -> idle_unsupported h.
Proof.
  intros Hw [es Hrun].
  enough (window h = w /\ idle_unsupported h) by tauto.
  revert Hrun.
  apply (run_invariant (fun h => window h = w /\ idle_unsupported h)).
  - intros e h1 h2. now apply idle_unsupported_step.
  - unfold idle_unsupported. cbn in *. tauto.
Qed.

(** C2. On a platform that fails the capability check, whatever intents
    are issued (and no completion can ever arrive), [isEnabled] stays false
    and no audio context, stream, recorder, playback unit, pan stage or
    gain node is ever constructed; every cell stays empty. *)
Theorem unsupported_never_enables
    (w : Window) (o : UsePhaseLooperOptions) (es : list Event) (h : Hook) :
  isSupported (state (usePhaseLooper w o)) = false ->
  run es (usePhaseLooper w o) = Some h ->
  isSupported (state h) = false /\ isEnabled (state h) = false
  /\ isEnabled (rendered h) = false
  /\ contexts (world h) = [] /\ streams (world h) = []
  /\ recorders (world h) = [] /\ sources (world h) = []
  /\ panners (world h) = [] /\ gains (world h) = []
  /\ pending (world h) = []
  /\ refs h = initialRefs.
Proof.
  intros Hw Hrun.
  destruct (reachable_idle_unsupported w o h Hw)
    as (Hr & Hwd & Hs & _ & He & _ & _ & He').
  { now exists es. }
  rewrite Hwd. cbn. tauto.
Qed.

Lemma unsupported_never_enables_witness :
  isEnabled (state (on_state
     (with_status "Web Audio or MediaRecorder not supported in this browser.")
     (usePhaseLooper noRecorderWindow noOptions))) = false
  /\ contexts (world (usePhaseLooper noRecorderWindow noOptions)) = [].
Proof.
  destruct (unsupported_never_enables noRecorderWindow noOptions
              [CallEnable (ContextStarts running); CallStartRecording;
               CallStartPhase (at_ms 0); CallStopPhase; CallStopRecording]
              (on_state
                 (with_status "Web Audio or MediaRecorder not supported in this browser.")
                 (usePhaseLooper noRecorderWindow noOptions)))
    as (_ & He & _ & Hc & _).
  - reflexivity.
  - vm_compute. reflexivity.
  - split; [exact He | exact Hc].
Defined.

(** ** stopPhase is total and idempotent *)

(** C3. In every state whatsoever, [stopPhase()] returns without a fault,
    leaves [isPhasePlaying] false and the two playback-unit cells and the
    gain cell empty; called again right away it returns again and changes
    nothing. *)
Theorem stopPhase_total_idempotent (h : Hook) :
  exists h', stopPhase h = (Returns tt, h')
    /\ isPhasePlaying (state h') = false
    /\ source1Ref (refs h') = None /\ source2Ref (refs h') = None
    /\ gainRef (refs h') = None
    /\ stopPhase h' = (Returns tt, h').
Proof.
  exists (torn_down h). rewrite !stopPhase_spec, torn_down_idem.
  repeat split; reflexivity.
Qed.

(** ** startPhase builds the graph *)

Lemma torn_down_source_lookup (l : list AudioBufferSourceNode) (j : nat)
    (n : AudioBufferSourceNode) :
  alter torn_down_source j l !! j = Some n ->
  sn_outputs n = [] /\ (sn_started n <> None -> sn_stopped n = true).
Proof.
  rewrite list_lookup_alter_eq. destruct (l !! j) as [x|]; [|discriminate].
  intros [= <-]. cbn. split; [reflexivity|]. now destruct (sn_started x).
Qed.

Lemma torn_down_source_keeps (l : list AudioBufferSourceNode) (j s : nat)
    (n : AudioBufferSourceNode) :
  (forall x, l !! s = Some x ->
     sn_outputs x = [] /\ (sn_started x <> None -> sn_stopped x = true)) ->
  alter torn_down_source j l !! s = Some n ->
  sn_outputs n = [] /\ (sn_started n <> None -> sn_stopped n = true).
Proof.
  intros Hl. destruct (decide (j = s)) as [->|Hne].
  - apply torn_down_source_lookup.
  - rewrite list_lookup_alter_ne by assumption. apply Hl.
Qed.

Lemma torn_down_units (h : Hook) (s : nat) (n : AudioBufferSourceNode) :
  source1Ref (refs h) = Some s \/ source2Ref (refs h) = Some s ->
  sources (world (torn_down h)) !! s = Some n ->
  sn_outputs n = [] /\ (sn_started n <> None -> sn_stopped n = true).
Proof.
  destruct h as [w o st rd [a sr r c p s1 s2 g i] [cs ss rs so ps gs pd]]. cbn.
  destruct s1 as [j1|], s2 as [j2|]; cbn; intros [H|H]; try discriminate;
    injection H as ->.
  - apply torn_down_source_keeps. intros x. apply torn_down_source_lookup.
  - apply torn_down_source_lookup.
  - apply torn_down_source_lookup.
  - apply torn_down_source_lookup.
Qed.

Lemma torn_down_gain_stage (h : Hook) (g : nat) (n : GainNode) :
  gainRef (refs h) = Some g ->
  gains (world (torn_down h)) !! g = Some n -> gn_outputs n = [].
Proof.
  destruct h as [w o st rd [a sr r c p s1 s2 g0 i] [cs ss rs so ps gs pd]]. cbn.
  intros ->. cbn. rewrite list_lookup_alter_eq.
  destruct (gs !! g) as [x|]; [|discriminate]. now intros [= <-].
Qed.

(** C4, as the code has it. The options are passed to the platform
    unchecked, and the platform rejects a number that is not finite as a
    32-bit float.  With a context and a phrase stored and [fastPlaybackRate]
    at 10^40 (or NaN), [startPhase()] tears the old graph down, constructs
    two units and a gain stage, and then throws a TypeError: nothing is
    connected or started, the three cells stay empty and [isPhasePlaying] is
    false. *)
Lemma startPhase_rejected_option :
  ~ (forall o h now ctx b,
       reachable fullWindow o h ->
       audioCtxRef (refs h) = Some ctx -> phraseBufferRef (refs h) = Some b ->
       exists h', startPhase now h = (Returns tt, h')
                  /\ isPhasePlaying (state h') = true).
Proof.
  intros H.
  destruct (H steepOptions (after_with steepOptions capture_phrase)
              (at_ms 0) 0 phrase0) as (h' & E & _).
  - exists capture_phrase. vm_compute. reflexivity.
  - vm_compute. reflexivity.
  - vm_compute. reflexivity.
  - rewrite (startPhase_throws (at_ms 0) 0 phrase0) in E;
      [discriminate | vm_compute; reflexivity..].
Qed.

(** What that call leaves, computed. *)
Lemma rejected_option_leaves_idle_nodes :
  let h := after_with steepOptions capture_phrase in
  fst (startPhase (at_ms 0) h) = Throws TypeError
  /\ fst (startPhase (at_ms 0) (after_with nanOptions capture_phrase))
     = Throws TypeError
  /\ state (exec (startPhase (at_ms 0)) h) = state h
  /\ isPhasePlaying (state h) = false
  /\ refs (exec (startPhase (at_ms 0)) h) = refs h
  /\ sources (world (exec (startPhase (at_ms 0)) h))
     = [idle_unit 0 phrase0 (Num (1 # 1)); idle_unit 0 phrase0 (Num (1 # 1))]
  /\ panners (world (exec (startPhase (at_ms 0)) h)) = []
  /\ gains (world (exec (startPhase (at_ms 0)) h)) = [idle_gain 0].
Proof. vm_compute. repeat split; reflexivity. Qed.

(** C4, amended. With an audio context [ctx] and a phrase [b] in their
    cells, and each of the five options finite as a 32-bit float,
    [startPhase()] returns, and the machine it leaves is the one
    [stopPhase()] leaves (the old graph's units stopped and disconnected,
    its gain stage disconnected) plus exactly two new playback units, two
    pan stages and one gain stage: unit A loops [b] at [basePlaybackRate]
    into a pan stage at [panLeft], unit B loops [b] at [fastPlaybackRate]
    into a pan stage at [panRight], both pan stages feed the one gain stage
    set to [gain], which feeds the context's destination; both units are
    started at the one value read from [currentTime], which is read once;
    the three cells hold the new handles and [isPhasePlaying] is true. *)
Theorem startPhase_builds_graph
    (now : Time) (ctx : nat) (b : AudioBuffer) (h : Hook) :
  audioCtxRef (refs h) = Some ctx ->
  phraseBufferRef (refs h) = Some b ->
  options_finite (options h) = true ->
  exists h',
    startPhase now h = (Returns tt, h')
    /\ let h0 := exec stopPhase h in
       let o := options h in
       let a := length (sources (world h)) in
       let p := length (panners (world h)) in
       let g := length (gains (world h)) in
       (forall s n,
          source1Ref (refs h) = Some s \/ source2Ref (refs h) = Some s ->
          sources (world h0) !! s = Some n ->
          sn_outputs n = [] /\ (sn_started n <> None -> sn_stopped n = true))
       /\ (forall g0 n, gainRef (refs h) = Some g0 ->
             gains (world h0) !! g0 = Some n -> gn_outputs n = [])
       /\ sources (world h') =
            sources (world h0)
            ++ [ {| sn_context := ctx; sn_buffer := Some b; sn_loop := true;
                    sn_playbackRate := basePlaybackRate o;
                    sn_started := Some (seconds now); sn_stopped := false;
                    sn_outputs := [StereoPanner p] |};
                 {| sn_context := ctx; sn_buffer := Some b; sn_loop := true;
                    sn_playbackRate := fastPlaybackRate o;
                    sn_started := Some (seconds now); sn_stopped := false;
                    sn_outputs := [StereoPanner (S p)] |} ]
       /\ length (sources (world h0)) = a
       /\ panners (world h') =
            panners (world h)
            ++ [ {| pn_context := ctx; pn_pan := panLeft o;
                    pn_outputs := [Gain g] |};
                 {| pn_context := ctx; pn_pan := panRight o;
                    pn_outputs := [Gain g] |} ]
       /\ gains (world h') =
            gains (world h0)
            ++ [ {| gn_context := ctx; gn_gain := gain o;
                    gn_outputs := [Destination ctx] |} ]
       /\ length (gains (world h0)) = g
       /\ contexts (world h') = alter time_read ctx (contexts (world h))
       /\ source1Ref (refs h') = Some a
       /\ source2Ref (refs h') = Some (S a)
       /\ gainRef (refs h') = Some g
       /\ isPhasePlaying (state h') = true.
Proof.
  intros Hctx Hbuf Hfin.
  exists (phase_started now ctx b (torn_down h)).
  split; [now apply startPhase_spec|].
  unfold exec. rewrite stopPhase_spec. cbn [snd].
  split; [intros s n; apply torn_down_units|].
  split; [intros g0 n; apply torn_down_gain_stage|].
  destruct h as [w o st rd [a sr r c p s1 s2 g i] [cs ss rs so ps gs pd]].
  cbn.
  assert (length (from_option (fun s => alter torn_down_source s) id s2
            (from_option (fun s => alter torn_down_source s) id s1 so))
          = length so) as Hso.
  { destruct s1, s2; cbn; now rewrite ?length_alter. }
  assert (length (from_option (fun g => alter torn_down_gain g) id g gs)
          = length gs) as Hgs.
  { destruct g; cbn; now rewrite ?length_alter. }
  rewrite Hso, Hgs. repeat split; reflexivity.
Qed.

Lemma startPhase_builds_graph_witness :
  exists h',
    startPhase (at_ms 5000)
      (after capture_phrase)
    = (Returns tt, h')
    /\ isPhasePlaying (state h') = true.
Proof.
  destruct (startPhase_builds_graph (at_ms 5000) 0 phrase0
              (after capture_phrase))
    as (h' & H1 & H2).
  - vm_compute. reflexivity.
  - vm_compute. reflexivity.
  - vm_compute. reflexivity.
  - exists h'. split; [exact H1|]. apply H2.
Defined.

(** ** The phrase flag follows the phrase cell *)

Lemma callback_keeps_phrase (b : bool) (x : option AudioBuffer) (e : Event) :
  (forall c r, e <> DecodeSettled c r) -> e <> CallReset ->
  preserves (fun h => hasPhrase (state h) = b /\ phraseBufferRef (refs h) = x)
    (callback e).
Proof.
  intros Hd Hr.
  destruct e; cbn [callback]; try congruence;
    preserves_with ltac:(intros [? ? [] ? [] []] ?; cbn in *; intuition congruence).
Qed.

Lemma step_keeps_phrase_flag (e : Event) (h h' : Hook) :
  hasPhrase (state h) = holds_phrase h ->
  step e h = Some h' ->
  hasPhrase (state h') = holds_phrase h'.
Proof.
  intros H Hs.
  assert ((exists c r, e = DecodeSettled c r) \/ e = CallReset
          \/ ((forall c r, e <> DecodeSettled c r) /\ e <> CallReset)) as Hcase.
  { destruct e; try (right; right; split; congruence).
    - right; now left.
    - left; eauto. }
  destruct Hcase as [(c & r & ->) | [-> | [Hd Hr]]].
  - destruct (step_cases _ _ _ Hs) as [[[=] _] | (t & rest & _ & _ & ->)].
    destruct h as [w o [] rd [] []]. destruct r; [reflexivity | exact H].
  - injection Hs as <-. unfold exec. rewrite reset_spec. reflexivity.
  - pose proof (callback_keeps_phrase (hasPhrase (state h))
                  (phraseBufferRef (refs h)) e Hd Hr) as Hk.
    destruct (step_cases _ _ _ Hs) as [[_ ->] | (t & rest & _ & _ & ->)].
    + unfold exec, holds_phrase. destruct (Hk h) as [E1 E2]; [now split|].
      rewrite E1, E2. exact H.
    + unfold exec, holds_phrase.
      destruct (Hk (on_world (with_pending rest) h)) as [E1 E2];
        [now destruct h|].
      rewrite E1, E2. exact H.
Qed.

Lemma reachable_phrase_flag (w : Window) (o : UsePhaseLooperOptions) (h : Hook) :
  reachable w o h ->
  hasPhrase (state h) = holds_phrase h.
Proof.
  intros [es Hes]. revert Hes.
  apply (run_invariant
           (fun h => hasPhrase (state h) = holds_phrase h));
    [|reflexivity].
  intros e h1 h2. apply step_keeps_phrase_flag.
Qed.

(** ** startPhase without a context or a phrase *)

Lemma startPhase_run_noop (nows : list Time) (h : Hook) :
  audioCtxRef (refs h) = None \/ phraseBufferRef (refs h) = None ->
  run (map CallStartPhase nows) h = Some h.
Proof.
  intros H. induction nows as [|now nows IH]; cbn; [reflexivity|].
  unfold exec. now rewrite startPhase_noop.
Qed.

(** C5. In every reachable state [startPhase()] changes nothing at all
    (snapshot, status, cells, platform objects) unless both an audio
    context and a phrase are stored.  In particular, when a decode fails
    while [hasPhrase] is false, [hasPhrase] stays false, no phrase is
    stored, the status reports the error, and any number of [startPhase()]
    calls after it change nothing. *)
Theorem startPhase_noop_without_phrase
    (w : Window) (o : UsePhaseLooperOptions) (h : Hook) :
  reachable w o h ->
  (forall now,
     audioCtxRef (refs h) = None \/ phraseBufferRef (refs h) = None ->
     startPhase now h = (Returns tt, h))
  /\ (forall c h',
        hasPhrase (state h) = false ->
        step (DecodeSettled c None) h = Some h' ->
        hasPhrase (state h') = false
        /\ phraseBufferRef (refs h') = None
        /\ status (state h') = "Error decoding audio buffer."
        /\ forall nows, run (map CallStartPhase nows) h' = Some h').
Proof.
  intros Hr. split; [intros now; apply startPhase_noop|].
  intros c h' Hp Hs.
  pose proof (reachable_phrase_flag _ _ _ Hr) as Hf.
  rewrite Hp in Hf. unfold holds_phrase in Hf.
  destruct (step_cases _ _ _ Hs) as [[[=] _] | (t & rest & _ & _ & ->)].
  assert (phraseBufferRef (refs (exec (onstop_decoded None)
            (on_world (with_pending rest) h))) = None) as Hb.
  { destruct h as [? ? [] ? [] []]. cbn in *.
    now destruct phraseBufferRef0. }
  split; [destruct h as [? ? [] ? [] []]; exact Hp|].
  split; [exact Hb|].
  split; [destruct h as [? ? [] ? [] []]; reflexivity|].
  intros nows. apply startPhase_run_noop. now right.
Qed.

Lemma startPhase_noop_without_phrase_witness :
  startPhase (at_ms 0) (after record_take) = (Returns tt, after record_take)
  /\ hasPhrase (state (after (record_take ++ [DecodeSettled 0 None]))) = false
  /\ run [CallStartPhase (at_ms 0); CallStartPhase (at_ms 1000)]
        (after (record_take ++ [DecodeSettled 0 None]))
      = Some (after (record_take ++ [DecodeSettled 0 None])).
Proof.
  destruct (startPhase_noop_without_phrase fullWindow noOptions (after record_take))
    as [H1 H2].
  - exists record_take. vm_compute. reflexivity.
  - split; [apply H1; right; vm_compute; reflexivity|].
    destruct (H2 0 (after (record_take ++ [DecodeSettled 0 None])))
      as (H3 & _ & _ & H4).
    + vm_compute. reflexivity.
    + vm_compute. reflexivity.
    + split; [exact H3 | exact (H4 [at_ms 0; at_ms 1000])].
Defined.

(** ** enable is guarded by its own flags *)

Lemma reachable_enabled_supported (w : Window) (o : UsePhaseLooperOptions) (h : Hook) :
  reachable w o h ->
  isEnabled (rendered h) || isEnabling (rendered h) = true ->
  isSupported (rendered h) = true.
Proof.
  intros Hr He. destruct (isSupported (getInitialState w)) eqn:Hw.
  - now destruct (reachable_isSupported _ _ _ Hr) as [_ ->].
  - destruct (reachable_idle_unsupported w o h Hw Hr)
      as (_ & _ & _ & _ & _ & _ & Hg & Hn).
    rewrite Hg, Hn in He. discriminate.
Qed.

(** What the guard of [enable()] does: in every reachable state, a call
    made from a render whose snapshot shows [isEnabled] or [isEnabling]
    returns at once and changes nothing. *)
Lemma enable_guarded
    (w : Window) (o : UsePhaseLooperOptions) (h : Hook) (nc : NewContext) :
  reachable w o h ->
  isEnabled (rendered h) || isEnabling (rendered h) = true ->
  enable nc h = (Returns tt, h).
Proof.
  intros Hr He. pose proof (reachable_enabled_supported _ _ _ Hr He) as Hs.
  unfold enable. rewrite bind_get, Hs, He. reflexivity.
Qed.

(** The guard reads the snapshot of the render that made the callback: two
    calls made through the callbacks of one render both pass it, although
    the first has raised [isEnabling]. *)
Lemma enable_twice_in_one_render :
  isEnabling (state (after [CallEnable (ContextStarts running)])) = true
  /\ pending (world (after [CallEnable (ContextStarts running);
                            CallEnable (ContextStarts running)]))
     = [AwaitGetUserMedia; AwaitGetUserMedia].
Proof. split; vm_compute; reflexivity. Qed.

(** C6 (the code departs from it). [enable()], then [reset()] while the
    microphone request is pending, then [enable()] again, each from an
    up-to-date render: [reset()] has cleared [isEnabling] but cannot recall
    the request, so the second call passes the guard and issues a second
    request while the first has not resolved.  When both are granted there
    are two recorders, each on a stream of its own with live tracks.  The
    cells hold the second pair; the first stream is in no cell any more, and
    neither [reset()] nor the unmount cleanup ever stops its tracks. *)
Theorem enable_after_reset_leaks_session :
  let h := after enable_reset_enable in
  run enable_reset_enable (usePhaseLooper fullWindow noOptions) = Some h
  /\ isEnabling (rendered (after (firstn 4 enable_reset_enable))) = false
  /\ pending (world (after (firstn 4 enable_reset_enable))) = [AwaitGetUserMedia]
  /\ pending (world (after (firstn 5 enable_reset_enable)))
     = [AwaitGetUserMedia; AwaitGetUserMedia]
  /\ live_capture_sessions h = 2
  /\ recorders (world h)
     = [{| mr_stream := 0; mr_state := inactive |};
        {| mr_stream := 1; mr_state := inactive |}]
  /\ streams (world h)
     = [{| ms_tracks_stopped := false |}; {| ms_tracks_stopped := false |}]
  /\ streamRef (refs h) = Some 1
  /\ recorderRef (refs h) = Some 1
  /\ streams (world (exec reset h))
     = [{| ms_tracks_stopped := false |}; {| ms_tracks_stopped := true |}]
  /\ streams (world (exec cleanup h))
     = [{| ms_tracks_stopped := false |}; {| ms_tracks_stopped := true |}].
Proof.
  cbv zeta.
  split; [vm_compute; reflexivity|].
  split; [vm_compute; reflexivity|].
  split; [vm_compute; reflexivity|].
  split; [vm_compute; reflexivity|].
  split; [vm_compute; reflexivity|].
  split; [vm_compute; reflexivity|].
  split; [vm_compute; reflexivity|].
  split; [vm_compute; reflexivity|].
  split; [vm_compute; reflexivity|].
  split; vm_compute; reflexivity.
Qed.

(** ** enable after a failure *)

Lemma enable_requests (nc : NewContext) (h : Hook) :
  isSupported (rendered h) = true ->
  isEnabled (rendered h) = false ->
  isEnabling (rendered h) = false ->
  nc <> ContextThrows \/ audioCtxRef (refs h) <> None ->
  exists t,
    is_enable_task t = true
    /\ fst (enable nc h) = Returns tt
    /\ pending (world (exec (enable nc) h)) = pending (world h) ++ [t]
    /\ isEnabling (state (exec (enable nc) h)) = true.
Proof.
  intros Hs He Hg Hnc.
  destruct h as [w o st [sup eng en rec hp pl stt] [a s r c p s1 s2 g i]
                 [cs ss rs so ps gs pd]].
  cbn in Hs, He, Hg, Hnc. subst.
  unfold enable. js. cbn.
  destruct a as [a|].
  - cbn. case_decide; cbn; eexists; repeat split; reflexivity.
  - destruct nc as [|st0]; [destruct Hnc; congruence|].
    cbn. rewrite lookup_app_len0. cbn.
    case_decide; cbn; eexists; repeat split; reflexivity.
Qed.

Lemma enable_gotUserMedia_fresh (ok : bool) (h : Hook) :
  let h' := exec (enable_gotUserMedia true ok) h in
  streamRef (refs h') = Some (length (streams (world h)))
  /\ streams (world h') = streams (world h) ++ [{| ms_tracks_stopped := false |}]
  /\ (ok = true ->
      recorderRef (refs h') = Some (length (recorders (world h)))
      /\ recorders (world h') =
           recorders (world h)
           ++ [{| mr_stream := length (streams (world h)); mr_state := inactive |}]).
Proof.
  destruct h as [w o st rd rf [cs ss rs so ps gs pd]].
  destruct ok; cbn; repeat split; intros; try reflexivity; discriminate.
Qed.

(** What the failure path of [enable()] does do.  When a step of
    [enable()] fails after its guard (the resume is rejected, the microphone
    is refused, or the recorder cannot be constructed), [isEnabling] is
    cleared, [isEnabled] is left as it was, the status is the plain-language
    error message, and no recorder has been stored or constructed.  When the
    resume is rejected or the microphone refused, no stream has been stored
    or acquired either.  A retried [enable()], called once that state is
    rendered, is not held back: it issues a new request, and when that is
    granted it stores a newly acquired stream and a new recorder on it. *)
Lemma enable_failure_recovers (e : Event) (h h' : Hook) :
  enable_failure e = true ->
  step e h = Some h' ->
  isEnabling (state h') = false
  /\ isEnabled (state h') = isEnabled (state h)
  /\ status (state h') = "Error accessing microphone. Check permissions."
  /\ recorderRef (refs h') = recorderRef (refs h)
  /\ recorders (world h') = recorders (world h)
  /\ (e <> GetUserMediaSettled true false ->
      streamRef (refs h') = streamRef (refs h)
      /\ streams (world h') = streams (world h))
  /\ (isSupported (state h') = true -> isEnabled (state h') = false ->
      forall nc, nc <> ContextThrows \/ audioCtxRef (refs h') <> None ->
        exists t,
          is_enable_task t = true
          /\ fst (enable nc (rerendered h')) = Returns tt
          /\ pending (world (exec (enable nc) (rerendered h')))
             = pending (world h') ++ [t]
          /\ isEnabling (state (exec (enable nc) (rerendered h'))) = true)
  /\ (forall ok h2,
        let h3 := exec (enable_gotUserMedia true ok) h2 in
        streamRef (refs h3) = Some (length (streams (world h2)))
        /\ streams (world h3)
           = streams (world h2) ++ [{| ms_tracks_stopped := false |}]
        /\ (ok = true ->
            recorderRef (refs h3) = Some (length (recorders (world h2)))
            /\ recorders (world h3) =
                 recorders (world h2)
                 ++ [{| mr_stream := length (streams (world h2));
                        mr_state := inactive |}])).
Proof.
  intros Hf Hs.
  assert (isEnabling (state h') = false
          /\ isEnabled (state h') = isEnabled (state h)
          /\ status (state h') = "Error accessing microphone. Check permissions."
          /\ recorderRef (refs h') = recorderRef (refs h)
          /\ recorders (world h') = recorders (world h)
          /\ (e <> GetUserMediaSettled true false ->
              streamRef (refs h') = streamRef (refs h)
              /\ streams (world h') = streams (world h))) as Hpost.
  { destruct (step_cases _ _ _ Hs) as [[Ha _] | (t & rest & _ & _ & ->)].
    - destruct e as [| | | | | | |? []|[] []| | | | |]; discriminate.
    - destruct h as [w o st rd rf [cs ss rs so ps gs pd]].
      destruct e as [| | | | | | |? []|[] []| | | | |]; try discriminate;
        cbn; repeat split; try reflexivity; intros; congruence. }
  destruct Hpost as (H1 & H2 & H3 & H4 & H5 & H6).
  repeat (split; [assumption|]).
  split.
  - intros Hsup Hen nc Hnc.
    destruct (enable_requests nc (rerendered h')) as (t & ? & ? & ? & ?);
      try assumption.
    exists t. repeat split; assumption.
  - intros ok h2. apply enable_gotUserMedia_fresh.
Qed.

(** C7 (the code departs from it). When the microphone is granted and the
    recorder then cannot be constructed, the flags, the status and the
    recorder cell are as the claim says, but the stream just acquired has
    already been put into [streamRef], and the failure path leaves it
    there with its tracks live: a part of the capture session stays
    reachable.  A retried [enable()] does not reuse it; it overwrites the
    cell with a new stream, after which no cell holds the first stream and
    neither [reset()] nor the unmount cleanup ever stops its tracks. *)
Theorem failed_enable_keeps_stream :
  let h1 := after enable_fails_on_recorder in
  let h2 := after enable_retried in
  run enable_fails_on_recorder (usePhaseLooper fullWindow noOptions) = Some h1
  /\ isEnabling (state h1) = false
  /\ isEnabled (state h1) = false
  /\ status (state h1) = "Error accessing microphone. Check permissions."
  /\ recorderRef (refs h1) = None
  /\ recorders (world h1) = []
  /\ streamRef (refs h1) = Some 0
  /\ streams (world h1) = [{| ms_tracks_stopped := false |}]
  /\ run enable_retried (usePhaseLooper fullWindow noOptions) = Some h2
  /\ streamRef (refs h2) = Some 1
  /\ recorders (world h2) = [{| mr_stream := 1; mr_state := inactive |}]
  /\ streams (world h2)
     = [{| ms_tracks_stopped := false |}; {| ms_tracks_stopped := false |}]
  /\ streams (world (exec reset h2))
     = [{| ms_tracks_stopped := false |}; {| ms_tracks_stopped := true |}]
  /\ streams (world (exec cleanup h2))
     = [{| ms_tracks_stopped := false |}; {| ms_tracks_stopped := true |}].
Proof.
  cbv zeta.
  split; [vm_compute; reflexivity|].
  split; [vm_compute; reflexivity|].
  split; [vm_compute; reflexivity|].
  split; [vm_compute; reflexivity|].
  split; [vm_compute; reflexivity|].
  split; [vm_compute; reflexivity|].
  split; [vm_compute; reflexivity|].
  split; [vm_compute; reflexivity|].
  split; [vm_compute; reflexivity|].
  split; [vm_compute; reflexivity|].
  split; [vm_compute; reflexivity|].
  split; [vm_compute; reflexivity|].
  split; vm_compute; reflexivity.
Qed.

(** ** The recording intents only forward *)



(** C10. In every state, [startRecording()] does nothing unless a recorder
    is stored and idle, in which case it only tells that recorder to start
    (the recorder now records and its "start" event is pending);
    [stopRecording()] does nothing unless the stored recorder is recording,
    in which case it only tells it to stop (the recorder is now inactive
    and its last chunk and "stop" event are pending).  Neither writes the
    state, the rendered snapshot or any cell.  The flags move only when the
    events fire: [onstart] sets [isRecording], and [onstop], unless told to
    ignore the stop, clears it.  (Starting a paused recorder would throw,
    and so would starting an idle one whose stream has no live track left,
    again without any change; the hook never pauses a recorder and stores
    none on a stream it has stopped.) *)
Theorem recording_intents_only_forward (h : Hook) :
  startRecording h =
    match recorderRef (refs h), stored_recorder_state h with
    | Some r, Some inactive =>
        if stream_ended r h then (Throws NotSupportedError, h)
        else (Returns tt, start_requested r h)
    | _, Some paused => (Throws InvalidStateError, h)
    | _, _ => (Returns tt, h)
    end
  /\ stopRecording h =
       match recorderRef (refs h), stored_recorder_state h with
       | Some r, Some recording => (Returns tt, stop_requested r h)
       | _, _ => (Returns tt, h)
       end
  /\ (forall r,
        state (start_requested r h) = state h
        /\ rendered (start_requested r h) = rendered h
        /\ refs (start_requested r h) = refs h
        /\ state (stop_requested r h) = state h
        /\ rendered (stop_requested r h) = rendered h
        /\ refs (stop_requested r h) = refs h)
  /\ isRecording (state (exec onstart h)) = true
  /\ isRecording
       (state (exec onstop (on_refs (with_ignoreNextOnStopRef false) h))) = false.
Proof.
  split; [|split; [|split; [|split]]].
  - destruct h as [w o st rd [a s r c p s1 s2 g i] [cs ss rs so ps gs pd]].
    unfold startRecording, stored_recorder_state, start_requested. js.
    destruct r as [r|]; [|reflexivity].
    destruct (rs !! r) as [[sm [| |]]|] eqn:E; cbn; case_decide; try congruence;
      rewrite ?E; cbn; rewrite ?E; cbn; try reflexivity.
    destruct (ss !! sm) as [[[|]]|]; reflexivity.
  - destruct h as [w o st rd [a s r c p s1 s2 g i] [cs ss rs so ps gs pd]].
    unfold stopRecording, stored_recorder_state, stop_requested. js.
    destruct r as [r|]; [|reflexivity].
    destruct (rs !! r) as [[sm [| |]]|] eqn:E; cbn; case_decide; try congruence;
      rewrite ?E; cbn; rewrite <- ?app_assoc; reflexivity.
  - intros r. now destruct h.
  - reflexivity.
  - destruct h as [w o st rd [a s r c p s1 s2 g i] wd]. cbn. now destruct a.
Qed.

(** ** A decode that outlives a reset *)

(** C8 (the code departs from it). The take's decode is in flight, [reset()]
    runs and restores the initial snapshot with an empty phrase cell, and
    then the decode resolves: its handler stores the phrase and raises
    [hasPhrase], because after the decode it looks neither at the context
    cell nor at anything else [reset] cleared. *)
Theorem decode_after_reset_writes_phrase :
  let h1 := after (record_take ++ [CallReset]) in
  run (record_take ++ [CallReset]) (usePhaseLooper fullWindow noOptions) = Some h1
  /\ state h1 = getInitialState fullWindow
  /\ phraseBufferRef (refs h1) = None
  /\ audioCtxRef (refs h1) = None
  /\ exists h2,
       step (DecodeSettled 0 (Some phrase0)) h1 = Some h2
       /\ hasPhrase (state h2) = true
       /\ phraseBufferRef (refs h2) = Some phrase0.
Proof.
  cbv zeta.
  split; [vm_compute; reflexivity|].
  split; [vm_compute; reflexivity|].
  split; [vm_compute; reflexivity|].
  split; [vm_compute; reflexivity|].
  exists (after (record_take ++ [CallReset; DecodeSettled 0 (Some phrase0)])).
  split; [vm_compute; reflexivity|].
  split; vm_compute; reflexivity.
Qed.

(** The guards the stop handler does have: with the context cell cleared
    when "stop" fires, nothing is decoded; cleared when the array buffer
    arrives, only the status changes. *)
Lemma onstop_after_reset (h : Hook) :
  audioCtxRef (refs h) = None ->
  ignoreNextOnStopRef (refs h) = false ->
  onstop h =
  (Returns tt,
   on_state (fun s => with_status "Processing recording…" (with_isRecording false s)) h).
Proof.
  destruct h as [w o st rd [a s r c p s1 s2 g i] wd]. cbn. now intros -> ->.
Qed.

Lemma onstop_arrayBuffer_after_reset (ok : bool) (h : Hook) :
  audioCtxRef (refs h) = None ->
  onstop_arrayBuffer ok h =
  (Returns tt, on_state (with_status "Error decoding audio buffer.") h).
Proof.
  destruct h as [w o st rd [a s r c p s1 s2 g i] wd]. cbn. intros ->.
  now destruct ok.
Qed.

(** Whatever happened in between, a decode that resolves stores its phrase. *)
Lemma onstop_decoded_stores (b : AudioBuffer) (h : Hook) :
  hasPhrase (state (exec (onstop_decoded (Some b)) h)) = true
  /\ phraseBufferRef (refs (exec (onstop_decoded (Some b)) h)) = Some b.
Proof. now destruct h. Qed.

(** ** Recording and phase playback *)

(** *** In unhurried use *)

Lemma take_elem (p : Task -> bool) (t : Task) (l rest : list Task) :
  take t l = Some rest -> p t = true -> existsb p l = true.
Proof.
  revert rest. induction l as [|x l IH]; intros rest; cbn; [discriminate|].
  destruct (decide (x = t)) as [->|_].
  - intros _ ->. reflexivity.
  - destruct (take t l) as [r|]; [|discriminate].
    intros _ Hp. rewrite (IH r eq_refl Hp). apply orb_true_r.
Qed.

Lemma take_mono (p : Task -> bool) (t : Task) (l rest : list Task) :
  take t l = Some rest -> existsb p rest = true -> existsb p l = true.
Proof.
  revert rest. induction l as [|x l IH]; intros rest; cbn; [discriminate|].
  destruct (decide (x = t)) as [->|_].
  - intros [= ->] ->. apply orb_true_r.
  - destruct (take t l) as [r|]; [|discriminate].
    intros [= <-]. cbn. destruct (p x); [reflexivity|]. cbn. apply (IH r eq_refl).
Qed.

Lemma take_other (p : Task -> bool) (t : Task) (l rest : list Task) :
  take t l = Some rest -> p t = false -> existsb p rest = existsb p l.
Proof.
  revert rest. induction l as [|x l IH]; intros rest; cbn; [discriminate|].
  destruct (decide (x = t)) as [->|_].
  - intros [= ->] ->. reflexivity.
  - destruct (take t l) as [r|]; [|discriminate].
    intros [= <-] Hp. cbn. now rewrite (IH r eq_refl Hp).
Qed.

Lemma decoding_is_settling (l : list Task) :
  existsb is_decoding_task l = true -> existsb is_settling_task l = true.
Proof.
  induction l as [|x l IH]; cbn; [discriminate|].
  destruct x; cbn; auto.
Qed.

Lemma exclusive_inv_same_view (h h' : Hook) :
  isPhasePlaying (state h') = isPhasePlaying (state h) ->
  hasPhrase (state h') = hasPhrase (state h) ->
  isRecording (state h') = isRecording (state h) ->
  phraseBufferRef (refs h') = phraseBufferRef (refs h) ->
  has_task is_start_task h' = has_task is_start_task h ->
  has_task is_settling_task h' = has_task is_settling_task h ->
  has_task is_decoding_task h' = has_task is_decoding_task h ->
  exclusive_inv h -> exclusive_inv h'.
Proof.
  unfold exclusive_inv, holds_phrase. now intros -> -> -> -> -> -> ->.
Qed.

Lemma exclusive_inv_playback (h h' : Hook) :
  (isPhasePlaying (state h') = true -> holds_phrase h = true) ->
  hasPhrase (state h') = hasPhrase (state h) ->
  isRecording (state h') = isRecording (state h) ->
  phraseBufferRef (refs h') = phraseBufferRef (refs h) ->
  has_task is_start_task h' = has_task is_start_task h ->
  has_task is_settling_task h' = has_task is_settling_task h ->
  has_task is_decoding_task h' = has_task is_decoding_task h ->
  exclusive_inv h -> exclusive_inv h'.
Proof.
  unfold exclusive_inv, holds_phrase. intros Hp -> -> -> -> -> ->.
  intros (_ & H2 & H3 & H4 & H5). now repeat split.
Qed.

(** A render, the callbacks of [enable] and the chunk handler stay clear of
    all that. *)
Lemma callback_keeps_recording_view (e : Event)
    (a b c : bool) (x : option AudioBuffer) (s1 s2 s3 : bool) :
  match e with
  | Render | CallEnable _ | ResumeSettled _ _ | GetUserMediaSettled _ _
  | FireDataAvailable _ _ => True
  | _ => False
  end ->
  preserves
    (fun h => isPhasePlaying (state h) = a /\ hasPhrase (state h) = b
              /\ isRecording (state h) = c /\ phraseBufferRef (refs h) = x
              /\ has_task is_start_task h = s1
              /\ has_task is_settling_task h = s2
              /\ has_task is_decoding_task h = s3)
    (callback e).
Proof.
  destruct e; cbn [callback]; intros []; unfold has_task;
    preserves_with
      ltac:(intros [? ? [] ? [] []] ?; cbn in *; rewrite ?existsb_app; cbn;
            rewrite ?orb_false_r; intuition congruence).
Qed.

Lemma exclusive_inv_frame_step (e : Event) (h h' : Hook) :
  match e with
  | Render | CallEnable _ | ResumeSettled _ _ | GetUserMediaSettled _ _
  | FireDataAvailable _ _ => True
  | _ => False
  end ->
  exclusive_inv h -> step e h = Some h' -> exclusive_inv h'.
Proof.
  intros He Hi Hs.
  assert (forall h0, exclusive_inv h0 -> exclusive_inv (exec (callback e) h0)) as Hk.
  { intros h0 H0.
    destruct (callback_keeps_recording_view e _ _ _ _ _ _ _ He h0
                (conj eq_refl (conj eq_refl (conj eq_refl (conj eq_refl
                   (conj eq_refl (conj eq_refl eq_refl)))))))
      as (E1 & E2 & E3 & E4 & E5 & E6 & E7).
    now apply (exclusive_inv_same_view h0). }
  destruct (step_cases _ _ _ Hs) as [[_ ->] | (t & rest & Ht & Hrest & ->)];
    apply Hk; [exact Hi|].
  assert (is_start_task t = false /\ is_settling_task t = false
          /\ is_decoding_task t = false) as (T1 & T2 & T3).
  { destruct e; try destruct He; cbn in Ht; try discriminate;
      injection Ht as <-; now cbn. }
  apply (exclusive_inv_same_view h); try exact Hi; try (now destruct h).
  all: destruct h as [? ? ? ? ? []]; unfold has_task; cbn in *.
  all: eapply take_other; eassumption.
Qed.

Ltac bsolve :=
  solve [intuition congruence]
  || (match goal with b : bool |- _ => destruct b end; bsolve).

Ltac bools :=
  repeat match goal with
         | H : context [existsb ?p ?l] |- _ =>
             let b := fresh "b" in
             remember (existsb p l) as b eqn:?E; clear E
         | |- context [existsb ?p ?l] =>
             let b := fresh "b" in
             remember (existsb p l) as b eqn:?E; clear E
         end;
  repeat match goal with
         | b : bool |- _ => clear b
         | x : option _ |- _ => clear x
         | x : list _ |- _ => clear x
         end;
  repeat match goal with
         | x : option AudioBuffer |- _ => destruct x
         end;
  cbn in *; repeat split; intros; bsolve.

Lemma exclusive_inv_intent (e : Event) (h : Hook) :
  is_intent e = true ->
  exclusive_inv h -> unhurried e h = true ->
  exclusive_inv (exec (callback e) h).
Proof.
  intros Hint Hi Hn. unfold exec.
  destruct e; try discriminate; cbn [callback].
  - (* enable *)
    apply (exclusive_inv_frame_step (CallEnable o) h); [exact I | exact Hi | reflexivity].
  - (* startRecording *)
    cbn in Hn. apply andb_prop in Hn as [Hq Hp].
    destruct (startRecording_spec h) as [-> | [(r & ? & _ & ->) | (r & _ & ->)]];
      try exact Hi.
    destruct h as [w o [] rd [] [cs ss rs so ps gs [|]]]; try discriminate.
    unfold exclusive_inv, holds_phrase, has_task in *. cbn in *. bools.
  - (* stopRecording *)
    cbn in Hn.
    destruct (stopRecording_spec h) as [-> | (r & _ & ->)]; try exact Hi.
    destruct h as [w o [] rd [] [cs ss rs so ps gs [|]]]; try discriminate.
    unfold exclusive_inv, holds_phrase, has_task in *. cbn in *. bools.
  - (* startPhase *)
    destruct (startPhase_cases now h)
      as [-> | [(ctx & b & _ & Hb & _ & ->) | (ctx & b & _ & Hb & _ & ->)]];
      [exact Hi | |]; cbn [snd];
      (apply (exclusive_inv_playback h); try exact Hi; try (now destruct h);
       intros _; unfold holds_phrase; now rewrite Hb).
  - (* stopPhase *)
    rewrite stopPhase_spec. cbn [snd].
    apply (exclusive_inv_playback h); try exact Hi; try (now destruct h).
  - (* reset *)
    cbn in Hn. rewrite reset_spec.
    destruct h as [w o [] rd [] [cs ss rs so ps gs [|]]]; try discriminate.
    unfold exclusive_inv, holds_phrase, has_task, after_reset. cbn.
    destruct (recording_recorder _); cbn; destruct streamRef0, audioCtxRef0;
      cbn; intuition congruence.
Qed.

Lemma exclusive_inv_recorder_event (e : Event) (h h' : Hook) :
  match e with
  | FireStart _ | FireStop _ | ArrayBufferSettled _ _ | DecodeSettled _ _ => True
  | _ => False
  end ->
  exclusive_inv h -> step e h = Some h' -> exclusive_inv h'.
Proof.
  intros He Hi Hs.
  destruct (step_cases _ _ _ Hs) as [[Ha _] | (t & rest & Ht & Hrest & ->)];
    [destruct e; now try destruct He|].
  pose proof (take_mono is_start_task _ _ _ Hrest) as M1.
  pose proof (take_mono is_settling_task _ _ _ Hrest) as M2.
  pose proof (take_mono is_decoding_task _ _ _ Hrest) as M3.
  pose proof (take_elem is_start_task _ _ _ Hrest) as E1.
  pose proof (take_elem is_settling_task _ _ _ Hrest) as E2.
  pose proof (take_elem is_decoding_task _ _ _ Hrest) as E3.
  pose proof (decoding_is_settling (pending (world h))) as D.
  pose proof (decoding_is_settling rest) as D'.
  clear Hs Hrest.
  destruct h as [w o [sup eng en rec hp pl stt] rd [a s r c p s1 s2 g i]
                 [cs ss rs so ps gs pd]].
  unfold exclusive_inv, holds_phrase, has_task in *. cbn in Hi, M1, M2, M3, D, D'.
  destruct e; try destruct He; injection Ht as <-; cbn in E1, E2, E3.
  - (* start *)
    cbn. clear - Hi M1 M2 M3 E1 D D'. bools.
  - (* stop *)
    cbn. destruct i; cbn; [clear - Hi M1 M2 M3 E2 D D'; bools|].
    destruct a; cbn; rewrite ?existsb_app; cbn; rewrite ?orb_false_r, ?orb_true_r;
      clear - Hi M1 M2 M3 E2 D D'; bools.
  - (* array buffer *)
    cbn. destruct ok; cbn; [destruct a; cbn|];
      rewrite ?existsb_app; cbn; rewrite ?orb_false_r, ?orb_true_r;
      clear - Hi M1 M2 M3 E2 E3 D D'; bools.
  - (* decode *)
    cbn. destruct result; cbn; clear - Hi M1 M2 M3 E2 E3 D D'; bools.
Qed.

Lemma exclusive_inv_step (e : Event) (h h' : Hook) :
  exclusive_inv h -> unhurried e h = true -> step e h = Some h' ->
  exclusive_inv h'.
Proof.
  intros Hi Hn Hs.
  destruct (is_intent e) eqn:Hint.
  - assert (h' = exec (callback e) h) as ->
      by (destruct e; try discriminate; now injection Hs).
    now apply exclusive_inv_intent.
  - destruct e; try discriminate;
      first [ eapply exclusive_inv_frame_step; [| exact Hi | exact Hs]; exact I
            | eapply exclusive_inv_recorder_event; [| exact Hi | exact Hs]; exact I ].
Qed.

Lemma exclusive_inv_excludes (h : Hook) :
  exclusive_inv h -> isRecording (state h) && isPhasePlaying (state h) = false.
Proof.
  intros (H1 & _ & H3 & _).
  destruct (isRecording (state h)); [|reflexivity].
  destruct (isPhasePlaying (state h)); [|reflexivity].
  rewrite H1 in H3 by reflexivity. now apply H3; left.
Qed.

(** *** In normal use *)

Lemma apart_inv_same_view (h h' : Hook) :
  isPhasePlaying (state h') = isPhasePlaying (state h) ->
  hasPhrase (state h') = hasPhrase (state h) ->
  isRecording (state h') = isRecording (state h) ->
  phraseBufferRef (refs h') = phraseBufferRef (refs h) ->
  has_task is_start_task h' = has_task is_start_task h ->
  has_task is_decoding_task h' = has_task is_decoding_task h ->
  apart_inv h -> apart_inv h'.
Proof.
  unfold apart_inv, holds_phrase. now intros -> -> -> -> -> ->.
Qed.

Lemma apart_inv_playback (h h' : Hook) :
  (isPhasePlaying (state h') = true -> holds_phrase h = true) ->
  hasPhrase (state h') = hasPhrase (state h) ->
  isRecording (state h') = isRecording (state h) ->
  phraseBufferRef (refs h') = phraseBufferRef (refs h) ->
  has_task is_start_task h' = has_task is_start_task h ->
  has_task is_decoding_task h' = has_task is_decoding_task h ->
  apart_inv h -> apart_inv h'.
Proof.
  unfold apart_inv, holds_phrase. intros Hp -> -> -> -> ->.
  intros (_ & H2 & H3 & H4). exact (conj Hp (conj H2 (conj H3 H4))).
Qed.

Lemma apart_inv_frame_step (e : Event) (h h' : Hook) :
  match e with
  | Render | CallEnable _ | ResumeSettled _ _ | GetUserMediaSettled _ _
  | FireDataAvailable _ _ => True
  | _ => False
  end ->
  apart_inv h -> step e h = Some h' -> apart_inv h'.
Proof.
  intros He Hi Hs.
  assert (forall h0, apart_inv h0 -> apart_inv (exec (callback e) h0)) as Hk.
  { intros h0 H0.
    destruct (callback_keeps_recording_view e _ _ _ _ _ _ _ He h0
                (conj eq_refl (conj eq_refl (conj eq_refl (conj eq_refl
                   (conj eq_refl (conj eq_refl eq_refl)))))))
      as (E1 & E2 & E3 & E4 & E5 & E6 & E7).
    now apply (apart_inv_same_view h0). }
  destruct (step_cases _ _ _ Hs) as [[_ ->] | (t & rest & Ht & Hrest & ->)];
    apply Hk; [exact Hi|].
  assert (is_start_task t = false /\ is_decoding_task t = false) as (T1 & T3).
  { destruct e; try destruct He; cbn in Ht; try discriminate;
      injection Ht as <-; now cbn. }
  apply (apart_inv_same_view h); try exact Hi; try (now destruct h).
  all: destruct h as [? ? ? ? ? []]; unfold has_task; cbn in *.
  all: eapply take_other; eassumption.
Qed.

Lemma apart_inv_intent (e : Event) (h : Hook) :
  is_intent e = true ->
  apart_inv h -> normal_use e h = true ->
  apart_inv (exec (callback e) h).
Proof.
  intros Hint Hi Hn. unfold exec.
  destruct e; try discriminate; cbn [callback].
  - (* enable *)
    apply (apart_inv_frame_step (CallEnable o) h); [exact I | exact Hi | reflexivity].
  - (* startRecording *)
    cbn in Hn. apply andb_prop in Hn as [Hp Hd].
    destruct (startRecording_spec h) as [-> | [(r & ? & _ & ->) | (r & _ & ->)]];
      try exact Hi.
    destruct h as [w o [] rd [] [cs ss rs so ps gs pd]].
    unfold apart_inv, holds_phrase, has_task in *. cbn in *.
    rewrite existsb_app, existsb_app. cbn. rewrite ?orb_false_r, ?orb_true_r. bools.
  - (* stopRecording *)
    destruct (stopRecording_spec h) as [-> | (r & _ & ->)]; try exact Hi.
    apply (apart_inv_same_view h); try exact Hi; try (now destruct h).
    all: destruct h as [? ? ? ? ? []]; unfold has_task; cbn;
      rewrite existsb_app; cbn; now rewrite orb_false_r.
  - (* startPhase *)
    destruct (startPhase_cases now h)
      as [-> | [(ctx & b & _ & Hb & _ & ->) | (ctx & b & _ & Hb & _ & ->)]];
      [exact Hi | |]; cbn [snd];
      (apply (apart_inv_playback h); try exact Hi; try (now destruct h);
       intros _; unfold holds_phrase; now rewrite Hb).
  - (* stopPhase *)
    rewrite stopPhase_spec. cbn [snd].
    apply (apart_inv_playback h); try exact Hi; try (now destruct h).
  - (* reset *)
    rewrite reset_spec.
    destruct h as [w o [] rd [a s r c p s1 s2 g i] [cs ss rs so ps gs pd]].
    unfold apart_inv, holds_phrase, has_task, after_reset in *. cbn in *.
    destruct (recording_recorder _); cbn; destruct s, a;
      cbn; rewrite ?existsb_app; cbn; rewrite ?orb_false_r;
      intuition congruence.
Qed.

Lemma apart_inv_recorder_event (e : Event) (h h' : Hook) :
  match e with
  | FireStart _ | FireStop _ | ArrayBufferSettled _ _ | DecodeSettled _ _ => True
  | _ => False
  end ->
  apart_inv h -> normal_use e h = true -> step e h = Some h' -> apart_inv h'.
Proof.
  intros He Hi Hn Hs.
  destruct (step_cases _ _ _ Hs) as [[Ha _] | (t & rest & Ht & Hrest & ->)];
    [destruct e; now try destruct He|].
  pose proof (take_mono is_start_task _ _ _ Hrest) as M1.
  pose proof (take_mono is_decoding_task _ _ _ Hrest) as M3.
  pose proof (take_elem is_start_task _ _ _ Hrest) as E1.
  pose proof (take_elem is_decoding_task _ _ _ Hrest) as E3.
  clear Hs Hrest.
  destruct h as [w o [sup eng en rec hp pl stt] rd [a s r c p s1 s2 g i]
                 [cs ss rs so ps gs pd]].
  unfold apart_inv, holds_phrase, has_task in *. cbn in Hi, M1, M3.
  destruct e; try destruct He; injection Ht as <-; cbn in E1, E3, Hn.
  - (* start *)
    cbn. clear - Hi M1 M3 E1. bools.
  - (* stop *)
    cbn. destruct i; cbn; [clear - Hi M1 M3; bools|].
    cbn in Hn.
    destruct a; cbn; rewrite ?existsb_app; cbn; rewrite ?orb_false_r, ?orb_true_r;
      clear - Hi M1 M3 Hn; bools.
  - (* array buffer *)
    cbn. destruct ok; cbn; [destruct a; cbn|];
      rewrite ?existsb_app; cbn; rewrite ?orb_false_r, ?orb_true_r;
      clear - Hi M1 M3 E3; bools.
  - (* decode *)
    cbn. destruct result; cbn; clear - Hi M1 M3 E3; bools.
Qed.

Lemma apart_inv_step (e : Event) (h h' : Hook) :
  apart_inv h -> normal_use e h = true -> step e h = Some h' ->
  apart_inv h'.
Proof.
  intros Hi Hn Hs.
  destruct (is_intent e) eqn:Hint.
  - assert (h' = exec (callback e) h) as ->
      by (destruct e; try discriminate; now injection Hs).
    now apply apart_inv_intent.
  - destruct e; try discriminate;
      first [ eapply apart_inv_frame_step; [| exact Hi | exact Hs]; exact I
            | eapply apart_inv_recorder_event; [| exact Hi | exact Hn | exact Hs];
              exact I ].
Qed.

Lemma apart_inv_excludes (h : Hook) :
  apart_inv h -> isRecording (state h) && isPhasePlaying (state h) = false.
Proof.
  intros (H1 & _ & H3 & _).
  destruct (isRecording (state h)); [|reflexivity].
  destruct (isPhasePlaying (state h)); [|reflexivity].
  rewrite H1 in H3 by reflexivity. now apply H3; left.
Qed.

(** C9, as the code has it. The two flags are not exclusive in every
    reachable state: with a phrase stored, nothing keeps [startRecording()]
    from starting a new take while the phase loop plays. *)
Lemma recording_while_phase_playing :
  ~ (forall w o h, reachable w o h ->
       isRecording (state h) && isPhasePlaying (state h) = false).
Proof.
  intros H.
  specialize (H fullWindow noOptions
                (after (capture_phrase
                        ++ [CallStartPhase (at_ms 0); CallStartRecording; FireStart 0]))).
  assert (isRecording (state (after (capture_phrase
            ++ [CallStartPhase (at_ms 0); CallStartRecording; FireStart 0])))
          && isPhasePlaying (state (after (capture_phrase
            ++ [CallStartPhase (at_ms 0); CallStartRecording; FireStart 0]))) = true)
    as Hboth by (vm_compute; reflexivity).
  rewrite H in Hboth; [discriminate|].
  exists (capture_phrase ++ [CallStartPhase (at_ms 0); CallStartRecording; FireStart 0]).
  vm_compute. reflexivity.
Qed.

(** Keeping [startRecording()] to states without a phrase does not suffice
    by itself: a take started while the previous one is still being decoded
    gets its "start" event after the decode has stored the phrase and
    [startPhase()] has run. *)
Lemma restart_during_decode_overlaps :
  hasPhrase (state (after record_take)) = false
  /\ has_task is_decoding_task (after record_take) = true
  /\ run (record_take
          ++ [CallStartRecording; DecodeSettled 0 (Some phrase0);
              CallStartPhase (at_ms 0); FireStart 0])
        (usePhaseLooper fullWindow noOptions)
     = Some (after (record_take
                    ++ [CallStartRecording; DecodeSettled 0 (Some phrase0);
                        CallStartPhase (at_ms 0); FireStart 0]))
  /\ isRecording
       (state (after (record_take
                      ++ [CallStartRecording; DecodeSettled 0 (Some phrase0);
                          CallStartPhase (at_ms 0); FireStart 0])))
     && isPhasePlaying
          (state (after (record_take
                         ++ [CallStartRecording; DecodeSettled 0 (Some phrase0);
                             CallStartPhase (at_ms 0); FireStart 0]))) = true.
Proof.
  split; [vm_compute; reflexivity|].
  split; [vm_compute; reflexivity|].
  split; vm_compute; reflexivity.
Qed.

(** Nor does it when a "stop" event is handled while the "start" event of
    its take is still outstanding: the take is decoded and played, and the
    late "start" event then raises [isRecording]. *)
Lemma stop_handled_before_start_overlaps :
  let es := enabled_run
            ++ [CallStartRecording; CallStopRecording; FireDataAvailable 0 4;
                FireStop 0; ArrayBufferSettled [4%N] true;
                DecodeSettled 0 (Some phrase0); CallStartPhase (at_ms 0);
                FireStart 0] in
  has_task is_start_task
    (after (enabled_run
            ++ [CallStartRecording; CallStopRecording; FireDataAvailable 0 4]))
  = true
  /\ run es (usePhaseLooper fullWindow noOptions) = Some (after es)
  /\ isRecording (state (after es)) && isPhasePlaying (state (after es)) = true.
Proof.
  cbv zeta.
  split; [vm_compute; reflexivity|].
  split; vm_compute; reflexivity.
Qed.

(** C9, amended. In every state reached by intents and recorder and decode
    callbacks in normal use, [isRecording] and [isPhasePlaying] are never
    both true.  Normal use asks two things only: [startRecording()] is
    issued while [hasPhrase] is false and no decode of an earlier take is in
    flight, and a "stop" event (unless it is the one [reset()] asked the
    handler to ignore) is handled once no "start" event is outstanding.
    [enable()], [stopRecording()], [startPhase()], [stopPhase()] and
    [reset()] may come at any time, and the other callbacks in any order. *)
Theorem recording_excludes_phase_in_normal_use
    (w : Window) (o : UsePhaseLooperOptions) (es : list Event) (h : Hook) :
  run_normal es (usePhaseLooper w o) = Some h ->
  isRecording (state h) && isPhasePlaying (state h) = false.
Proof.
  intros Hrun. apply apart_inv_excludes. revert Hrun.
  apply (run_normal_invariant apart_inv).
  - intros e h1 h2. apply apart_inv_step.
  - unfold apart_inv, holds_phrase, has_task. cbn. intuition congruence.
Qed.

Lemma recording_excludes_phase_in_normal_use_witness :
  isRecording (state (after (capture_phrase ++ [CallStartPhase (at_ms 0)])))
  && isPhasePlaying (state (after (capture_phrase ++ [CallStartPhase (at_ms 0)]))) = false.
Proof.
  apply (recording_excludes_phase_in_normal_use fullWindow noOptions
           (capture_phrase ++ [CallStartPhase (at_ms 0)])).
  vm_compute. reflexivity.
Defined.

(** * More of the hook, and the page *)

(** ** The unmount cleanup *)

Lemma cleanup_spec (h : Hook) : cleanup h = (Returns tt, after_cleanup h).
Proof.
  unfold cleanup. unfold bind at 1.
  rewrite (try_catch_returns _ _ _ _ _ (stopPhase_spec h)).
  destruct h as [w o st rd [a s r c p s1 s2 g i] [cs ss rs so ps gs pd]].
  unfold after_cleanup, released_world, recording_recorder, torn_down, torn_down_world.
  js.
  destruct r as [r|]; cbn.
  - destruct (rs !! r) as [[sm [| |]]|] eqn:E; cbn; case_decide; try congruence;
      rewrite ?E; cbn; destruct s, a; cbn; rewrite <- ?app_assoc; reflexivity.
  - destruct s, a; reflexivity.
Qed.

Lemma released_world_reset (h : Hook) : world (after_reset h) = released_world h.
Proof. reflexivity. Qed.

Lemma recording_recorder_released (h : Hook) :
  recording_recorder (after_cleanup h) = None.
Proof.
  destruct h as [w o st rd [a s r c p s1 s2 g i] [cs ss rs so ps gs pd]].
  unfold recording_recorder, after_cleanup, released_world, recording_recorder.
  cbn. destruct r as [r|]; [|reflexivity].
  destruct (rs !! r) as [[sm [| |]]|] eqn:E; cbn; destruct s, a; cbn;
    rewrite ?list_lookup_alter_eq, ?E; reflexivity.
Qed.

Lemma after_cleanup_idem (h : Hook) : after_cleanup (after_cleanup h) = after_cleanup h.
Proof.
  unfold after_cleanup at 1. unfold released_world at 1.
  rewrite recording_recorder_released.
  destruct h as [w o st rd [a s r c p s1 s2 g i] [cs ss rs so ps gs pd]].
  unfold after_cleanup, released_world. cbn.
  destruct (recording_recorder _), s, a; reflexivity.
Qed.

(** X1. The unmount cleanup never throws.  It leaves the state as it was but
    for [isPhasePlaying], which it clears; it empties the cells of the two
    playback units, the gain stage, the stream and the context and keeps the
    others (recorder, chunks, phrase, ignore flag); it leaves the platform
    exactly as [reset] would; and running it a second time changes
    nothing. *)
Theorem cleanup_releases (h : Hook) :
  exists h',
    cleanup h = (Returns tt, h')
    /\ state h' = with_isPhasePlaying false (state h)
    /\ rendered h' = rendered h
    /\ refs h' =
         with_audioCtxRef None
           (with_streamRef None
              (with_gainRef None
                 (with_source2Ref None (with_source1Ref None (refs h)))))
    /\ world h' = world (exec reset h)
    /\ cleanup h' = (Returns tt, h').
Proof.
  exists (after_cleanup h). rewrite cleanup_spec.
  repeat (split; [reflexivity|]).
  split.
  - unfold exec. rewrite reset_spec. reflexivity.
  - rewrite cleanup_spec, after_cleanup_idem. reflexivity.
Qed.
Lemma released_world_objects (h : Hook) :
  contexts (released_world h)
  = from_option (fun c => alter (set_ac_state closed) c) id (audioCtxRef (refs h))
      (contexts (world h))
  /\ streams (released_world h)
     = from_option (fun s => alter (fun _ => {| ms_tracks_stopped := true |}) s) id
         (streamRef (refs h)) (streams (world h))
  /\ recorders (released_world h)
     = from_option (fun r => alter (set_mr_state inactive) r) id
         (recording_recorder h) (recorders (world h))
  /\ panners (released_world h) = panners (world h)
  /\ length (sources (released_world h)) = length (sources (world h))
  /\ length (gains (released_world h)) = length (gains (world h)).
Proof.
  destruct h as [w o st rd [a s r c p s1 s2 g i] [cs ss rs so ps gs pd]].
  unfold released_world. cbn.
  destruct (recording_recorder _), s, a, s1, s2, g; cbn;
    rewrite ?length_alter; repeat split; reflexivity.
Qed.

(** X2. [reset] releases what the cells hold: the stored context is closed,
    the tracks of the stored stream are stopped, the stored recorder does
    not record any more (and stays bound to its stream).  It constructs no
    platform object, and the unmount cleanup leaves the platform in the very
    same condition. *)
Theorem reset_releases_platform (h : Hook) :
  (forall c a, audioCtxRef (refs h) = Some c -> contexts (world h) !! c = Some a ->
     contexts (world (exec reset h)) !! c = Some (set_ac_state closed a))
  /\ (forall s x, streamRef (refs h) = Some s -> streams (world h) !! s = Some x ->
        streams (world (exec reset h)) !! s = Some {| ms_tracks_stopped := true |})
  /\ (forall r m, recorderRef (refs h) = Some r -> recorders (world h) !! r = Some m ->
        exists m', recorders (world (exec reset h)) !! r = Some m'
                   /\ mr_state m' <> recording /\ mr_stream m' = mr_stream m)
  /\ constructed (exec reset h) = constructed h
  /\ world (exec cleanup h) = world (exec reset h).
Proof.
  unfold exec. rewrite reset_spec, cleanup_spec. cbn [snd].
  unfold constructed. rewrite released_world_reset.
  destruct (released_world_objects h) as (Hc & Hs & Hr & Hp & Hso & Hg).
  rewrite Hc, Hs, Hr, Hp, Hso, Hg. clear.
  split; [|split; [|split; [|split]]].
  - intros c a -> E. cbn. now rewrite list_lookup_alter_eq, E.
  - intros s x -> E. cbn. now rewrite list_lookup_alter_eq, E.
  - intros r m Hr E. unfold recording_recorder. rewrite Hr, E. cbn.
    destruct m as [sm [| |]]; cbn.
    + exists {| mr_stream := sm; mr_state := inactive |}.
      split; [exact E|]. split; [discriminate | reflexivity].
    + exists {| mr_stream := sm; mr_state := inactive |}.
      rewrite list_lookup_alter_eq, E. split; [reflexivity|].
      split; [discriminate | reflexivity].
    + exists {| mr_stream := sm; mr_state := paused |}.
      split; [exact E|]. split; [discriminate | reflexivity].
  - destruct (audioCtxRef (refs h)), (streamRef (refs h)), (recording_recorder h);
      cbn; rewrite ?length_alter; reflexivity.
  - reflexivity.
Qed.

Lemma after_reset_idem (h : Hook) : after_reset (after_reset h) = after_reset h.
Proof.
  destruct h as [w o st rd [a s r c p s1 s2 g i] [cs ss rs so ps gs pd]].
  unfold after_reset. cbn.
  destruct (recording_recorder _), s, a; reflexivity.
Qed.

(** X3. [reset] is idempotent: a second [reset] right after the first returns
    and changes nothing.  After a reset every cell is empty; only the
    ignore-next-stop flag may be raised, and it is raised exactly when it
    was raised before or the stored recorder was recording. *)
Theorem reset_twice (h : Hook) :
  reset (exec reset h) = (Returns tt, exec reset h)
  /\ refs (exec reset h)
     = with_ignoreNextOnStopRef (ignoreNextOnStopRef (refs (exec reset h))) initialRefs
  /\ (ignoreNextOnStopRef (refs (exec reset h)) = true <->
      ignoreNextOnStopRef (refs h) = true \/ stored_recorder_state h = Some recording).
Proof.
  unfold exec. rewrite !reset_spec. cbn [snd]. rewrite after_reset_idem.
  split; [reflexivity|]. split; [reflexivity|].
  destruct h as [w o st rd [a s r c p s1 s2 g i] [cs ss rs so ps gs pd]].
  unfold after_reset, recording_recorder, stored_recorder_state. cbn.
  destruct r as [r|]; [|intuition congruence].
  destruct (rs !! r) as [[sm [| |]]|]; cbn; intuition congruence.
Qed.

(** ** A reset during a recording *)

Lemma take_head (t : Task) (l : list Task) : take t (t :: l) = Some l.
Proof. cbn. now rewrite decide_True by reflexivity. Qed.

(** X4. A [reset] issued while the stored recorder records, with nothing
    else outstanding: the flag is raised and the recorder's last chunk and
    "stop" event are pending; once both have fired the state is the initial
    snapshot, the flag is down again, every cell is empty except that the
    late chunk (if it is not empty) sits in [chunksRef], nothing is pending
    (so nothing is decoded), and the platform is as [reset] left it. *)
Theorem reset_while_recording_settles (h : Hook) (r : nat) (size : N) :
  recording_recorder h = Some r -> pending (world h) = [] ->
  ignoreNextOnStopRef (refs (exec reset h)) = true
  /\ pending (world (exec reset h)) = [EventDataAvailable r; EventStop r]
  /\ run [CallReset; FireDataAvailable r size; FireStop r] h
     = Some {| window := window h; options := options h;
               state := getInitialState (window h);
               rendered := rendered h;
               refs := with_chunksRef (List.filter (fun s => (0 <? s)%N) [size])
                         initialRefs;
               world := with_pending [] (released_world h) |}.
Proof.
  intros Hr Hp. cbn [run]. unfold step at 1. cbn [awaited callback].
  unfold exec. rewrite reset_spec. cbn [snd].
  destruct h as [w o st rd [a s r0 c p s1 s2 g i] [cs ss rs so ps gs pd]].
  cbn in Hp. subst pd.
  unfold after_reset, released_world. rewrite Hr.
  split; [reflexivity|]. split; [now destruct s, a|].
  unfold step, settle. cbn [awaited callback].
  destruct s, a; cbn -[take];
    rewrite (take_head (EventDataAvailable r) [EventStop r]);
    unfold ondataavailable; destruct (0 <? size)%N; cbn -[take];
    rewrite (take_head (EventStop r) []); reflexivity.
Qed.

(** ** The chunks of a take *)

Lemma deliver_spec (sizes : list N) (h : Hook) :
  deliver sizes h
  = (Returns tt,
     on_refs (fun r => with_chunksRef
                         (chunksRef r ++ List.filter (fun s => (0 <? s)%N) sizes) r) h).
Proof.
  revert h. induction sizes as [|size sizes IH]; intros h.
  - destruct h as [w o st rd [a s r c p s1 s2 g i] wd].
    unfold on_refs, with_chunksRef. cbn. now rewrite app_nil_r.
  - cbn [deliver List.filter]. unfold bind, ondataavailable.
    destruct (0 <? size)%N; cbn [modify ret]; rewrite IH;
      destruct h as [w o st rd [a s r c p s1 s2 g i] wd];
      unfold on_refs, with_chunksRef; cbn; rewrite <- ?app_assoc; reflexivity.
Qed.

(** X5. The handlers of one take, in the order the recorder fires them:
    [onstart], then one [ondataavailable] per chunk, then [onstop] (with a
    context stored and the ignore flag down).  Whatever [chunksRef] held
    before, the blob whose array buffer is requested consists of exactly the
    chunks of this take that are not empty, in order; [isRecording] is
    false and the status reads "Processing recording…". *)
Theorem take_collects_nonempty_chunks (sizes : list N) (c : nat) (h : Hook) :
  audioCtxRef (refs h) = Some c ->
  ignoreNextOnStopRef (refs h) = false ->
  (onstart >> deliver sizes >> onstop) h
  = (Returns tt,
     on_world (fun w =>
                 with_pending
                   (pending w ++ [AwaitArrayBuffer
                                    (List.filter (fun s => (0 <? s)%N) sizes)]) w)
       (on_refs (with_chunksRef (List.filter (fun s => (0 <? s)%N) sizes))
          (on_state (fun s => with_status "Processing recording…"
                                (with_isRecording false s)) h))).
Proof.
  intros Hc Hi.
  destruct h as [w o st rd [a s r ch p s1 s2 g i] wd].
  cbn in Hc, Hi. subst a i.
  unfold bind at 1. 
  match goal with |- context [onstart ?h] =>
    let v := eval cbv [onstart bind modify setStatus setState] in (onstart h) in
    change (onstart h) with v end.
  cbv beta iota. unfold bind at 1. rewrite deliver_spec. cbn.
  reflexivity.
Qed.

(** ** The status line *)

Lemma callback_keeps_plain (e : Event) :
  preserves (fun h => plain (state h) /\ plain (rendered h)) (callback e).
Proof.
  intros h [Hs Hr]. unfold plain in *.
  destruct e; cbn [callback];
    lazymatch goal with
    | |- context [startPhase ?now h] =>
        destruct (startPhase_cases now h)
          as [-> | [(ctx & b & _ & _ & _ & ->) | (ctx & b & _ & _ & _ & ->)]];
          [ now split
          | cbn; split; [discriminate | exact Hr]
          | destruct h as [hw ho [] rd rf wd]; cbn in *;
            split; [|exact Hr]; intros E; destruct (Hs E) as (? & ? & ? & ?);
            now repeat split ]
    | |- context [stopPhase h] =>
        rewrite stopPhase_spec; destruct h as [hw ho [] rd rf wd]; cbn in *;
          split; [|exact Hr]; intros E; destruct (Hs E) as (? & ? & ? & ?);
          now repeat split
    | |- context [reset h] =>
        rewrite reset_spec; destruct h as [hw ho [] rd rf wd]; cbn in *;
          split; [|exact Hr]; intros _; now repeat split
    | _ =>
        destruct h as [hw ho [sup eng en rec hp pl stt] [sup1 eng1 en1 rec1 hp1 pl1 stt1]
                         [ha hs hr hc hp0 hs1 hs2 hg hi] [cs ss rs so ps gs pd]];
          cbn in Hs, Hr; unfold_callbacks; js; crunch;
          try (split; [first [discriminate | assumption]|assumption])
    end.
Qed.

(** X6. In every reachable state the status block of the page shows either
    the hook's status or "STATE: IDLE / WAITING": whenever the status is
    empty the hook is not enabled, does not record, holds no phrase and
    does not play, so the three other fallback texts of the page are never
    displayed. *)
Theorem fallback_status_is_idle (w : Window) (o : UsePhaseLooperOptions) (h : Hook) :
  reachable w o h ->
  statusText (rendered h)
  = match status (rendered h) with
    | EmptyString => "STATE: IDLE / WAITING"
    | s => s
    end
  /\ (status (state h) = "" ->
      isEnabled (state h) = false /\ isRecording (state h) = false
      /\ hasPhrase (state h) = false /\ isPhasePlaying (state h) = false).
Proof.
  intros [es Hes].
  assert (plain (state h) /\ plain (rendered h)) as [Hs Hr].
  { revert Hes.
    apply (run_invariant (fun h => plain (state h) /\ plain (rendered h))).
    - apply step_preserves; [now intros [? ? ? ? ? ?] rest | apply callback_keeps_plain].
    - split; intros _; now repeat split. }
  split; [|exact Hs].
  unfold statusText. destruct (status (rendered h)) eqn:E; [|reflexivity].
  destruct (Hr E) as (_ & -> & -> & ->). reflexivity.
Qed.

(** ** The capture session *)

Lemma capture_inv_same_view (h h' : Hook) :
  isEnabled (state h') = isEnabled (state h) ->
  recorderRef (refs h') = recorderRef (refs h) ->
  streamRef (refs h') = streamRef (refs h) ->
  recorders (world h') = recorders (world h) ->
  streams (world h') = streams (world h) ->
  capture_inv h -> capture_inv h'.
Proof. unfold capture_inv. now intros -> -> -> -> ->. Qed.

Lemma callback_keeps_capture_view (e : Event) (a : bool) (x y : option nat)
    (rs : list MediaRecorder) (ss : list MediaStream) :
  match e with
  | CallStartRecording | CallStopRecording | CallReset | GetUserMediaSettled _ _ => False
  | _ => True
  end ->
  preserves
    (fun h => isEnabled (state h) = a /\ recorderRef (refs h) = x
              /\ streamRef (refs h) = y /\ recorders (world h) = rs
              /\ streams (world h) = ss)
    (callback e).
Proof.
  destruct e; cbn [callback]; intros []; 
    preserves_with ltac:(intros [? ? [] ? [] []] ?; cbn in *; intuition congruence).
Qed.

Lemma capture_inv_recorder_state (st : RecordingState) (r : nat)
    (pd : list Task) (h : Hook) :
  recorderRef (refs h) = Some r ->
  capture_inv h ->
  capture_inv (on_world (fun w => with_pending pd
                 (with_recorders (alter (set_mr_state st) r (recorders w)) w)) h).
Proof.
  intros Hr (H1 & H2 & H3).
  destruct h as [hw ho s0 rd [a s r0 c p s1 s2 g i] [cs ss rs so ps gs pd0]].
  unfold capture_inv in *. cbn in *. subst r0.
  split; [exact H1|]. split; [|exact H3].
  destruct H2 as (Hs & R & m & -> & -> & Hl). split; [exact Hs|].
  exists R, (set_mr_state st m). rewrite alter_app_len. now repeat split.
Qed.

Lemma capture_inv_gotUserMedia (granted ok : bool) (h : Hook) :
  capture_inv h -> capture_inv (exec (enable_gotUserMedia granted ok) h).
Proof.
  intros (H1 & H2 & H3).
  destruct h as [hw ho [sup eng en rec hp pl stt] rd [a s r0 c p s1 s2 g i]
                   [cs ss rs so ps gs pd0]].
  unfold capture_inv in *. cbn in H1, H2, H3.
  destruct granted; [destruct ok|]; cbn.
  - split; [reflexivity|]. split.
    + split; [discriminate|]. eexists rs, _. split; [reflexivity|].
      split; [reflexivity|]. cbn. now rewrite lookup_app_len0.
    + now exists ss.
  - split; [exact H1|]. split; [|now exists ss].
    destruct r0 as [r0|]; [|exact I].
    destruct H2 as (Hs & R & m & -> & -> & Hl). split; [discriminate|].
    exists R, m. repeat split. now apply lookup_app_l_Some.
  - now repeat split.
Qed.

Lemma capture_inv_step (e : Event) (h h' : Hook) :
  capture_inv h -> step e h = Some h' -> capture_inv h'.
Proof.
  apply step_preserves; clear.
  - intros h rest. apply capture_inv_same_view; now destruct h.
  - intros e h Hi.
    assert (match e with
            | CallStartRecording | CallStopRecording | CallReset
            | GetUserMediaSettled _ _ => False
            | _ => True
            end -> capture_inv (snd (callback e h))) as Hframe.
    { intros He.
      destruct (callback_keeps_capture_view e _ _ _ _ _ He h
                  (conj eq_refl (conj eq_refl (conj eq_refl (conj eq_refl eq_refl)))))
        as (E1 & E2 & E3 & E4 & E5).
      now apply (capture_inv_same_view h). }
    destruct e; try (apply Hframe; exact I); clear Hframe; cbn [callback].
    + destruct (startRecording_spec h) as [-> | [(r & ? & _ & ->) | (r & Hr & ->)]];
        try exact Hi.
      now apply capture_inv_recorder_state.
    + destruct (stopRecording_spec h) as [-> | (r & Hr & ->)]; try exact Hi.
      now apply capture_inv_recorder_state.
    + rewrite reset_spec. unfold capture_inv. cbn. now repeat split.
    + now apply capture_inv_gotUserMedia.
Qed.

Lemma reachable_capture_inv (w : Window) (o : UsePhaseLooperOptions) (h : Hook) :
  reachable w o h -> capture_inv h.
Proof.
  intros [es Hes]. revert Hes. apply (run_invariant capture_inv).
  - intros e h1 h2. apply capture_inv_step.
  - unfold capture_inv. cbn. now repeat split.
Qed.

(** X7. In every reachable state [isEnabled] is true exactly when a recorder
    is stored.  A stored recorder is the one constructed last, comes with a
    stored stream, and is bound to a stream whose tracks have not been
    stopped; a stored stream is the one acquired last and its tracks have
    not been stopped. *)
Theorem enabled_means_live_recorder (w : Window) (o : UsePhaseLooperOptions) (h : Hook) :
  reachable w o h ->
  (isEnabled (state h) = true <-> recorderRef (refs h) <> None)
  /\ (forall r, recorderRef (refs h) = Some r ->
        streamRef (refs h) <> None
        /\ exists m, recorders (world h) !! r = Some m
                     /\ S r = length (recorders (world h))
                     /\ streams (world h) !! mr_stream m
                        = Some {| ms_tracks_stopped := false |})
  /\ (forall s, streamRef (refs h) = Some s ->
        streams (world h) !! s = Some {| ms_tracks_stopped := false |}
        /\ S s = length (streams (world h))).
Proof.
  intros Hreach. destruct (reachable_capture_inv _ _ _ Hreach) as (H1 & H2 & H3).
  split; [|split].
  - rewrite H1. destruct (recorderRef (refs h)); split; congruence.
  - intros r Hr. rewrite Hr in H2. destruct H2 as (Hs & R & m & E & -> & Hl).
    split; [exact Hs|]. exists m. rewrite E, lookup_app_len0, length_app. cbn.
    split; [reflexivity|]. split; [lia | exact Hl].
  - intros s Hs. rewrite Hs in H3. destruct H3 as (Ss & E & ->).
    rewrite E, lookup_app_len0, length_app. cbn. split; [reflexivity | lia].
Qed.

(** ** The phase graph *)

Lemma graph_inv_same_view (h h' : Hook) :
  options h' = options h ->
  isPhasePlaying (state h') = isPhasePlaying (state h) ->
  source1Ref (refs h') = source1Ref (refs h) ->
  source2Ref (refs h') = source2Ref (refs h) ->
  gainRef (refs h') = gainRef (refs h) ->
  sources (world h') = sources (world h) ->
  gains (world h') = gains (world h) ->
  graph_inv h -> graph_inv h'.
Proof. unfold graph_inv. now intros -> -> -> -> -> -> ->. Qed.

Lemma callback_keeps_graph_view (e : Event) (o : UsePhaseLooperOptions) (a : bool)
    (x y z : option nat) (so : list AudioBufferSourceNode) (gs : list GainNode) :
  match e with
  | CallStartPhase _ | CallStopPhase | CallReset => False
  | _ => True
  end ->
  preserves
    (fun h => options h = o /\ isPhasePlaying (state h) = a
              /\ source1Ref (refs h) = x /\ source2Ref (refs h) = y
              /\ gainRef (refs h) = z /\ sources (world h) = so
              /\ gains (world h) = gs)
    (callback e).
Proof.
  destruct e; cbn [callback]; intros [];
    preserves_with ltac:(intros [? ? [] ? [] []] ?; cbn in *; intuition congruence).
Qed.

Lemma torn_down_silent (b : AudioBuffer) (rate : number) (n : AudioBufferSourceNode) :
  plays b rate n -> silent (torn_down_source n).
Proof.
  intros (_ & _ & _ & Hs & _). unfold silent, torn_down_source. cbn.
  split; [reflexivity|]. right. now destruct (sn_started n).
Qed.

(** Once torn down, no unit sounds and no gain stage feeds anything. *)
Lemma torn_down_quiet (h : Hook) :
  graph_inv h ->
  Forall silent (sources (world (torn_down h)))
  /\ Forall unplugged (gains (world (torn_down h))).
Proof.
  destruct h as [hw ho st rd [a s r c p s1 s2 g i] [cs ss rs so ps gs pd]].
  unfold graph_inv. cbn.
  destruct s1 as [s1|], s2 as [s2|], g as [g|]; cbn; try tauto.
  intros (_ & U & G & na & nb & ng & b & -> & -> & -> & -> & -> & HU & HG
          & Ha & Hb & _).
  split.
  - rewrite alter_app_len. cbn.
    replace (S (length U)) with (length U + 1) by lia.
    rewrite alter_app_r. cbn.
    apply Forall_app. split; [exact HU|].
    constructor; [eapply torn_down_silent; eassumption|].
    constructor; [eapply torn_down_silent; eassumption|]. constructor.
  - rewrite alter_app_len. cbn. apply Forall_app. split; [exact HG|].
    now repeat constructor.
Qed.

Lemma graph_inv_torn_down (h : Hook) : graph_inv h -> graph_inv (torn_down h).
Proof.
  intros Hi. destruct (torn_down_quiet h Hi) as [H1 H2].
  unfold graph_inv. cbn. now repeat split.
Qed.

Lemma graph_inv_phase_started (now : Time) (ctx : nat) (b : AudioBuffer) (h : Hook) :
  graph_inv h -> graph_inv (phase_started now ctx b (torn_down h)).
Proof.
  intros Hi. destruct (torn_down_quiet h Hi) as [H1 H2].
  unfold graph_inv. cbn. split; [reflexivity|].
  eexists _, _, _, _, _, b.
  repeat (split; [reflexivity|]).
  split; [exact H1|]. split; [exact H2|].
  unfold plays, unitA, unitB, gainStage. cbn.
  repeat split; try reflexivity; try discriminate; eexists; reflexivity.
Qed.

Lemma graph_inv_phase_aborted (ctx : nat) (b : AudioBuffer) (h : Hook) :
  graph_inv h -> graph_inv (phase_aborted ctx b (torn_down h)).
Proof.
  intros Hi. destruct (torn_down_quiet h Hi) as [H1 H2].
  unfold graph_inv. cbn. split; [reflexivity|]. split.
  - apply Forall_app. split; [exact H1|].
    constructor; [split; [reflexivity | now left]|].
    constructor; [split; [reflexivity | now left]|]. constructor.
  - apply Forall_app. split; [exact H2|].
    constructor; [reflexivity | constructor].
Qed.

Lemma graph_inv_step (e : Event) (h h' : Hook) :
  graph_inv h -> step e h = Some h' -> graph_inv h'.
Proof.
  apply step_preserves; clear.
  - intros h rest. apply graph_inv_same_view; now destruct h.
  - intros e h Hi.
    assert (match e with
            | CallStartPhase _ | CallStopPhase | CallReset => False
            | _ => True
            end -> graph_inv (snd (callback e h))) as Hframe.
    { intros He.
      destruct (callback_keeps_graph_view e _ _ _ _ _ _ _ He h
                  (conj eq_refl (conj eq_refl (conj eq_refl (conj eq_refl
                     (conj eq_refl (conj eq_refl eq_refl)))))))
        as (E1 & E2 & E3 & E4 & E5 & E6 & E7).
      now apply (graph_inv_same_view h). }
    destruct e; try (apply Hframe; exact I); clear Hframe; cbn [callback].
    + destruct (startPhase_cases now h)
        as [-> | [(ctx & b & _ & _ & _ & ->) | (ctx & b & _ & _ & _ & ->)]];
        [ exact Hi
        | now apply graph_inv_phase_started
        | now apply graph_inv_phase_aborted ].
    + rewrite stopPhase_spec. now apply graph_inv_torn_down.
    + rewrite reset_spec. destruct (torn_down_quiet h Hi) as [H1 H2].
      unfold graph_inv. cbn. split; [reflexivity|].
      destruct h as [hw ho st rd rf wd]. cbn in *.
      destruct (recording_recorder _), (streamRef rf), (audioCtxRef rf); now split.
Qed.

Lemma reachable_graph_inv (w : Window) (o : UsePhaseLooperOptions) (h : Hook) :
  reachable w o h -> graph_inv h.
Proof.
  intros [es Hes]. revert Hes. apply (run_invariant graph_inv).
  - intros e h1 h2. apply graph_inv_step.
  - unfold graph_inv. cbn. now repeat split.
Qed.

(** With options the platform accepts, every unit ever made was started. *)
Lemma torn_down_started (h : Hook) :
  Forall started (sources (world h)) ->
  Forall started (sources (world (torn_down h))).
Proof.
  destruct h as [hw ho st rd [a s r c p s1 s2 g i] [cs ss rs so ps gs pd]].
  cbn. intros H.
  destruct s1 as [s1|], s2 as [s2|]; cbn;
    repeat (apply Forall_alter; [|now intros x _ Hx]); exact H.
Qed.

Lemma started_step (e : Event) (h h' : Hook) :
  (options_finite (options h) = true -> Forall started (sources (world h))) ->
  step e h = Some h' ->
  options_finite (options h') = true -> Forall started (sources (world h')).
Proof.
  apply (step_preserves
           (fun h => options_finite (options h) = true
                     -> Forall started (sources (world h)))); clear.
  - intros h rest H. now destruct h as [? ? ? ? ? []].
  - intros e h Hi.
    assert (match e with
            | CallStartPhase _ | CallStopPhase | CallReset => False
            | _ => True
            end ->
            options_finite (options (snd (callback e h))) = true ->
            Forall started (sources (world (snd (callback e h))))) as Hframe.
    { intros He.
      destruct (callback_keeps_graph_view e _ _ _ _ _ _ _ He h
                  (conj eq_refl (conj eq_refl (conj eq_refl (conj eq_refl
                     (conj eq_refl (conj eq_refl eq_refl)))))))
        as (E1 & _ & _ & _ & _ & E6 & _).
      rewrite E1, E6. exact Hi. }
    destruct e; try (apply Hframe; exact I); clear Hframe; cbn [callback].
    + destruct (startPhase_cases now h)
        as [-> | [(ctx & b & _ & _ & Hf & ->) | (ctx & b & _ & _ & Hf & ->)]];
        [exact Hi | |].
      * intros _. cbn [snd]. specialize (Hi Hf).
        apply torn_down_started in Hi.
        unfold phase_started. cbn. apply Forall_app. split; [exact Hi|].
        repeat constructor; discriminate.
      * intros Hf'. cbn in Hf'.
        change (options (torn_down h)) with (options h) in Hf'. congruence.
    + rewrite stopPhase_spec. intros Hf. apply torn_down_started, Hi, Hf.
    + rewrite reset_spec. intros Hf.
      assert (Forall started (sources (world (torn_down h)))) as H
        by apply torn_down_started, Hi, Hf.
      destruct h as [hw ho st rd rf wd]. cbn in *.
      destruct (recording_recorder _), (streamRef rf), (audioCtxRef rf); exact H.
Qed.

Lemma reachable_started (w : Window) (o : UsePhaseLooperOptions) (h : Hook) :
  reachable w o h ->
  options_finite (options h) = true -> Forall started (sources (world h)).
Proof.
  intros [es Hes]. revert Hes.
  apply (run_invariant
           (fun h => options_finite (options h) = true
                     -> Forall started (sources (world h)))).
  - intros e h1 h2. apply started_step.
  - intros _. constructor.
Qed.

(** X8. In every reachable state the graph stores have the shape [graph_inv]:
    the three graph cells are set together, exactly when [isPhasePlaying] is
    true, and then hold the two playback units and the gain stage
    constructed last, which loop the same phrase at the base and the fast
    rate, started and not stopped; every other unit ever constructed is
    disconnected, and stopped unless it was never started; every other gain
    stage is disconnected.  So at most one graph sounds, and none when
    [isPhasePlaying] is false.  A unit is left unstarted only when the
    platform has rejected an option: with options that are finite as 32-bit
    floats every unit ever constructed was started, so that every unit
    outside the cells is stopped. *)
Theorem one_phase_graph_at_most (w : Window) (o : UsePhaseLooperOptions) (h : Hook) :
  reachable w o h ->
  graph_inv h
  /\ (isPhasePlaying (state h) = true <-> source1Ref (refs h) <> None)
  /\ (isPhasePlaying (state h) = false ->
      forall n, n ∈ sources (world h) ->
        sn_outputs n = [] /\ (sn_started n = None \/ sn_stopped n = true))
  /\ (options_finite o = true ->
      (forall n, n ∈ sources (world h) -> sn_started n <> None)
      /\ (isPhasePlaying (state h) = false ->
          forall n, n ∈ sources (world h) ->
            sn_outputs n = [] /\ sn_stopped n = true)).
Proof.
  intros Hreach. pose proof (reachable_graph_inv _ _ _ Hreach) as Hi.
  assert (options_finite o = true ->
          forall n, n ∈ sources (world h) -> sn_started n <> None) as Hst.
  { intros Hf n Hn.
    destruct (reachable_platform _ _ _ Hreach) as [_ Ho].
    rewrite <- Ho in Hf.
    pose proof (reachable_started _ _ _ Hreach Hf) as HS.
    rewrite Forall_forall in HS. exact (HS n Hn). }
  split; [exact Hi|]. unfold graph_inv in Hi.
  destruct (source1Ref (refs h)), (source2Ref (refs h)), (gainRef (refs h));
    try tauto.
  - destruct Hi as [-> _]. split; [split; congruence|].
    split; [discriminate|]. intros Hf. split; [now apply Hst | discriminate].
  - destruct Hi as (-> & HS & _). split; [split; congruence|].
    rewrite Forall_forall in HS.
    split; [intros _ n Hn; exact (HS n Hn)|].
    intros Hf. split; [now apply Hst|].
    intros _ n Hn. destruct (HS n Hn) as [H1 [H2 | H2]].
    + now destruct (Hst Hf n Hn).
    + now split.
Qed.

(** ** Audio contexts *)

Lemma context_inv_same_view (h h' : Hook) :
  audioCtxRef (refs h') = audioCtxRef (refs h) ->
  contexts (world h') = contexts (world h) ->
  context_inv h -> context_inv h'.
Proof. unfold context_inv. now intros -> ->. Qed.

Lemma callback_keeps_context_view (e : Event) (x : option nat)
    (cs : list AudioContext) :
  match e with
  | CallEnable _ | ResumeSettled _ _ | CallStartPhase _ | CallReset => False
  | _ => True
  end ->
  preserves (fun h => audioCtxRef (refs h) = x /\ contexts (world h) = cs)
    (callback e).
Proof.
  destruct e; cbn [callback]; intros [];
    preserves_with ltac:(intros [? ? [] ? [] []] ?; cbn in *; intuition congruence).
Qed.

Lemma alter_keeps_last {A} (P : A -> Prop) (f : A -> A) (c : nat) (C : list A) (x : A) :
  (forall a, P a -> P (f a)) -> Forall P C ->
  exists C' x', alter f c (C ++ [x]) = C' ++ [x'] /\ length C' = length C
                /\ Forall P C'.
Proof.
  intros Hf HC. destruct (decide (c < length C)) as [Hlt|Hge].
  - exists (alter f c C), x. rewrite alter_app_l by exact Hlt.
    split; [reflexivity|]. split; [apply length_alter|].
    apply Forall_alter; [exact HC|]. intros a _. apply Hf.
  - replace c with (length C + (c - length C)) by lia.
    rewrite alter_app_r. exists C. destruct (c - length C); cbn; eauto.
Qed.

Lemma context_inv_alter (f : AudioContext -> AudioContext) (c : nat) (h h' : Hook) :
  (forall a, is_closed a -> is_closed (f a)) ->
  audioCtxRef (refs h') = audioCtxRef (refs h) ->
  contexts (world h') = alter f c (contexts (world h)) ->
  context_inv h -> context_inv h'.
Proof.
  unfold context_inv. intros Hf -> ->.
  destruct (audioCtxRef (refs h)) as [c0|].
  - intros (C & x & -> & -> & HC).
    destruct (alter_keeps_last is_closed f c C x Hf HC) as (C' & x' & -> & <- & HC').
    now exists C', x'.
  - intros HC. apply Forall_alter; [exact HC|]. intros a _. apply Hf.
Qed.

Lemma context_inv_enable (nc : NewContext) (h : Hook) :
  context_inv h -> context_inv (exec (enable nc) h).
Proof.
  destruct h as [hw ho st [sup eng en rec hp pl stt] [a s r c p s1 s2 g i]
                   [cs ss rs so ps gs pd]].
  unfold context_inv, enable. js. cbn.
  destruct sup; cbn; [|trivial].
  destruct (en || eng); cbn; [trivial|].
  destruct a as [a|]; cbn.
  - case_decide; cbn; trivial.
  - destruct nc as [|s0]; cbn; [trivial|].
    rewrite lookup_app_len0. cbn. case_decide; cbn; intros HC; eexists cs, _; eauto.
Qed.

Lemma context_inv_step (e : Event) (h h' : Hook) :
  context_inv h -> step e h = Some h' -> context_inv h'.
Proof.
  apply step_preserves; clear.
  - intros h rest. apply context_inv_same_view; now destruct h.
  - intros e h Hi.
    assert (match e with
            | CallEnable _ | ResumeSettled _ _ | CallStartPhase _ | CallReset => False
            | _ => True
            end -> context_inv (snd (callback e h))) as Hframe.
    { intros He.
      destruct (callback_keeps_context_view e _ _ He h (conj eq_refl eq_refl))
        as (E1 & E2).
      now apply (context_inv_same_view h). }
    destruct e; try (apply Hframe; exact I); clear Hframe; cbn [callback].
    + now apply context_inv_enable.
    + destruct (startPhase_cases now h)
        as [-> | [(ctx & b & _ & _ & _ & ->) | (ctx & b & _ & _ & _ & ->)]];
        [exact Hi | |].
      * apply (context_inv_alter time_read ctx h);
          [now intros [] | reflexivity | reflexivity | exact Hi].
      * apply (context_inv_same_view h); [reflexivity | reflexivity | exact Hi].
    + rewrite reset_spec. destruct h as [hw ho st rd [a s r c p s1 s2 g i] wd].
      unfold context_inv in *. cbn in *.
      destruct a as [a|].
      * destruct Hi as (C & x & E & -> & HC).
        destruct (recording_recorder _), s; cbn; rewrite E, alter_app_len;
          (apply Forall_app; split; [exact HC|]); now repeat constructor.
      * destruct (recording_recorder _), s; exact Hi.
    + destruct ok.
      * apply (context_inv_alter
                 (fun a => if decide (ac_state a = suspended)
                           then set_ac_state running a else a) ctx h);
          [| now destruct h | now destruct h | exact Hi].
        intros a Ha. case_decide; [|exact Ha].
        unfold is_closed in Ha. congruence.
      * apply (context_inv_same_view h); now destruct h.
Qed.

(** X9. In every reachable state a context that is not closed is the one in
    [audioCtxRef], and it is the context constructed last: the hook never
    leaves a second context open. *)
Theorem one_open_context_at_most (w : Window) (o : UsePhaseLooperOptions) (h : Hook) :
  reachable w o h ->
  forall c a,
    contexts (world h) !! c = Some a -> ac_state a <> closed ->
    audioCtxRef (refs h) = Some c /\ S c = length (contexts (world h)).
Proof.
  intros [es Hes].
  assert (context_inv h) as Hi.
  { revert Hes. apply (run_invariant context_inv).
    - intros e h1 h2. apply context_inv_step.
    - unfold context_inv. cbn. constructor. }
  intros c a Hc Ha. unfold context_inv in Hi.
  destruct (audioCtxRef (refs h)) as [c0|].
  - destruct Hi as (C & x & E & -> & HC). rewrite E in Hc |- *.
    rewrite length_app. cbn.
    destruct (decide (c < length C)) as [Hlt|Hge].
    + rewrite lookup_app_l in Hc by exact Hlt.
      rewrite Forall_forall in HC. destruct Ha. apply HC.
      apply list_elem_of_lookup. now exists c.
    + apply lookup_lt_Some in Hc. rewrite length_app in Hc. cbn in Hc.
      assert (c = length C) as -> by lia. split; [reflexivity | lia].
  - rewrite Forall_forall in Hi. destruct Ha. apply Hi.
    apply list_elem_of_lookup. now exists c.
Qed.

(** ** After a reset, and after the unmount *)

Lemma reachable_context_inv (w : Window) (o : UsePhaseLooperOptions) (h : Hook) :
  reachable w o h -> context_inv h.
Proof.
  intros [es Hes]. revert Hes. apply (run_invariant context_inv).
  - intros e h1 h2. apply context_inv_step.
  - unfold context_inv. cbn. constructor.
Qed.

(** X20. In every reachable state, once [reset] has run every playback
    unit ever constructed is disconnected and, unless it was never started,
    stopped; no gain stage is connected, and no audio context is left open;
    the unmount cleanup leaves the platform in the same condition.  With
    options that are finite as 32-bit floats every unit was started, so
    every unit ever constructed is then stopped. *)
Theorem nothing_sounds_after_reset
    (w : Window) (o : UsePhaseLooperOptions) (h : Hook) :
  reachable w o h ->
  (forall n, n ∈ sources (world (exec reset h)) ->
     sn_outputs n = [] /\ (sn_started n = None \/ sn_stopped n = true))
  /\ (options_finite o = true ->
      forall n, n ∈ sources (world (exec reset h)) ->
        sn_outputs n = [] /\ sn_stopped n = true)
  /\ (forall g, g ∈ gains (world (exec reset h)) -> gn_outputs g = [])
  /\ (forall c, c ∈ contexts (world (exec reset h)) -> ac_state c = closed)
  /\ world (exec cleanup h) = world (exec reset h).
Proof.
  intros Hr.
  assert (reachable w o (exec reset h)) as Hr'
    by (now apply (reachable_step w o CallReset h)).
  pose proof (reachable_graph_inv _ _ _ Hr') as Hg.
  pose proof (reachable_context_inv _ _ _ Hr') as Hc.
  pose proof (reachable_started _ _ _ Hr') as Hst.
  destruct (reachable_platform _ _ _ Hr') as [_ Ho]. rewrite Ho in Hst.
  unfold exec in *. rewrite reset_spec in *. rewrite cleanup_spec. cbn [snd] in *.
  unfold graph_inv, context_inv in Hg, Hc. cbn in Hg, Hc.
  destruct Hg as (_ & Hs & Hgn).
  rewrite Forall_forall in Hs. rewrite Forall_forall in Hgn.
  rewrite Forall_forall in Hc.
  split; [exact Hs|].
  split.
  { intros Hf n Hn. specialize (Hst Hf). rewrite Forall_forall in Hst.
    destruct (Hs n Hn) as [H1 [H2 | H2]]; [|now split].
    now destruct (Hst n Hn). }
  split; [exact Hgn|]. split; [exact Hc | reflexivity].
Qed.

(** ** Nothing escapes the hook *)




Lemma handlePrimaryClick_dispatch (nc : NewContext) (now : Time) (h : Hook) :
  handlePrimaryClick nc now h
  = callback (icon_event nc now (clicked (rendered h))) h.
Proof.
  unfold handlePrimaryClick, clicked. rewrite bind_get.
  destruct (negb (isEnabled (rendered h))); [reflexivity|].
  destruct (negb (isRecording (rendered h)) && negb (hasPhrase (rendered h)));
    [reflexivity|].
  destruct (isRecording (rendered h)); [reflexivity|].
  destruct (negb (isPhasePlaying (rendered h))); reflexivity.
Qed.


(** ** What constructs platform objects *)

Lemma callback_constructs_nothing (e : Event) (l : list nat) :
  constructs e = false ->
  preserves (fun h => constructed h = l) (callback e).
Proof.
  destruct e; cbn [callback constructs]; try discriminate; intros _;
    preserves_with ltac:(intros [? ? ? ? ? []] ?; unfold constructed in *; cbn in *;
                         rewrite ?length_alter; assumption).
Qed.

(** X11. Only [enable] up to its first await, [enable] after the
    microphone answered, and [startPhase] construct platform objects: every
    other step leaves the number of contexts, streams, recorders, playback
    units, pan stages and gain stages as it was. *)
Theorem only_three_events_construct (e : Event) (h h' : Hook) :
  step e h = Some h' -> constructs e = false ->
  constructed h' = constructed h.
Proof.
  intros Hs He.
  destruct (step_cases _ _ _ Hs) as [[_ ->] | (t & rest & _ & _ & ->)].
  - now apply (callback_constructs_nothing e (constructed h) He h).
  - apply (callback_constructs_nothing e (constructed h) He).
    now destruct h as [? ? ? ? ? []].
Qed.

(** ** The page *)

(** X12. The primary button and its click handler agree: for every snapshot
    the page renders, the icon that stands for the operation a click calls
    is among the icons shown; and when a single icon is shown, the click
    calls that icon's operation ([Enable]: [enable], hollow circle:
    [startRecording], red circle: [stopRecording], triangle: [startPhase],
    square: [stopPhase]). *)
Theorem primary_button_shows_its_operation
    (nc : NewContext) (now : Time) (h : Hook) :
  shown (rendered h) (clicked (rendered h)) = true
  /\ handlePrimaryClick nc now h
     = callback (icon_event nc now (clicked (rendered h))) h
  /\ (forall i, shown (rendered h) i = true ->
        (forall j, shown (rendered h) j = true -> j = i) ->
        handlePrimaryClick nc now h = callback (icon_event nc now i) h).
Proof.
  assert (shown (rendered h) (clicked (rendered h)) = true) as Hs.
  { unfold shown, clicked.
    destruct (isEnabled (rendered h)), (isRecording (rendered h)),
      (hasPhrase (rendered h)), (isPhasePlaying (rendered h)); reflexivity. }
  split; [exact Hs|]. split; [apply handlePrimaryClick_dispatch|].
  intros i _ Hi. rewrite handlePrimaryClick_dispatch.
  now rewrite (Hi _ Hs).
Qed.

Lemma run_page_invariant (P : Hook -> Prop) :
  (forall p h h', P h -> patient p h = true -> page_step p h = Some h' -> P h') ->
  forall ps h h', P h -> run_page ps h = Some h' -> P h'.
Proof.
  intros Hstep ps. induction ps as [|p ps IH]; intros h h' H; cbn.
  - now intros [= <-].
  - destruct (patient p h) eqn:N; [|discriminate].
    destruct (page_step p h) as [h1|] eqn:E; [|discriminate].
    apply IH. eapply Hstep; eauto.
Qed.

(** What a step of the page is for the hook: nothing, or one event, which
    is unhurried when the user is patient. *)
Lemma page_step_event (p : PageEvent) (h h' : Hook) :
  patient p h = true -> page_step p h = Some h' ->
  h' = h \/ exists e, step e h = Some h' /\ unhurried e h = true.
Proof.
  intros Hp Hs. destruct p as [nc now| |e]; cbn in Hp, Hs.
  - destruct (disabled (rendered h)); injection Hs as <-; [now left|].
    right. exists (icon_event nc now (clicked (rendered h))).
    unfold exec. rewrite handlePrimaryClick_dispatch.
    apply andb_prop in Hp as [Hq Hu].
    split.
    + now destruct (clicked (rendered h)).
    + unfold up_to_date in Hu.
      repeat (apply andb_prop in Hu as [Hu ?]).
      apply Bool.eqb_prop in Hu.
      repeat match goal with H : Bool.eqb _ _ = true |- _ =>
               apply Bool.eqb_prop in H end.
      unfold clicked, unhurried.
      destruct (isEnabled (rendered h)); cbn; [|exact Hq].
      destruct (isRecording (rendered h)) eqn:E1, (hasPhrase (rendered h)) eqn:E2;
        cbn; try (destruct (isPhasePlaying (rendered h)); exact Hq).
      rewrite Hq. cbn. 
      match goal with H : false = hasPhrase (state h) |- _ => now rewrite <- H end.
  - injection Hs as <-. right. exists CallReset. split; [reflexivity|].
    now apply andb_prop in Hp as [Hq _].
  - right. exists e. destruct (is_intent e) eqn:Hi; [discriminate|].
    split; [exact Hs|]. now destruct e.
Qed.

(** X13. On the page, with a user who clicks only once nothing is pending
    and the page shows the current state, and with the platform's callbacks
    and React's renders arriving in any order in between, [isRecording] and
    [isPhasePlaying] are never both true. *)
Theorem page_keeps_recording_and_phase_apart
    (w : Window) (o : UsePhaseLooperOptions) (ps : list PageEvent) (h : Hook) :
  run_page ps (usePhaseLooper w o) = Some h ->
  isRecording (state h) && isPhasePlaying (state h) = false.
Proof.
  intros Hrun. apply exclusive_inv_excludes. revert Hrun.
  apply (run_page_invariant exclusive_inv).
  - intros p h1 h2 Hi Hp Hs.
    destruct (page_step_event p h1 h2 Hp Hs) as [-> | (e & He & Hn)];
      [exact Hi|].
    now apply (exclusive_inv_step e h1).
  - unfold exclusive_inv, holds_phrase, has_task. cbn. intuition congruence.
Qed.

Lemma page_run_reachable (w : Window) (o : UsePhaseLooperOptions)
    (ps : list PageEvent) (h : Hook) :
  run_page ps (usePhaseLooper w o) = Some h -> reachable w o h.
Proof.
  apply (run_page_invariant (reachable w o)).
  - intros p h1 h2 Hr Hp Hs.
    destruct (page_step_event p h1 h2 Hp Hs) as [-> | (e & He & _)];
      [exact Hr|].
    now apply (reachable_step w o e h1).
  - now exists [].
Qed.

(** X14. On a platform that fails the capability check, nothing a user can
    do on the page changes the hook at all: the primary button is disabled
    in every render, RESET restores what is already there, and the status
    block reads "STATE: IDLE / WAITING" (the hook's own "not supported"
    message is set by [enable], which the disabled button never calls). *)
Theorem unsupported_page_is_inert
    (w : Window) (o : UsePhaseLooperOptions) (ps : list PageEvent) (h : Hook) :
  isSupported (getInitialState w) = false ->
  run_page ps (usePhaseLooper w o) = Some h ->
  h = usePhaseLooper w o
  /\ disabled (rendered h) = true
  /\ statusText (rendered h) = "STATE: IDLE / WAITING".
Proof.
  intros Hw Hrun.
  assert (h = usePhaseLooper w o) as ->.
  { revert Hrun.
    apply (run_page_invariant (fun h => h = usePhaseLooper w o)); [|reflexivity].
    intros p h1 h2 -> _. destruct p as [nc now| |e]; unfold page_step.
    - unfold disabled. cbn [rendered usePhaseLooper]. rewrite Hw.
      now intros [= <-].
    - intros [= <-]. unfold exec. now rewrite reset_spec.
    - destruct e; cbn; try discriminate. now intros [= <-]. }
  split; [reflexivity|]. split; [|reflexivity].
  unfold disabled. cbn [rendered usePhaseLooper]. now rewrite Hw.
Qed.

(** ** One icon at a time *)

Lemma take_stops (t : Task) (l rest : list Task) :
  take t l = Some rest ->
  length (List.filter is_stop_task l)
  = (if is_stop_task t then 1 else 0) + length (List.filter is_stop_task rest).
Proof.
  revert rest. induction l as [|x l IH]; intros rest; cbn; [discriminate|].
  destruct (decide (x = t)) as [->|_].
  - intros [= ->]. destruct (is_stop_task t); cbn; lia.
  - destruct (take t l) as [r|]; [|discriminate].
    intros [= <-]. cbn. specialize (IH r eq_refl).
    destruct (is_stop_task x); cbn; lia.
Qed.

Lemma one_icon_inv_same_view (h h' : Hook) :
  isEnabled (state h') = isEnabled (state h) ->
  isRecording (state h') = isRecording (state h) ->
  hasPhrase (state h') = hasPhrase (state h) ->
  ignoreNextOnStopRef (refs h') = ignoreNextOnStopRef (refs h) ->
  pending (world h') = pending (world h) ->
  one_icon_inv h -> one_icon_inv h'.
Proof.
  unfold one_icon_inv, has_task, stops. now intros -> -> -> -> ->.
Qed.

Lemma callback_keeps_icon_view (e : Event) (a b c d : bool) (pd : list Task) :
  match e with
  | Render | CallStartPhase _ | CallStopPhase | FireDataAvailable _ _ => True
  | _ => False
  end ->
  preserves
    (fun h => isEnabled (state h) = a /\ isRecording (state h) = b
              /\ hasPhrase (state h) = c /\ ignoreNextOnStopRef (refs h) = d
              /\ pending (world h) = pd)
    (callback e).
Proof.
  destruct e; cbn [callback]; intros [];
    preserves_with ltac:(intros [? ? [] ? [] []] ?; cbn in *; intuition congruence).
Qed.

Lemma one_icon_inv_intent (e : Event) (h : Hook) :
  is_intent e = true ->
  capture_inv h -> one_icon_inv h -> unhurried e h = true ->
  one_icon_inv (exec (callback e) h).
Proof.
  intros Hint Hc Hi Hn. unfold exec.
  destruct e; try discriminate; cbn [callback].
  - (* enable *)
    cbn in Hn.
    destruct h as [hw ho [sup eng en rec hp pl stt] [sup1 eng1 en1 rec1 hp1 pl1 stt1]
                     [ha hs hr hc hp0 hs1 hs2 hg hi] [cs ss rs so ps gs [|]]];
      try discriminate.
    unfold one_icon_inv, has_task, stops in *. cbn in Hi.
    unfold enable. js. crunch; counts.
  - (* startRecording *)
    cbn in Hn. apply andb_prop in Hn as [Hq Hp].
    destruct (startRecording_spec h) as [-> | [(r & ? & _ & ->) | (r & Hr & ->)]];
      try exact Hi.
    destruct Hc as (Hen & _). rewrite Hr in Hen.
    destruct h as [hw ho [] rd [] [cs ss rs so ps gs [|]]]; try discriminate.
    unfold one_icon_inv, has_task, stops in *. cbn in *. counts.
  - (* stopRecording *)
    cbn in Hn.
    destruct (stopRecording_spec h) as [-> | (r & Hr & ->)]; try exact Hi.
    destruct Hc as (Hen & _). rewrite Hr in Hen.
    destruct h as [hw ho [] rd [] [cs ss rs so ps gs [|]]]; try discriminate.
    unfold one_icon_inv, has_task, stops in *. cbn in *. counts.
  - (* startPhase *)
    destruct (callback_keeps_icon_view (CallStartPhase now) _ _ _ _ _ I h
                (conj eq_refl (conj eq_refl (conj eq_refl (conj eq_refl eq_refl)))))
      as (E1 & E2 & E3 & E4 & E5).
    now apply (one_icon_inv_same_view h).
  - (* stopPhase *)
    destruct (callback_keeps_icon_view CallStopPhase _ _ _ _ _ I h
                (conj eq_refl (conj eq_refl (conj eq_refl (conj eq_refl eq_refl)))))
      as (E1 & E2 & E3 & E4 & E5).
    now apply (one_icon_inv_same_view h).
  - (* reset *)
    cbn in Hn. rewrite reset_spec. clear Hc.
    destruct h as [hw ho [] rd [ha hs hr hc hp0 hs1 hs2 hg hi]
                     [cs ss rs so ps gs [|]]]; try discriminate.
    unfold one_icon_inv, has_task, stops, after_reset in *. cbn in *.
    destruct (recording_recorder _); cbn; destruct hs, ha; cbn; counts.
Qed.

Lemma one_icon_inv_event (e : Event) (h h' : Hook) :
  is_intent e = false ->
  one_icon_inv h -> step e h = Some h' -> one_icon_inv h'.
Proof.
  intros Hint Hi Hs.
  destruct (step_cases _ _ _ Hs) as [[Ha ->] | (t & rest & Ht & Hrest & ->)].
  - destruct e; try discriminate.
    destruct (callback_keeps_icon_view Render _ _ _ _ _ I h
                (conj eq_refl (conj eq_refl (conj eq_refl (conj eq_refl eq_refl)))))
      as (E1 & E2 & E3 & E4 & E5).
    now apply (one_icon_inv_same_view h).
  - pose proof (take_stops _ _ _ Hrest) as N.
    pose proof (take_mono is_start_task _ _ _ Hrest) as M1.
    pose proof (take_mono is_decoding_task _ _ _ Hrest) as M2.
    pose proof (take_mono is_enable_task _ _ _ Hrest) as M3.
    pose proof (take_elem is_start_task _ _ _ Hrest) as E1.
    pose proof (take_elem is_decoding_task _ _ _ Hrest) as E2.
    pose proof (take_elem is_enable_task _ _ _ Hrest) as E3.
    pose proof (take_other is_start_task _ _ _ Hrest) as O1.
    pose proof (take_other is_decoding_task _ _ _ Hrest) as O2.
    pose proof (take_other is_enable_task _ _ _ Hrest) as O3.
    clear Hs Hrest.
    destruct h as [hw ho [sup eng en rec hp pl stt] rd [ha hs hr hc hp0 hs1 hs2 hg hi]
                     [cs ss rs so ps gs pd]].
    unfold one_icon_inv, has_task, stops in *.
    cbn in Hi, N, M1, M2, M3, E1, E2, E3, O1, O2, O3.
    destruct e; try discriminate; injection Ht as <-;
      cbn in N, E1, E2, E3, O1, O2, O3;
      cbn [callback]; unfold_callbacks; js; crunch;
      rewrite ?existsb_app, ?List.filter_app, ?length_app; cbn;
      rewrite ?orb_false_r, ?orb_true_r, ?Nat.add_0_r;
      clear - Hi N M1 M2 M3 E1 E2 E3 O1 O2 O3; counts.
Qed.

Lemma callback_keeps_rendered (e : Event) (s : PhaseLooperState) :
  e <> Render -> preserves (fun h => rendered h = s) (callback e).
Proof.
  destruct e; cbn [callback]; try congruence; intros _;
    preserves_with ltac:(intros [? ? ? ? ? ?] ?; cbn in *; assumption).
Qed.

Lemma step_rendered (e : Event) (h h' : Hook) :
  step e h = Some h' ->
  rendered h' = match e with Render => state h | _ => rendered h end.
Proof.
  intros Hs.
  assert (e = Render \/ e <> Render) as [->|Hne]
    by (destruct e; first [now left | now right]).
  - injection Hs as <-. reflexivity.
  - assert (rendered h' = rendered h) as ->; [|now destruct e].
    destruct (step_cases _ _ _ Hs) as [[_ ->] | (t & rest & _ & _ & ->)].
    + now apply (callback_keeps_rendered e (rendered h) Hne h).
    + apply (callback_keeps_rendered e (rendered h) Hne). now destruct h.
Qed.

Lemma coherent_state (h : Hook) :
  hasPhrase (state h) = holds_phrase h ->
  exclusive_inv h -> one_icon_inv h -> coherent (state h).
Proof.
  intros Hf (X1 & _ & X3 & _) (I1 & _). unfold coherent.
  rewrite <- Hf in X1, X3.
  destruct (isEnabled (state h)), (isRecording (state h)), (hasPhrase (state h)),
    (isPhasePlaying (state h)); intuition congruence.
Qed.

Lemma coherent_one_icon (s : PhaseLooperState) (i : Icon) :
  coherent s -> (shown s i = true <-> i = clicked s).
Proof.
  unfold coherent, shown, clicked.
  destruct (isEnabled s), (isRecording s), (hasPhrase s), (isPhasePlaying s), i;
    cbn; intuition congruence.
Qed.

(** X15. With the same patient user, the primary button shows exactly one
    icon at any time, the one that stands for the operation a click calls;
    this holds for the snapshot on the page and for the current state. *)
Theorem patient_page_shows_one_icon
    (w : Window) (o : UsePhaseLooperOptions) (ps : list PageEvent) (h : Hook) :
  run_page ps (usePhaseLooper w o) = Some h ->
  forall i,
    (shown (rendered h) i = true <-> i = clicked (rendered h))
    /\ (shown (state h) i = true <-> i = clicked (state h)).
Proof.
  intros Hrun.
  assert (reachable w o h /\ exclusive_inv h /\ one_icon_inv h
          /\ coherent (rendered h)) as (Hr & Hx & Hi & Hc).
  { revert Hrun.
    apply (run_page_invariant
             (fun h => reachable w o h /\ exclusive_inv h /\ one_icon_inv h
                       /\ coherent (rendered h))).
    - intros p h1 h2 (Hr & Hx & Hi & Hc) Hp Hs.
      destruct (page_step_event p h1 h2 Hp Hs) as [-> | (e & He & Hn)];
        [exact (conj Hr (conj Hx (conj Hi Hc)))|].
      split; [now apply (reachable_step w o e h1)|].
      split; [now apply (exclusive_inv_step e h1)|].
      split.
      + destruct (is_intent e) eqn:Hint.
        * assert (h2 = exec (callback e) h1) as ->
            by (destruct e; try discriminate; now injection He).
          apply one_icon_inv_intent; try assumption.
          now apply (reachable_capture_inv w o).
        * now apply (one_icon_inv_event e h1).
      + rewrite (step_rendered _ _ _ He).
        destruct e; try exact Hc.
        apply coherent_state; try assumption.
        now apply (reachable_phrase_flag w o).
    - split; [now exists []|].
      split; [unfold exclusive_inv, holds_phrase, has_task; cbn; intuition congruence|].
      split; [unfold one_icon_inv, has_task, stops; cbn; intuition (congruence || lia)|].
      unfold coherent. cbn. intuition congruence. }
  intros i. split; apply coherent_one_icon; [exact Hc|].
  apply coherent_state; try assumption.
  now apply (reachable_phrase_flag w o).
Qed.

(** ** What the flags say *)

(** X16. In every reachable state [isSupported], in the state and in the
    rendered snapshot, is what the capability probe gives, and [hasPhrase]
    is true exactly when a phrase is stored. *)
Theorem flags_follow_probe_and_phrase
    (w : Window) (o : UsePhaseLooperOptions) (h : Hook) :
  reachable w o h ->
  isSupported (state h) = isSupported (getInitialState w)
  /\ isSupported (rendered h) = isSupported (getInitialState w)
  /\ (hasPhrase (state h) = true <-> phraseBufferRef (refs h) <> None).
Proof.
  intros Hr. destruct (reachable_isSupported _ _ _ Hr) as [H1 H2].
  split; [exact H1|]. split; [exact H2|].
  rewrite (reachable_phrase_flag _ _ _ Hr). unfold holds_phrase.
  destruct (phraseBufferRef (refs h)); split; congruence.
Qed.

(** ** A complete take *)

Lemma alter_alter_back {A} (f g : A -> A) (i : nat) (l : list A) (x : A) :
  l !! i = Some x -> g (f x) = x -> alter g i (alter f i l) = l.
Proof.
  intros Hl Hx. rewrite list_alter_alter_eq.
  apply list_eq. intros j. destruct (decide (j = i)) as [->|Hne].
  - rewrite list_lookup_alter_eq, Hl. cbn. unfold compose. now rewrite Hx.
  - now rewrite list_lookup_alter_ne.
Qed.

Lemma run_cons (e : Event) (es : list Event) (h h1 : Hook) :
  step e h = Some h1 -> run (e :: es) h = run es h1.
Proof. cbn. now intros ->. Qed.

Lemma startRecording_inactive (h : Hook) (r : nat) (m : MediaRecorder) :
  recorderRef (refs h) = Some r ->
  recorders (world h) !! r = Some m -> mr_state m = inactive ->
  streams (world h) !! mr_stream m = Some {| ms_tracks_stopped := false |} ->
  startRecording h = (Returns tt, start_requested r h).
Proof.
  intros Hr Hm Hi Hl. rewrite startRecording_by_state.
  unfold stored_recorder_state, stream_ended. rewrite Hr, Hm. cbn.
  now rewrite Hi, Hl.
Qed.

Lemma stopRecording_recording (h : Hook) (r : nat) (m : MediaRecorder) :
  recorderRef (refs h) = Some r ->
  recorders (world h) !! r = Some m -> mr_state m = recording ->
  stopRecording h = (Returns tt, stop_requested r h).
Proof.
  destruct h as [hw ho st rd [ha hs hr hc hp0 hs1 hs2 hg hi] [cs ss rs so ps gs pd]].
  cbn. intros -> Hm Hi. unfold stopRecording, stop_requested. js.
  rewrite Hm. destruct m as [sm []]; try discriminate. cbn.
  rewrite decide_False by (intros H; now apply H). rewrite Hm. cbn.
  now rewrite <- app_assoc.
Qed.

(** X17. One complete take.  With an idle recorder on a stream with live
    tracks and a context stored, the ignore flag down and nothing pending: [startRecording], the "start"
    event, [stopRecording], the last chunk, the "stop" event, the array
    buffer and a successful decode, in this order, all go through; the blob
    decoded is the take's chunk (none, if it was empty); at the end the
    decoded phrase is stored, [hasPhrase] is true, [isRecording] false, the
    status announces the phrase with its duration, and the platform is as
    before (recorder idle again, nothing pending). *)
Theorem take_round_trip
    (h : Hook) (r c : nat) (m : MediaRecorder) (size : N) (b : AudioBuffer) :
  recorderRef (refs h) = Some r ->
  recorders (world h) !! r = Some m -> mr_state m = inactive ->
  streams (world h) !! mr_stream m = Some {| ms_tracks_stopped := false |} ->
  audioCtxRef (refs h) = Some c ->
  ignoreNextOnStopRef (refs h) = false ->
  pending (world h) = [] ->
  run [CallStartRecording; FireStart r; CallStopRecording;
       FireDataAvailable r size; FireStop r;
       ArrayBufferSettled (List.filter (fun s => (0 <? s)%N) [size]) true;
       DecodeSettled c (Some b)] h
  = Some {| window := window h; options := options h;
            state :=
              with_status ("Captured phrase: " ++ ab_duration_toFixed2 b
                           ++ "s. Ready to start phase loop.")
                (with_hasPhrase true (with_isRecording false (state h)));
            rendered := rendered h;
            refs := with_phraseBufferRef (Some b)
                      (with_chunksRef (List.filter (fun s => (0 <? s)%N) [size])
                         (refs h));
            world := world h |}.
Proof.
  intros Hr Hm Hi Hl Hc Hf Hp.
  assert (alter (set_mr_state inactive) r
            (alter (set_mr_state recording) r (recorders (world h)))
          = recorders (world h)) as Hback.
  { apply (alter_alter_back _ _ _ _ _ Hm). destruct m as [sm st]. cbn in *.
    now subst st. }
  erewrite run_cons;
    [|unfold step; cbn [awaited callback]; unfold exec;
      rewrite (startRecording_inactive h r m Hr Hm Hi Hl); reflexivity].
  clear Hl.
  destruct h as [hw ho [sup eng en rec hp pl stt] rd [ha hs hr hc hp0 hs1 hs2 hg hi]
                   [cs ss rs so ps gs pd]].
  cbn in Hr, Hm, Hc, Hf, Hp, Hback. subst hr ha hi pd.
  erewrite run_cons;
    [|unfold step, settle, start_requested; cbn -[take];
      rewrite (take_head (EventStart r) []); reflexivity].
  erewrite run_cons;
    [|unfold step; cbn [awaited callback]; unfold exec;
      erewrite (stopRecording_recording _ r (set_mr_state recording m));
      [reflexivity | reflexivity | cbn; now rewrite list_lookup_alter_eq, Hm
       | reflexivity]].
  unfold stop_requested. js. rewrite Hback.
  erewrite run_cons;
    [|unfold step, settle; cbn -[take];
      rewrite (take_head (EventDataAvailable r) [EventStop r]); reflexivity].
  unfold ondataavailable. cbn [List.filter].
  destruct (0 <? size)%N; js; cbn [app];
    (erewrite run_cons;
      [|unfold step, settle; cbn -[take];
        rewrite (take_head (EventStop r) []); reflexivity]);
    js; cbn [app];
    (erewrite run_cons;
      [|unfold step, settle; cbn -[take];
        rewrite take_head; reflexivity]);
    js; cbn [app];
    (erewrite run_cons;
      [|unfold step, settle; cbn -[take];
        rewrite take_head; reflexivity]);
    reflexivity.
Qed.

(** ** enable, granted *)

(** X18. [enable] when everything is granted.  Called from a render that
    shows a supported, not enabled, not enabling hook without a context and
    with nothing pending: whether the new context starts running, or starts
    suspended and is then resumed, the microphone grant ends in the same
    machine: [isEnabled] true, [isEnabling] false, the "Mic enabled" status,
    one new running context, one new live stream and one new idle recorder
    on that stream, all three stored in their cells, nothing pending. *)
Theorem enable_granted_session (h : Hook) :
  isSupported (rendered h) = true ->
  isEnabled (rendered h) = false -> isEnabling (rendered h) = false ->
  audioCtxRef (refs h) = None -> pending (world h) = [] ->
  let c := length (contexts (world h)) in
  let s := length (streams (world h)) in
  let r := length (recorders (world h)) in
  let enabled :=
    {| window := window h; options := options h;
       state := with_status "Mic enabled. Click Record and speak your phrase."
                  (with_isEnabling false (with_isEnabled true (state h)));
       rendered := rendered h;
       refs := with_recorderRef (Some r)
                 (with_streamRef (Some s) (with_audioCtxRef (Some c) (refs h)));
       world :=
         with_recorders
           (recorders (world h) ++ [{| mr_stream := s; mr_state := inactive |}])
           (with_streams (streams (world h) ++ [{| ms_tracks_stopped := false |}])
              (with_contexts
                 (contexts (world h)
                  ++ [{| ac_state := running; ac_currentTime_reads := 0 |}])
                 (world h))) |} in
  run [CallEnable (ContextStarts running); GetUserMediaSettled true true] h
  = Some enabled
  /\ run [CallEnable (ContextStarts suspended); ResumeSettled c true;
          GetUserMediaSettled true true] h
     = Some enabled.
Proof.
  destruct h as [hw ho [sup eng en rec hp pl stt] [sup1 eng1 en1 rec1 hp1 pl1 stt1]
                   [ha hs hr hc hp0 hs1 hs2 hg hi] [cs ss rs so ps gs pd]].
  cbn -[run]. intros -> -> -> -> ->. split.
  - erewrite run_cons;
      [|unfold step; cbn [awaited callback]; unfold exec, enable; js; cbn;
        rewrite lookup_app_len0; cbn; rewrite decide_False by discriminate;
        reflexivity].
    erewrite run_cons;
      [|unfold step, settle; cbn -[take];
        rewrite (take_head AwaitGetUserMedia []); reflexivity].
    reflexivity.
  - erewrite run_cons;
      [|unfold step; cbn [awaited callback]; unfold exec, enable; js; cbn;
        rewrite lookup_app_len0; cbn; rewrite decide_True by reflexivity;
        reflexivity].
    erewrite run_cons;
      [|unfold step, settle; cbn -[take];
        rewrite (take_head (AwaitResume (length cs)) []); cbn -[take]; js;
        rewrite alter_app_len; cbn; rewrite decide_True by reflexivity;
        reflexivity].
    erewrite run_cons;
      [|unfold step, settle; cbn -[take];
        rewrite (take_head AwaitGetUserMedia []); reflexivity].
    reflexivity.
Qed.

(** ** A "stop" event after the unmount cleanup *)

(** X19. Unlike [reset], the unmount cleanup does not raise the ignore flag.
    When it stops a recording recorder (nothing else outstanding, flag
    down), the recorder's last chunk and "stop" event are pending, and when
    they fire the stop handler does run: it clears [isRecording] and sets
    the status "Processing recording…"; but it finds no context and starts
    no decode, so nothing is pending afterwards. *)
Theorem stop_after_cleanup_decodes_nothing (h : Hook) (r : nat) (size : N) :
  recording_recorder h = Some r -> pending (world h) = [] ->
  ignoreNextOnStopRef (refs h) = false ->
  pending (world (exec cleanup h)) = [EventDataAvailable r; EventStop r]
  /\ run [FireDataAvailable r size; FireStop r] (exec cleanup h)
     = Some (on_state (fun s => with_status "Processing recording…"
                                  (with_isRecording false s))
               (on_refs (fun rf => with_chunksRef
                           (chunksRef rf ++ List.filter (fun s => (0 <? s)%N) [size])
                           rf)
                  (on_world (with_pending []) (after_cleanup h)))).
Proof.
  intros Hr Hp Hf. unfold exec. rewrite cleanup_spec. cbn [snd].
  destruct h as [hw ho st rd [ha hs hr hc hp0 hs1 hs2 hg hi] [cs ss rs so ps gs pd]].
  cbn in Hp, Hf. subst pd hi.
  unfold after_cleanup, released_world. rewrite Hr.
  split; [now destruct hs, ha|].
  cbn [List.filter].
  destruct hs, ha; cbn -[take run];
    (erewrite run_cons;
      [|unfold step, settle; cbn -[take];
        rewrite (take_head (EventDataAvailable r) [EventStop r]); reflexivity]);
    unfold ondataavailable; destruct (0 <? size)%N; js;
    (erewrite run_cons;
      [|unfold step, settle; cbn -[take];
        rewrite (take_head (EventStop r) []); reflexivity]);
    cbn; rewrite ?app_nil_r; reflexivity.
Qed.

(** ** Every click takes effect *)


















(** ** The properties above, on sample runs *)

Lemma reset_releases_platform_witness :
  contexts (world (exec reset (after capture_phrase))) !! 0
  = Some {| ac_state := closed; ac_currentTime_reads := 0 |}
  /\ streams (world (exec reset (after capture_phrase))) !! 0
     = Some {| ms_tracks_stopped := true |}.
Proof.
  destruct (reset_releases_platform (after capture_phrase)) as (H1 & H2 & _).
  split.
  - apply (H1 0 {| ac_state := running; ac_currentTime_reads := 0 |});
      vm_compute; reflexivity.
  - apply (H2 0 {| ms_tracks_stopped := false |}); vm_compute; reflexivity.
Defined.

Lemma reset_twice_witness :
  ignoreNextOnStopRef (refs (exec reset (after recording_run))) = true.
Proof.
  destruct (reset_twice (after recording_run)) as (_ & _ & H).
  apply H. right. vm_compute. reflexivity.
Defined.

Lemma reset_while_recording_settles_witness :
  ignoreNextOnStopRef (refs (exec reset (after recording_run))) = true
  /\ pending (world (exec reset (after recording_run)))
     = [EventDataAvailable 0; EventStop 0].
Proof.
  destruct (reset_while_recording_settles (after recording_run) 0 4096)
    as (H1 & H2 & _).
  - vm_compute. reflexivity.
  - vm_compute. reflexivity.
  - split; [exact H1 | exact H2].
Defined.

Lemma take_collects_nonempty_chunks_witness :
  pending (world (exec (onstart >> deliver [4096; 0; 2048]%N >> onstop)
                    (after enabled_run)))
  = [AwaitArrayBuffer [4096; 2048]%N].
Proof.
  unfold exec.
  rewrite (take_collects_nonempty_chunks [4096; 0; 2048]%N 0 (after enabled_run)).
  - vm_compute. reflexivity.
  - vm_compute. reflexivity.
  - vm_compute. reflexivity.
Defined.

Lemma fallback_status_is_idle_witness :
  statusText (rendered (after (capture_phrase ++ [Render])))
  = "Captured phrase: 1.50s. Ready to start phase loop.".
Proof.
  destruct (fallback_status_is_idle fullWindow noOptions
              (after (capture_phrase ++ [Render]))) as [H _].
  - exists (capture_phrase ++ [Render]). vm_compute. reflexivity.
  - rewrite H. vm_compute. reflexivity.
Defined.

Lemma enabled_means_live_recorder_witness :
  isEnabled (state (after capture_phrase)) = true
  /\ streams (world (after capture_phrase)) !! 0
     = Some {| ms_tracks_stopped := false |}.
Proof.
  destruct (enabled_means_live_recorder fullWindow noOptions (after capture_phrase))
    as (H1 & _ & H3).
  - exists capture_phrase. vm_compute. reflexivity.
  - split.
    + apply H1. vm_compute. discriminate.
    + apply (H3 0). vm_compute. reflexivity.
Defined.

Lemma one_phase_graph_at_most_witness :
  isPhasePlaying (state (after (capture_phrase ++ [CallStartPhase (at_ms 0)]))) = true
  /\ forall n,
       n ∈ sources (world (after (capture_phrase
                                  ++ [CallStartPhase (at_ms 0); CallStopPhase]))) ->
       sn_outputs n = [] /\ sn_stopped n = true.
Proof.
  split.
  - destruct (one_phase_graph_at_most fullWindow noOptions
                (after (capture_phrase ++ [CallStartPhase (at_ms 0)]))) as (_ & H & _).
    + exists (capture_phrase ++ [CallStartPhase (at_ms 0)]). vm_compute. reflexivity.
    + apply H. vm_compute. discriminate.
  - destruct (one_phase_graph_at_most fullWindow noOptions
                (after (capture_phrase ++ [CallStartPhase (at_ms 0); CallStopPhase])))
      as (_ & _ & _ & H).
    + exists (capture_phrase ++ [CallStartPhase (at_ms 0); CallStopPhase]).
      vm_compute. reflexivity.
    + destruct H as [_ H]; [vm_compute; reflexivity|].
      apply H. vm_compute. reflexivity.
Defined.

Lemma one_open_context_at_most_witness :
  audioCtxRef (refs (after capture_phrase)) = Some 0
  /\ 1 = length (contexts (world (after capture_phrase))).
Proof.
  apply (one_open_context_at_most fullWindow noOptions (after capture_phrase))
    with (a := {| ac_state := running; ac_currentTime_reads := 0 |}).
  - exists capture_phrase. vm_compute. reflexivity.
  - vm_compute. reflexivity.
  - discriminate.
Defined.


Lemma only_three_events_construct_witness :
  constructed (exec reset (after capture_phrase)) = constructed (after capture_phrase).
Proof.
  apply (only_three_events_construct CallReset); reflexivity.
Defined.

Lemma primary_button_shows_its_operation_witness :
  handlePrimaryClick ContextThrows (at_ms 0) (after (capture_phrase ++ [Render]))
  = callback (icon_event ContextThrows (at_ms 0) Triangle)
      (after (capture_phrase ++ [Render])).
Proof.
  destruct (primary_button_shows_its_operation ContextThrows (at_ms 0)
              (after (capture_phrase ++ [Render]))) as (_ & _ & H).
  refine (H Triangle _ _).
  - vm_compute. reflexivity.
  - intros j. destruct j; vm_compute; congruence.
Defined.

Lemma page_keeps_recording_and_phase_apart_witness :
  isRecording (state (after_page page_session))
  && isPhasePlaying (state (after_page page_session)) = false.
Proof.
  apply (page_keeps_recording_and_phase_apart fullWindow noOptions page_session).
  vm_compute. reflexivity.
Defined.

Lemma unsupported_page_is_inert_witness :
  disabled (rendered (usePhaseLooper noRecorderWindow noOptions)) = true.
Proof.
  destruct (unsupported_page_is_inert noRecorderWindow noOptions
              [ClickPrimary (ContextStarts running) (at_ms 0); ClickReset; Behind Render]
              (usePhaseLooper noRecorderWindow noOptions)) as (_ & H & _).
  - reflexivity.
  - vm_compute. reflexivity.
  - exact H.
Defined.

Lemma patient_page_shows_one_icon_witness :
  shown (rendered (after_page (firstn 14 page_session))) Square = true
  /\ shown (rendered (after_page (firstn 14 page_session))) Triangle <> true.
Proof.
  assert (run_page (firstn 14 page_session) (usePhaseLooper fullWindow noOptions)
          = Some (after_page (firstn 14 page_session))) as Hrun
    by (vm_compute; reflexivity).
  split.
  - destruct (patient_page_shows_one_icon fullWindow noOptions
                (firstn 14 page_session) (after_page (firstn 14 page_session))
                Hrun Square) as [[_ H] _].
    apply H. vm_compute. reflexivity.
  - destruct (patient_page_shows_one_icon fullWindow noOptions
                (firstn 14 page_session) (after_page (firstn 14 page_session))
                Hrun Triangle) as [[H _] _].
    intros Hs. specialize (H Hs). vm_compute in H. discriminate.
Defined.

Lemma flags_follow_probe_and_phrase_witness :
  hasPhrase (state (after capture_phrase)) = true.
Proof.
  destruct (flags_follow_probe_and_phrase fullWindow noOptions (after capture_phrase))
    as (_ & _ & H).
  - exists capture_phrase. vm_compute. reflexivity.
  - apply H. vm_compute. discriminate.
Defined.

Lemma take_round_trip_witness :
  exists h,
    run [CallStartRecording; FireStart 0; CallStopRecording;
         FireDataAvailable 0 4096; FireStop 0;
         ArrayBufferSettled [4096%N] true; DecodeSettled 0 (Some phrase0)]
      (after enabled_run) = Some h
    /\ hasPhrase (state h) = true /\ phraseBufferRef (refs h) = Some phrase0.
Proof.
  eexists. split.
  - apply (take_round_trip (after enabled_run) 0 0
             {| mr_stream := 0; mr_state := inactive |} 4096 phrase0);
      vm_compute; reflexivity.
  - split; reflexivity.
Defined.

Lemma enable_granted_session_witness :
  exists h,
    run [CallEnable (ContextStarts suspended); ResumeSettled 0 true;
         GetUserMediaSettled true true] (usePhaseLooper fullWindow noOptions)
    = Some h
    /\ isEnabled (state h) = true /\ recorderRef (refs h) = Some 0.
Proof.
  eexists. split.
  - apply (enable_granted_session (usePhaseLooper fullWindow noOptions));
      reflexivity.
  - split; reflexivity.
Defined.

Lemma stop_after_cleanup_decodes_nothing_witness :
  pending (world (exec cleanup (after recording_run)))
  = [EventDataAvailable 0; EventStop 0].
Proof.
  apply (stop_after_cleanup_decodes_nothing (after recording_run) 0 4096);
    vm_compute; reflexivity.
Defined.

Lemma nothing_sounds_after_reset_witness :
  Forall (fun n => sn_outputs n = [] /\ sn_stopped n = true)
    (sources (world (exec reset (after (capture_phrase ++ [CallStartPhase (at_ms 0)]))))).
Proof.
  apply Forall_forall.
  destruct (nothing_sounds_after_reset fullWindow noOptions
              (after (capture_phrase ++ [CallStartPhase (at_ms 0)]))) as (_ & H & _).
  - exists (capture_phrase ++ [CallStartPhase (at_ms 0)]). vm_compute. reflexivity.
  - exact (H eq_refl).
Defined.

